(** * csync: a shallow embedding of the synchronisation core

    The development follows the Go sources of csync:
    - [pkg/utils/ignore.go]            (package utils: [ShouldIgnore], [matchPattern])
    - [internal/scanner/scanner.go]    (package scanner: [Scanner.Scan], [Scanner.matchPattern])
    - [internal/providers/gdrive]      (package gdrive: [Client.Sync], [Client.DryRun], [Client.uploadFile])
    - [internal/providers/pcloud]      (package pcloud: the same entry points)
    - [internal/sync/manager.go]       (package sync: [Manager])
    - [internal/watcher]               (package watcher: [FileWatcher.sendEvent])
    - [internal/daemon/daemon.go]      (package daemon: [Daemon.Start], [Daemon.runFileWatcher])

    Go strings are lists of bytes ([list ascii]); the host is a Unix system, so
    [filepath.Separator] is ['/'] and [filepath.ToSlash] is the identity. *)

From Stdlib Require Import ZArith Lia Ascii String List Bool DecimalString.
From stdpp Require Import base decidable option list gmap strings.

Set Warnings "-register-all".

Open Scope Z_scope.
Open Scope list_scope.

(** A Go string literal. *)
Definition str (s : string) : list ascii := list_ascii_of_string s.

Definition slash : ascii := "/"%char.

(* ===================================================================== *)
(** ** Package strings (the functions the sources call) *)
(* ===================================================================== *)

Module GoStrings.

(** [strings.HasPrefix(s, prefix)] *)
Fixpoint HasPrefix (s prefix : list ascii) {struct prefix} : bool :=
  match prefix, s with
  | [], _ => true
  | _ :: _, [] => false
  | c :: prefix', d :: s' => Ascii.eqb c d && HasPrefix s' prefix'
  end.

(** [strings.HasSuffix(s, suffix)] *)
Definition HasSuffix (s suffix : list ascii) : bool :=
  HasPrefix (rev s) (rev suffix).

(** [strings.Contains(s, substr)] *)
Fixpoint Contains (s substr : list ascii) : bool :=
  HasPrefix s substr ||
  match s with
  | [] => false
  | _ :: s' => Contains s' substr
  end.

(** [strings.TrimSuffix(s, suffix)] *)
Definition TrimSuffix (s suffix : list ascii) : list ascii :=
  if HasSuffix s suffix then take (length s - length suffix)%nat s else s.

(** [strings.ReplaceAll(s, string(c), "")]: every occurrence of the one-byte
    string [c] is deleted. *)
Definition RemoveAll (s : list ascii) (c : ascii) : list ascii :=
  List.filter (fun d => negb (Ascii.eqb c d)) s.

(** [strings.Split(s, string(sep))] for a one-byte separator: always a
    non-empty list of fields. *)
Fixpoint Split (s : list ascii) (sep : ascii) : list (list ascii) :=
  match s with
  | [] => [[]]
  | c :: s' =>
      if Ascii.eqb c sep then [] :: Split s' sep
      else match Split s' sep with
           | [] => [[c]]
           | f :: fs => (c :: f) :: fs
           end
  end.

(** The longest prefix of [s] whose bytes satisfy [f], and the rest. *)
Fixpoint takeWhile (f : ascii -> bool) (s : list ascii) : list ascii :=
  match s with
  | c :: s' => if f c then c :: takeWhile f s' else []
  | [] => []
  end.

Fixpoint dropWhile (f : ascii -> bool) (s : list ascii) : list ascii :=
  match s with
  | c :: s' => if f c then dropWhile f s' else s
  | [] => []
  end.

(** [strings.Trim(s, string(c))] *)
Definition Trim (s : list ascii) (c : ascii) : list ascii :=
  rev (dropWhile (Ascii.eqb c) (rev (dropWhile (Ascii.eqb c) s))).

(** [strings.Join(elems, string(sep))] *)
Fixpoint Join (elems : list (list ascii)) (sep : ascii) : list ascii :=
  match elems with
  | [] => []
  | [e] => e
  | e :: es => e ++ sep :: Join es sep
  end.

End GoStrings.

(* ===================================================================== *)
(** ** Package path/filepath (Unix) *)
(* ===================================================================== *)

Module Filepath.
Import GoStrings.

Definition dot : list ascii := str ".".
Definition dotdot : list ascii := str "..".

(** One step of [Clean]'s scan, on the path elements between separators:
    empty elements and ["."] are dropped, [".."] removes the element before
    it (or is kept, on a relative path, when there is none to remove), and
    any other element is appended.  [out] is the output in reverse. *)
Definition cleanStep (rooted : bool) (out : list (list ascii)) (elem : list ascii)
  : list (list ascii) :=
  if bool_decide (elem = []) || bool_decide (elem = dot) then out
  else if bool_decide (elem = dotdot) then
    match out with
    | top :: out' =>
        if bool_decide (top = dotdot) then
          (if rooted then out else dotdot :: out)
        else out'
    | [] => if rooted then out else [dotdot]
    end
  else elem :: out.

(** [filepath.Clean(path)] *)
Definition Clean (path : list ascii) : list ascii :=
  match path with
  | [] => dot
  | c :: _ =>
      let rooted := Ascii.eqb c slash in
      let out := rev (fold_left (cleanStep rooted) (Split path slash) []) in
      match out, rooted with
      | [], false => dot
      | _, false => Join out slash
      | _, true => slash :: Join out slash
      end
  end.

(** The bytes after the last separator, and the bytes up to and
    including it. *)
Definition lastElem (path : list ascii) : list ascii :=
  rev (takeWhile (fun c => negb (Ascii.eqb c slash)) (rev path)).

Definition uptoLastSep (path : list ascii) : list ascii :=
  rev (dropWhile (fun c => negb (Ascii.eqb c slash)) (rev path)).

(** [filepath.Dir(path)] *)
Definition Dir (path : list ascii) : list ascii :=
  Clean (uptoLastSep path).

(** [filepath.Base(path)] *)
Definition Base (path : list ascii) : list ascii :=
  match path with
  | [] => dot
  | _ =>
      let stripped := rev (dropWhile (fun c => Ascii.eqb c slash) (rev path)) in
      match lastElem stripped with
      | [] => [slash]
      | b => b
      end
  end.

(** *** [filepath.Match]

    The result is [None] for [ErrBadPattern], otherwise [Some matched].
    Characters are bytes: the model agrees with Go on ASCII names and
    patterns (Go decodes UTF-8 runes for [?] and character classes). *)

Definition star : ascii := "*"%char.
Definition backslash : ascii := "\"%char.
Definition lbracket : ascii := "["%char.
Definition rbracket : ascii := "]"%char.
Definition question : ascii := "?"%char.
Definition caret : ascii := "^"%char.
Definition minus : ascii := "-"%char.

(** [scanChunk]: leading stars are dropped, then the chunk runs to the next
    star outside a character class. *)
Fixpoint dropStars (pattern : list ascii) : bool * list ascii :=
  match pattern with
  | c :: p' => if Ascii.eqb c star then (true, snd (dropStars p')) else (false, pattern)
  | [] => (false, [])
  end.

Fixpoint chunkLen (pattern : list ascii) (inrange : bool) : nat :=
  match pattern with
  | [] => 0%nat
  | c :: p' =>
      if Ascii.eqb c backslash then
        match p' with
        | [] => 1%nat
        | _ :: p'' => S (S (chunkLen p'' inrange))
        end
      else if Ascii.eqb c lbracket then S (chunkLen p' true)
      else if Ascii.eqb c rbracket then S (chunkLen p' false)
      else if Ascii.eqb c star then
        (if inrange then S (chunkLen p' inrange) else 0%nat)
      else S (chunkLen p' inrange)
  end.

Definition scanChunk (pattern : list ascii) : bool * list ascii * list ascii :=
  let '(star, p) := dropStars pattern in
  let i := chunkLen p false in
  (star, take i p, drop i p).

(** [getEsc]: one possibly escaped character of a character class. *)
Definition getEsc (chunk : list ascii) : option (ascii * list ascii) :=
  match chunk with
  | [] => None
  | c :: rest =>
      if Ascii.eqb c minus || Ascii.eqb c rbracket then None
      else
        let chunk' := if Ascii.eqb c backslash then rest else chunk in
        match chunk' with
        | [] => None
        | r :: nchunk =>
            match nchunk with
            | [] => None
            | _ => Some (r, nchunk)
            end
        end
  end.

Definition ascii_le (a b : ascii) : bool := (nat_of_ascii a <=? nat_of_ascii b)%nat.

(** The range loop of a character class: [None] is [ErrBadPattern],
    otherwise whether [r] is in some range, and the chunk after the
    closing bracket.  Every range takes at least one byte of the chunk, so
    two units of [fuel] for each byte are enough. *)
Fixpoint classRanges (fuel : nat) (chunk : list ascii) (r : ascii)
    (nrange : nat) (matched : bool) : option (bool * list ascii) :=
  match fuel with
  | O => None
  | S fuel' =>
      match chunk with
      | c :: chunk' =>
          if Ascii.eqb c rbracket && (0 <? nrange)%nat then Some (matched, chunk')
          else classRange fuel' chunk r nrange matched
      | [] => classRange fuel' chunk r nrange matched
      end
  end
with classRange (fuel : nat) (chunk : list ascii) (r : ascii)
    (nrange : nat) (matched : bool) : option (bool * list ascii) :=
  match fuel with
  | O => None
  | S fuel' =>
      match getEsc chunk with
      | None => None
      | Some (lo, chunk1) =>
          match chunk1 with
          | c :: chunk2 =>
              if Ascii.eqb c minus then
                match getEsc chunk2 with
                | None => None
                | Some (hi, chunk3) =>
                    classRanges fuel' chunk3 r (S nrange)
                      (matched || (ascii_le lo r && ascii_le r hi))
                end
              else
                classRanges fuel' chunk1 r (S nrange)
                  (matched || (ascii_le lo r && ascii_le r lo))
          | [] => None
          end
      end
  end.

(** [matchChunk]: [None] is [ErrBadPattern]; [Some None] is no match;
    [Some (Some rest)] is a match leaving [rest] of [s].  After the match
    has failed the loop goes on over the chunk to check that it is well
    formed, without reading [s].  Every round takes at least one byte of
    the chunk, so [fuel] above its length is enough. *)
Fixpoint matchChunkLoop (fuel : nat) (chunk s : list ascii) (failed : bool)
  : option (option (list ascii)) :=
  match fuel with
  | O => None
  | S fuel' =>
      match chunk with
      | [] => Some (if failed then None else Some s)
      | c :: chunk' =>
          let failed := failed || bool_decide (s = []) in
          if Ascii.eqb c lbracket then
            let r := if failed then zero else hd zero s in
            let s1 := if failed then s else tl s in
            let '(negated, chunk1) :=
              match chunk' with
              | d :: chunk'' =>
                  if Ascii.eqb d caret then (true, chunk'') else (false, chunk')
              | [] => (false, chunk')
              end in
            match classRanges (2 * S (length chunk1)) chunk1 r 0 false with
            | None => None
            | Some (matched, chunk2) =>
                matchChunkLoop fuel' chunk2 s1
                  (failed || Bool.eqb matched negated)
            end
          else if Ascii.eqb c question then
            if failed then matchChunkLoop fuel' chunk' s failed
            else matchChunkLoop fuel' chunk' (tl s) (Ascii.eqb (hd zero s) slash)
          else
            let lit :=
              if Ascii.eqb c backslash then chunk' else chunk in
            match lit with
            | [] => None
            | l :: chunk1 =>
                if failed then matchChunkLoop fuel' chunk1 s failed
                else matchChunkLoop fuel' chunk1 (tl s)
                       (negb (Ascii.eqb l (hd zero s)))
            end
      end
  end.

Definition matchChunk (chunk s : list ascii) : option (option (list ascii)) :=
  matchChunkLoop (S (length chunk)) chunk s false.

(** The inner loop of [Match] after a star: try the chunk after skipping
    [i+1] bytes of [name], never skipping a separator.  The result is
    [None] on [ErrBadPattern], [Some None] when no position matches, and
    [Some (Some t)] with the rest of the name otherwise. *)
Fixpoint starSkip (chunk name : list ascii) (lastChunk : bool)
  : option (option (list ascii)) :=
  match name with
  | [] => Some None
  | c :: name' =>
      if Ascii.eqb c slash then Some None
      else
        match matchChunk chunk name' with
        | None => None
        | Some (Some t) =>
            if lastChunk && negb (bool_decide (t = [])) then
              starSkip chunk name' lastChunk
            else Some (Some t)
        | Some None => starSkip chunk name' lastChunk
        end
  end.

(** The loop of [Match] over the chunks of the pattern.  Every round takes
    at least one byte of the pattern, so [fuel] above its length is
    enough. *)
Fixpoint MatchLoop (fuel : nat) (pattern name : list ascii) : option bool :=
  match fuel with
  | O => None
  | S fuel' =>
      match pattern with
      | [] => Some (bool_decide (name = []))
      | _ =>
          let '(star, chunk, rest) := scanChunk pattern in
          if star && bool_decide (chunk = []) then
            Some (negb (Contains name [slash]))
          else
            let lastChunk := bool_decide (rest = []) in
            let afterFail (err : bool) :=
              if err then None
              else if star then
                match starSkip chunk name lastChunk with
                | None => None
                | Some None => Some false
                | Some (Some t) => MatchLoop fuel' rest t
                end
              else Some false in
            match matchChunk chunk name with
            | Some (Some t) =>
                if bool_decide (t = []) || negb lastChunk
                then MatchLoop fuel' rest t
                else afterFail false
            | Some None => afterFail false
            | None => afterFail true
            end
      end
  end.

(** [filepath.Match(pattern, name)] *)
Definition Match (pattern name : list ascii) : option bool :=
  MatchLoop (S (length pattern)) pattern name.

End Filepath.

(* ===================================================================== *)
(** ** Package utils: [pkg/utils/ignore.go] *)
(* ===================================================================== *)

Module Utils.
Import GoStrings Filepath.

(** [matchPattern(path, pattern)] *)
Definition matchPattern (path pattern : list ascii) : bool :=
  if HasSuffix pattern [slash] then
    (* directory patterns (ending with /) *)
    let dirPattern := TrimSuffix pattern [slash] in
    HasPrefix path (dirPattern ++ [slash]) || bool_decide (path = dirPattern)
  else if Contains pattern [star] then
    (* wildcard patterns *)
    match Match pattern (Base path) with
    | None => Contains path (RemoveAll pattern star)
    | Some matched => matched
    end
  else
    (* exact match *)
    bool_decide (path = pattern)
    || HasSuffix path (slash :: pattern)
    || Contains path (slash :: pattern ++ [slash]).

(** [ShouldIgnore(path, patterns)] *)
Fixpoint ShouldIgnore (path : list ascii) (patterns : list (list ascii)) : bool :=
  match patterns with
  | [] => false
  | pattern :: rest =>
      if matchPattern path pattern then true else ShouldIgnore path rest
  end.

(** [FilterPaths(paths, excludePatterns, includePatterns)] *)
Definition FilterPaths (paths excludePatterns includePatterns : list (list ascii))
  : list (list ascii) :=
  List.filter
    (fun path =>
       negb ((0 <? length excludePatterns)%nat && ShouldIgnore path excludePatterns)
       && (negb (0 <? length includePatterns)%nat
           || existsb (matchPattern path) includePatterns))
    paths.

End Utils.

(* ===================================================================== *)
(** ** Errors, and the monad of a Go function that returns [error] *)
(* ===================================================================== *)

(** How a call to the remote store can fail. *)
Inductive ErrKind :=
| Transient      (* network timeout, 5xx, rate limit *)
| AuthFailure    (* authentication *)
| QuotaExceeded  (* quota or permission *)
| Permanent.     (* any other refusal *)

(** Go [error] values. *)
Inductive error :=
| SkipDir                                  (* filepath.SkipDir *)
| OsError (path : list ascii)              (* lstat, readdir or open failed *)
| RemoteError (k : ErrKind)                (* the remote call failed *)
| ErrorNew (msg : string)                   (* fmt.Errorf without a cause *)
| Errorf (msg : string) (cause : error).   (* fmt.Errorf("msg: %w", cause) *)

Global Instance ErrKind_eq_dec : EqDecision ErrKind.
Proof. solve_decision. Defined.

Fixpoint error_eqb (a b : error) : bool :=
  match a, b with
  | SkipDir, SkipDir => true
  | OsError p, OsError q => bool_decide (p = q)
  | RemoteError k, RemoteError l => bool_decide (k = l)
  | ErrorNew m, ErrorNew n => bool_decide (m = n)
  | Errorf m c, Errorf n d => bool_decide (m = n) && error_eqb c d
  | _, _ => false
  end.

(** [errors.Unwrap] to the innermost error. *)
Fixpoint rootCause (e : error) : error :=
  match e with
  | Errorf _ c => rootCause c
  | _ => e
  end.

Inductive Res (A : Type) :=
| Ok (a : A)
| Fail (e : error).
Arguments Ok {A} a.
Arguments Fail {A} e.

(** A computation over a state [St] that returns a value or an error. *)
Definition M (St A : Type) : Type := St -> Res A * St.

Definition ret {St A} (a : A) : M St A := fun s => (Ok a, s).

Definition fail {St A} (e : error) : M St A := fun s => (Fail e, s).

Definition bind {St A B} (m : M St A) (k : A -> M St B) : M St B :=
  fun s =>
    match m s with
    | (Ok a, s') => k a s'
    | (Fail e, s') => (Fail e, s')
    end.

Notation "'do' x <- m ; k" := (bind m (fun x => k))
  (at level 10, x name, m at level 100, k at level 200).
Notation "'exec' m ; k" := (bind m (fun _ => k))
  (at level 10, m at level 100, k at level 200).

(** [if err != nil { return fmt.Errorf("msg: %w", err) }] around [m]. *)
Definition wrap {St A} (msg : string) (m : M St A) : M St A :=
  fun s =>
    match m s with
    | (Ok a, s') => (Ok a, s')
    | (Fail e, s') => (Fail (Errorf msg e), s')
    end.

Definition gets {St A} (f : St -> A) : M St A := fun s => (Ok (f s), s).

Definition modify {St} (f : St -> St) : M St unit := fun s => (Ok tt, f s).

(* ===================================================================== *)
(** ** Package os and [filepath.Walk]: the local file tree *)
(* ===================================================================== *)

Module Os.
Import GoStrings Filepath.

(** A node of the local tree.  [Broken] is a name whose [lstat] fails; a
    file that is not [readable] cannot be opened; a directory that is not
    [listable] cannot be read.  The children of a directory are in the
    order [readDirNames] returns them (sorted by name). *)
Inductive Node :=
| File (name : list ascii) (data : list ascii) (modTime : Z) (readable : bool)
| Directory (name : list ascii) (size : Z) (modTime : Z) (listable : bool)
            (children : list Node)
| Broken (name : list ascii).

Definition nodeName (n : Node) : list ascii :=
  match n with
  | File name _ _ _ => name
  | Directory name _ _ _ _ => name
  | Broken name => name
  end.

(** [os.FileInfo] *)
Record FileInfo := {
  Name : list ascii;
  Size : Z;
  ModTime : Z;
  IsDir : bool
}.

(** [os.Lstat] on a node. *)
Definition lstat (n : Node) : option FileInfo :=
  match n with
  | File name data modTime _ =>
      Some {| Name := name; Size := Z.of_nat (length data);
              ModTime := modTime; IsDir := false |}
  | Directory name size modTime _ _ =>
      Some {| Name := name; Size := size; ModTime := modTime; IsDir := true |}
  | Broken _ => None
  end.

(** [filepath.Join(dir, name)]: empty elements are ignored, the rest is
    joined and cleaned. *)
Definition Join2 (dir name : list ascii) : list ascii :=
  match dir, name with
  | [], [] => []
  | [], _ => Clean name
  | _, [] => Clean dir
  | _, _ => Clean (dir ++ slash :: name)
  end.

(** [filepath.Rel(basepath, targpath)] for a target at or below the base,
    which is how [Walk] calls back; [None] is the error result. *)
Definition Rel (basepath targpath : list ascii) : option (list ascii) :=
  let base := Clean basepath in
  let targ := Clean targpath in
  if bool_decide (targ = base) then Some dot
  else if bool_decide (base = dot) then Some targ
  else if bool_decide (base = [slash]) then
    (if HasPrefix targ [slash] then Some (drop 1 targ) else None)
  else if HasPrefix targ (base ++ [slash]) then Some (drop (S (length base)) targ)
  else None.

(** The node at [path], for a tree whose root is at [root]. *)
Fixpoint descend (names : list (list ascii)) (n : Node) : option Node :=
  match names with
  | [] => Some n
  | name :: names' =>
      match n with
      | Directory _ _ _ true children =>
          match List.find (fun c => bool_decide (nodeName c = name)) children with
          | Some c => descend names' c
          | None => None
          end
      | _ => None
      end
  end.

Definition nodeAt (root : list ascii) (tree : Node) (path : list ascii) : option Node :=
  match Rel root path with
  | Some rel =>
      if bool_decide (rel = dot) then Some tree
      else descend (Split rel slash) tree
  | None => None
  end.

(** [os.Open(path)] followed by reading the whole file: the bytes, or the
    error. *)
Definition readFile (root : list ascii) (tree : Node) (path : list ascii)
  : Res (list ascii) :=
  match nodeAt root tree path with
  | Some (File _ data _ true) => Ok data
  | _ => Fail (OsError path)
  end.

Section Walk.
Context {St : Type}.
(** [filepath.WalkFunc] *)
Variable walkFn : list ascii -> option FileInfo -> option error -> M St unit.

(** The loop of [walk] over the names of a directory, [walkc] being
    [walk] itself: an error ends the loop, unless it is [SkipDir] from
    a directory (or from a name whose [lstat] failed). *)
Section Names.
Variable walkc : list ascii -> Node -> M St unit.
Variable path : list ascii.

Fixpoint walkNames (cs : list Node) : M St unit :=
  match cs with
  | [] => ret tt
  | c :: cs' =>
      fun s =>
        match walkc (Join2 path (nodeName c)) c s with
        | (Ok _, s') => walkNames cs' s'
        | (Fail e, s') =>
            match c with
            | File _ _ _ _ => (Fail e, s')
            | _ =>
                if error_eqb e SkipDir then walkNames cs' s'
                else (Fail e, s')
            end
        end
  end.
End Names.

(** [walk(path, info, walkFn)] of path/filepath: the function is called
    on the node, then on the children of a directory in order. *)
Fixpoint walk (path : list ascii) (n : Node) {struct n} : M St unit :=
  match n with
  | File _ _ _ _ => walkFn path (lstat n) None
  | Broken _ => walkFn path None (Some (OsError path))
  | Directory _ _ _ listable children =>
      exec walkFn path (lstat n)
             (if listable then None else Some (OsError path));
      if listable then walkNames walk path children
      else ret tt
  end.

(** [filepath.Walk(root, fn)] *)
Definition Walk (root : list ascii) (tree : Node) : M St unit :=
  fun s =>
    match walk root tree s with
    | (Fail e, s') =>
        if error_eqb e SkipDir then (Ok tt, s') else (Fail e, s')
    | r => r
    end.
End Walk.

End Os.

(* ===================================================================== *)
(** ** Package scanner: [internal/scanner/scanner.go] *)
(* ===================================================================== *)

Module Scanner.
Import Os.
Import GoStrings Filepath.

(** [filepath.Match(pattern, name)] used as a condition:
    [err == nil && matched]. *)
Definition matches (pattern name : list ascii) : bool :=
  match Match pattern name with
  | Some true => true
  | _ => false
  end.

(** The loop over the parent directories in [Scanner.matchPattern]:
<<
    for dir != "." && dir != "/" { ...; dir = filepath.Dir(dir) }
>>
    Each round shortens [dir] or reaches ["."] or ["/"], so [fuel] rounds
    with [fuel] above the length of the path are enough. *)
Fixpoint parentsMatch (fuel : nat) (pattern dir : list ascii) : bool :=
  match fuel with
  | O => false
  | S fuel' =>
      if bool_decide (dir = dot) || bool_decide (dir = [slash]) then false
      else if matches pattern (Base dir) then true
      else parentsMatch fuel' pattern (Dir dir)
  end.

(** [Scanner.matchPattern(pattern, path, isDir)] *)
Definition matchPattern (pattern path : list ascii) (isDir : bool) : bool :=
  let dirOnly := HasSuffix pattern [slash] in
  if dirOnly && negb isDir then false
  else
    let pattern := if dirOnly then TrimSuffix pattern [slash] else pattern in
    if bool_decide (path = pattern) then true
    else if matches pattern path then true
    else if HasPrefix path (pattern ++ [slash]) then true
    else parentsMatch (S (length path)) pattern (Dir path).

(** [Scanner]: the two pattern lists. *)
Record Scanner := NewScanner {
  ignorePatterns : list (list ascii);
  includePatterns : list (list ascii)
}.

(** [Scanner.shouldIgnore(relPath, isDir)] *)
Definition shouldIgnore (s : Scanner) (relPath : list ascii) (isDir : bool) : bool :=
  existsb (fun pattern => matchPattern pattern relPath isDir) (ignorePatterns s).

(** [Scanner.shouldInclude(relPath, isDir)] *)
Definition shouldInclude (s : Scanner) (relPath : list ascii) (isDir : bool) : bool :=
  if (length (includePatterns s) =? 0)%nat then true
  else if isDir then true
  else existsb (fun pattern => matchPattern pattern relPath isDir) (includePatterns s).

(** [scanner.FileInfo] *)
Record FileInfo := {
  Path : list ascii;          (* relative path from the sync root *)
  AbsolutePath : list ascii;
  Size : Z;
  ModTime : Z;
  IsDir : bool;
  MD5Hash : list ascii        (* empty for directories *)
}.

(** What [Scan] prints. *)
Inductive Output :=
| WarnMD5Failed (path : list ascii) (e : error).

(** The variables the closure of [Scan] updates. *)
Record ScanState := {
  files : list FileInfo;
  stdout : list Output
}.

Section Scan.
(** The hex MD5 digest of the bytes of a file. *)
Variable md5hex : list ascii -> list ascii.
(** The tree at [rootPath]. *)
Variable tree : Node.

(** [Scanner.calculateMD5(filePath)] *)
Definition calculateMD5 (rootPath filePath : list ascii) : Res (list ascii) :=
  match readFile rootPath tree filePath with
  | Ok data => Ok (md5hex data)
  | Fail e => Fail (Errorf "failed to open file" e)
  end.

Definition appendFile (f : FileInfo) : M ScanState unit :=
  modify (fun st => {| files := files st ++ [f]; stdout := stdout st |}).

Definition printf (o : Output) : M ScanState unit :=
  modify (fun st => {| files := files st; stdout := stdout st ++ [o] |}).

(** The function [Scan] hands to [filepath.Walk]. *)
Definition scanFn (s : Scanner) (rootPath : list ascii)
    (path : list ascii) (info : option Os.FileInfo) (err : option error)
  : M ScanState unit :=
  match err, info with
  | Some e, _ => fail (Errorf "error accessing" e)
  | None, None => fail (ErrorNew "nil FileInfo")
  | None, Some info =>
      match Rel rootPath path with
      | None => fail (ErrorNew "failed to get relative path")
      | Some relPath =>
          (* Skip root directory itself *)
          if bool_decide (relPath = dot) then ret tt
          (* Apply ignore patterns *)
          else if shouldIgnore s relPath (Os.IsDir info) then
            (if Os.IsDir info then fail SkipDir else ret tt)
          (* Apply include patterns (if specified) *)
          else if negb (shouldInclude s relPath (Os.IsDir info)) then ret tt
          else
            let fileInfo hash :=
              {| Path := relPath; AbsolutePath := path;
                 Size := Os.Size info; ModTime := Os.ModTime info;
                 IsDir := Os.IsDir info; MD5Hash := hash |} in
            (* Calculate MD5 hash for files (not directories) *)
            if negb (Os.IsDir info) && (0 <? Os.Size info) then
              match calculateMD5 rootPath path with
              | Fail e =>
                  (* Log warning but continue processing *)
                  exec printf (WarnMD5Failed path e);
                  appendFile (fileInfo [])
              | Ok hash => appendFile (fileInfo hash)
              end
            else appendFile (fileInfo [])
      end
  end.

(** [Scanner.Scan(rootPath)]: the files, or the error, and the output. *)
Definition Scan (s : Scanner) (rootPath : list ascii)
  : Res (list FileInfo) * list Output :=
  match Walk (scanFn s rootPath) rootPath tree {| files := []; stdout := [] |} with
  | (Ok _, st) => (Ok (files st), stdout st)
  | (Fail e, st) => (Fail (Errorf "failed to scan directory" e), stdout st)
  end.

(** [ScanDirectory(rootPath)] *)
Definition ScanDirectory (rootPath : list ascii) :=
  Scan (NewScanner [] []) rootPath.
End Scan.

(** [FilterByPatterns(files, ignorePatterns, includePatterns)] *)
Definition FilterByPatterns (fs : list FileInfo)
    (ignorePatterns includePatterns : list (list ascii)) : list FileInfo :=
  let scanner := NewScanner ignorePatterns includePatterns in
  List.filter
    (fun file =>
       negb (shouldIgnore scanner (Path file) (IsDir file))
       && shouldInclude scanner (Path file) (IsDir file))
    fs.

End Scanner.


(* ===================================================================== *)
(** ** Package config *)
(* ===================================================================== *)

Module Config.

Module GoogleDriveConfig.
Record t := {
  CredentialsPath : list ascii;
  TokenPath : list ascii;
  FolderID : list ascii;
  DestinationPath : list ascii
}.
End GoogleDriveConfig.

Module PCloudConfig.
Record t := {
  Username : list ascii;
  Password : list ascii;
  APIHost : list ascii;
  FolderID : list ascii;
  DestinationPath : list ascii
}.
End PCloudConfig.

Module GeneralConfig.
Record t := {
  SourcePath : list ascii;
  MaxConcurrency : Z;
  RetryAttempts : Z;
  ChunkSizeBytes : Z;
  IgnorePatterns : list (list ascii);
  IncludePatterns : list (list ascii)
}.
End GeneralConfig.

Module DaemonConfig.
Record t := {
  Enabled : bool;
  SyncInterval : list ascii;
  WatchMode : bool;
  PidFile : list ascii
}.
End DaemonConfig.

(** [OptionalConfig]: only the daemon section matters here. *)
Record OptionalConfig := {
  Daemon : option DaemonConfig.t
}.

Record Config := {
  GoogleDrive : GoogleDriveConfig.t;
  PCloud : PCloudConfig.t;
  General : GeneralConfig.t;
  Optional : option OptionalConfig
}.

(** [Config.IsWatchMode()] *)
Definition IsWatchMode (c : Config) : bool :=
  match Optional c with
  | Some o =>
      match Daemon o with
      | Some d => DaemonConfig.WatchMode d
      | None => false
      end
  | None => false
  end.

End Config.

(* ===================================================================== *)
(** ** The remote store, as the two clients see it *)
(* ===================================================================== *)

Module Remote.

(** An object of the store: a folder or a file with its bytes. *)
Record Object := {
  ID : list ascii;
  ObjName : list ascii;
  Parent : list ascii;
  IsFolder : bool;
  Data : list ascii
}.

(** The requests the clients send. *)
Inductive Call :=
| NewService                                        (* Drive: build the service *)
| FilesList (name parent : list ascii) (foldersOnly : bool)  (* Drive: Files.List().Q(..) *)
| FilesCreateFolder (name parent : list ascii)      (* Drive: Files.Create(folder) *)
| FilesCreate (name parent data : list ascii)       (* Drive: Files.Create(file).Media *)
| FilesUpdate (id name parent data : list ascii)    (* Drive: Files.Update(id, file).Media *)
| UserInfo                                          (* pCloud: /userinfo *)
| ListFolder (folderid : list ascii)                (* pCloud: /listfolder *)
| CreateFolderReq (name folderid : list ascii)      (* pCloud: /createfolder *)
| UploadFileReq (folderid name data : list ascii).  (* pCloud: /uploadfile *)

(** The calls that change the store. *)
Definition mutating (c : Call) : bool :=
  match c with
  | FilesCreateFolder _ _ | FilesCreate _ _ _ | FilesUpdate _ _ _ _
  | CreateFolderReq _ _ | UploadFileReq _ _ _ => true
  | NewService | FilesList _ _ _ | UserInfo | ListFolder _ => false
  end.

(** The calls that transfer the bytes of a file. *)
Definition isUpload (c : Call) : bool :=
  match c with
  | FilesCreate _ _ _ | FilesUpdate _ _ _ _ | UploadFileReq _ _ _ => true
  | _ => false
  end.

(** A log line: the format string of the source and its arguments. *)
Inductive LogLine :=
| Line (format : string) (sargs : list (list ascii)) (iargs : list Z).

(** The world a pass runs in: the store, every request made so far with
    its outcome, the outcomes of the requests to come ([Some k] makes the
    next request fail with [k]; when the list is used up requests
    succeed), and the log. *)
Record World := {
  objects : list Object;
  nextID : nat;
  calls : list (Call * option ErrKind);
  faults : list (option ErrKind);
  logs : list LogLine;
  verboseMode : bool
}.

Definition setObjects (w : World) (os : list Object) (n : nat) : World :=
  {| objects := os; nextID := n; calls := calls w; faults := faults w;
     logs := logs w; verboseMode := verboseMode w |}.

(** One request: it is recorded, and the next outcome decides it. *)
Definition request (c : Call) : M World unit :=
  fun w =>
    let outcome := match faults w with o :: _ => o | [] => None end in
    let w' := {| objects := objects w; nextID := nextID w;
                 calls := calls w ++ [(c, outcome)];
                 faults := tl (faults w);
                 logs := logs w; verboseMode := verboseMode w |} in
    match outcome with
    | Some k => (Fail (RemoteError k), w')
    | None => (Ok tt, w')
    end.

(** [log.Printf] and [utils.LogInfo] *)
Definition logPrintf (format : string) (sargs : list (list ascii)) (iargs : list Z)
  : M World unit :=
  modify (fun w =>
    {| objects := objects w; nextID := nextID w; calls := calls w;
       faults := faults w; logs := logs w ++ [Line format sargs iargs];
       verboseMode := verboseMode w |}).

(** [utils.LogVerbose]: only shown in verbose mode. *)
Definition LogVerbose (format : string) (sargs : list (list ascii)) (iargs : list Z)
  : M World unit :=
  fun w => if verboseMode w then logPrintf format sargs iargs w else (Ok tt, w).

(** [strconv.FormatInt(n, 10)] for the identifiers the store hands out. *)
Definition FormatInt (n : nat) : list ascii :=
  str (DecimalString.NilZero.string_of_uint (Nat.to_uint n)).

(** The first object of a folder that has the name (and is a folder, when
    only folders are asked for); the empty string when there is none. *)
Definition lookupID (name parent : list ascii) (foldersOnly : bool) (w : World)
  : list ascii :=
  match List.find (fun o => bool_decide (ObjName o = name)
                            && bool_decide (Parent o = parent)
                            && (negb foldersOnly || IsFolder o)) (objects w) with
  | Some o => ID o
  | None => []
  end.

(** The store adds an object under a fresh identifier and returns it. *)
Definition addObject (name parent : list ascii) (isFolder : bool) (data : list ascii)
  : M World (list ascii) :=
  fun w =>
    let id := FormatInt (nextID w) in
    (Ok id,
     setObjects w
       (objects w ++ [{| ID := id; ObjName := name; Parent := parent;
                         IsFolder := isFolder; Data := data |}])
       (S (nextID w))).

(** The store replaces the bytes of the object [id]. *)
Definition setData (id name data : list ascii) : M World unit :=
  modify (fun w =>
    setObjects w
      (map (fun o => if bool_decide (ID o = id)
                     then {| ID := id; ObjName := name; Parent := Parent o;
                             IsFolder := IsFolder o; Data := data |}
                     else o) (objects w))
      (nextID w)).

End Remote.

(** The ignore list both clients pass to [utils.ShouldIgnore]. *)
Definition builtinIgnore : list (list ascii) :=
  [str ".git/"; str ".DS_Store"; str "Thumbs.db"].

(* ===================================================================== *)
(** ** Package gdrive: the Google Drive client *)
(* ===================================================================== *)

Module Gdrive.
Import GoStrings Filepath Os Remote Config.

Record Client := {
  config : GoogleDriveConfig.t
}.

(** [NewClient(ctx, cfg)]: the credentials are read and the service is
    built; one request that changes nothing. *)
Definition NewClient (cfg : GoogleDriveConfig.t) : M World Client :=
  exec wrap "unable to create Drive service" (request NewService);
  ret {| config := cfg |}.

(** [parentID := c.config.FolderID; if parentID == "" { parentID = "root" }] *)
Definition rootID (c : Client) : list ascii :=
  if bool_decide (GoogleDriveConfig.FolderID (config c) = []) then str "root"
  else GoogleDriveConfig.FolderID (config c).

(** [Client.findFolder(ctx, name, parentID)] *)
Definition findFolder (name parentID : list ascii) : M World (list ascii) :=
  exec request (FilesList name parentID true);
  gets (lookupID name parentID true).

(** [Client.findFile(ctx, name, parentID)] *)
Definition findFile (name parentID : list ascii) : M World (list ascii) :=
  exec request (FilesList name parentID false);
  gets (lookupID name parentID false).

(** The loop of [createFolder] over the parts of the path. *)
Fixpoint createFolderParts (parts : list (list ascii)) (parentID : list ascii)
  : M World unit :=
  match parts with
  | [] => ret tt
  | part :: rest =>
      if bool_decide (part = []) then createFolderParts rest parentID
      else
        do folderID <- wrap "failed to check for existing folder"
                            (findFolder part parentID);
        if negb (bool_decide (folderID = [])) then createFolderParts rest folderID
        else
          do created <- wrap "failed to create folder"
                             (exec request (FilesCreateFolder part parentID);
                              addObject part parentID true []);
          exec logPrintf "Created folder: %s" [part] [];
          createFolderParts rest created
  end.

(** [Client.createFolder(ctx, folderPath)] *)
Definition createFolder (c : Client) (folderPath : list ascii) : M World unit :=
  createFolderParts (Split folderPath slash) (rootID c).

(** The loop of [getFolderID] over the parts of the path. *)
Fixpoint getFolderIDParts (parts : list (list ascii)) (parentID : list ascii)
  : M World (list ascii) :=
  match parts with
  | [] => ret parentID
  | part :: rest =>
      if bool_decide (part = []) then getFolderIDParts rest parentID
      else
        do folderID <- findFolder part parentID;
        if bool_decide (folderID = []) then fail (ErrorNew "folder not found")
        else getFolderIDParts rest folderID
  end.

(** [Client.getFolderID(ctx, folderPath)] *)
Definition getFolderID (c : Client) (folderPath : list ascii) : M World (list ascii) :=
  let basePath := GoogleDriveConfig.DestinationPath (config c) in
  let folderPath :=
    if negb (bool_decide (basePath = [])) then Join2 basePath folderPath
    else folderPath in
  getFolderIDParts (Split (Trim folderPath slash) slash) (rootID c).

Section Pass.
(** The local tree at [sourcePath]. *)
Variable tree : Node.
Variable sourcePath : list ascii.

(** [Client.uploadFile(ctx, localPath, remotePath)] *)
Definition uploadFile (c : Client) (localPath remotePath : list ascii)
  : M World unit :=
  match readFile sourcePath tree localPath with
  | Fail e => fail (Errorf "failed to open file" e)
  | Ok data =>
      (* If file is in a subdirectory, ensure the folder structure exists *)
      let dir := Dir remotePath in
      do parentID <-
        (if negb (bool_decide (dir = dot)) then
           exec wrap "failed to create parent folders" (createFolder c dir);
           wrap "failed to get parent folder ID" (getFolderID c dir)
         else ret (rootID c));
      (* Check if file already exists *)
      let fileName := Base remotePath in
      do existingFileID <- wrap "failed to check for existing file"
                                (findFile fileName parentID);
      if negb (bool_decide (existingFileID = [])) then
        (* Update existing file *)
        exec wrap "failed to update file"
             (exec request (FilesUpdate existingFileID fileName parentID data);
              setData existingFileID fileName data);
        logPrintf "Updated file: %s" [remotePath] []
      else
        (* Create new file *)
        exec wrap "failed to upload file"
             (exec request (FilesCreate fileName parentID data);
              do _ <- addObject fileName parentID false data; ret tt);
        logPrintf "Uploaded file: %s (%d bytes)" [remotePath]
                  [Z.of_nat (length data)]
  end.

(** The function [Sync] hands to [filepath.Walk]. *)
Definition syncFn (c : Client)
    (path : list ascii) (info : option Os.FileInfo) (err : option error)
  : M World unit :=
  match err, info with
  | Some e, _ => fail (Errorf "error accessing path" e)
  | None, None => fail (ErrorNew "nil FileInfo")
  | None, Some info =>
      match Rel sourcePath path with
      | None => fail (ErrorNew "failed to get relative path")
      | Some relPath =>
          (* Skip root directory *)
          if bool_decide (relPath = dot) then ret tt
          (* Check if path should be ignored *)
          else if Utils.ShouldIgnore relPath builtinIgnore then
            (if IsDir info then fail SkipDir else ret tt)
          else if IsDir info then createFolder c relPath
          else uploadFile c path relPath
      end
  end.

(** [Client.Sync(ctx, sourcePath)] *)
Definition Sync (c : Client) : M World unit :=
  exec logPrintf "Starting Google Drive sync from: %s" [sourcePath] [];
  Walk (syncFn c) sourcePath tree.

(** The function [DryRun] hands to [filepath.Walk]. *)
Definition dryRunFn (c : Client)
    (path : list ascii) (info : option Os.FileInfo) (err : option error)
  : M World unit :=
  match err, info with
  | Some e, _ => fail (Errorf "error accessing path" e)
  | None, None => fail (ErrorNew "nil FileInfo")
  | None, Some info =>
      match Rel sourcePath path with
      | None => fail (ErrorNew "failed to get relative path")
      | Some relPath =>
          if bool_decide (relPath = dot) then ret tt
          else if Utils.ShouldIgnore relPath builtinIgnore then
            (if IsDir info then fail SkipDir else ret tt)
          else if IsDir info then
            logPrintf "[DRY RUN] Would create folder: %s" [relPath] []
          else
            logPrintf "[DRY RUN] Would upload file: %s (%d bytes)" [relPath]
                      [Size info]
      end
  end.

(** [Client.DryRun(ctx, sourcePath)] *)
Definition DryRun (c : Client) : M World unit :=
  exec logPrintf "DRY RUN: Google Drive sync from: %s" [sourcePath] [];
  Walk (dryRunFn c) sourcePath tree.
End Pass.

End Gdrive.

(* ===================================================================== *)
(** ** Package pcloud: the pCloud client *)
(* ===================================================================== *)

Module Pcloud.
Import GoStrings Filepath Os Remote Config.

Record Client := {
  config : PCloudConfig.t;
  authToken : list ascii
}.

(** The [result] field of a pCloud answer that refuses a request. *)
Definition resultCode (k : ErrKind) : Z :=
  match k with
  | AuthFailure => 2000
  | QuotaExceeded => 2008
  | Permanent => 2001
  | Transient => 5000
  end.

(** [Client.makeRequest] (or [httpClient.Do]) and the decoding of the
    answer: a transient failure is an error of the HTTP request itself;
    any other refusal is an answer whose [result] is not 0. *)
Definition apiRequest (c : Call) : M World Z :=
  fun w =>
    match request c w with
    | (Ok _, w') => (Ok 0, w')
    | (Fail (RemoteError Transient), w') => (Fail (RemoteError Transient), w')
    | (Fail (RemoteError k), w') => (Ok (resultCode k), w')
    | (Fail e, w') => (Fail e, w')
    end.

(** [Client.authenticate()] *)
Definition authenticate (c : Client) : M World Client :=
  do result <- wrap "authentication request failed" (apiRequest UserInfo);
  if negb (result =? 0) then fail (ErrorNew "authentication failed")
  else
    exec LogVerbose "Successfully authenticated with pCloud (%s)"
                    [PCloudConfig.Username (config c)] [];
    ret {| config := config c; authToken := str "authenticated" |}.

(** [NewClient(cfg)] *)
Definition NewClient (cfg : PCloudConfig.t) : M World Client :=
  wrap "authentication failed" (authenticate {| config := cfg; authToken := [] |}).

(** [parentFolderID := c.config.FolderID; if parentFolderID == "" { .. = "0" }] *)
Definition rootID (c : Client) : list ascii :=
  if bool_decide (PCloudConfig.FolderID (config c) = []) then str "0"
  else PCloudConfig.FolderID (config c).

(** [Client.findFolder(ctx, name, parentFolderID)] *)
Definition findFolder (name parentFolderID : list ascii) : M World (list ascii) :=
  do resultCode <- wrap "failed to list folder" (apiRequest (ListFolder parentFolderID));
  if negb (resultCode =? 0) then fail (ErrorNew "folder list failed")
  else gets (lookupID name parentFolderID true).

(** The loop of [createFolder] over the parts of the path. *)
Fixpoint createFolderParts (parts : list (list ascii)) (parentFolderID : list ascii)
  : M World unit :=
  match parts with
  | [] => ret tt
  | part :: rest =>
      if bool_decide (part = []) then createFolderParts rest parentFolderID
      else
        do folderID <- wrap "failed to check for existing folder"
                            (findFolder part parentFolderID);
        if negb (bool_decide (folderID = [])) then createFolderParts rest folderID
        else
          do result <- wrap "failed to create folder request"
                            (apiRequest (CreateFolderReq part parentFolderID));
          if negb (result =? 0) then fail (ErrorNew "failed to create folder")
          else
            do created <- addObject part parentFolderID true [];
            exec LogVerbose "Created folder: %s" [part] [];
            createFolderParts rest created
  end.

(** [Client.createFolder(ctx, folderPath)] *)
Definition createFolder (c : Client) (folderPath : list ascii) : M World unit :=
  createFolderParts (Split folderPath slash) (rootID c).

(** The loop of [getFolderIDDirect] over the parts of the path. *)
Fixpoint getFolderIDParts (parts : list (list ascii)) (parentFolderID : list ascii)
  : M World (list ascii) :=
  match parts with
  | [] => ret parentFolderID
  | part :: rest =>
      if bool_decide (part = []) then getFolderIDParts rest parentFolderID
      else
        do folderID <- findFolder part parentFolderID;
        if bool_decide (folderID = []) then fail (ErrorNew "folder not found")
        else getFolderIDParts rest folderID
  end.

(** [Client.getFolderIDDirect(ctx, folderPath)] *)
Definition getFolderIDDirect (c : Client) (folderPath : list ascii)
  : M World (list ascii) :=
  getFolderIDParts (Split (Trim folderPath slash) slash) (rootID c).

(** The store keeps one file per name in a folder: an upload replaces the
    bytes of the file of that name, or adds the file. *)
Definition storeUpload (folderid name data : list ascii) : M World unit :=
  do existing <- gets (lookupID name folderid false);
  if negb (bool_decide (existing = [])) then setData existing name data
  else do _ <- addObject name folderid false data; ret tt.

Section Pass.
Variable tree : Node.
Variable sourcePath : list ascii.

(** [Client.uploadFile(ctx, localPath, remotePath)] *)
Definition uploadFile (c : Client) (localPath remotePath : list ascii)
  : M World unit :=
  match readFile sourcePath tree localPath with
  | Fail e => fail (Errorf "failed to open file" e)
  | Ok data =>
      (* Determine parent folder using destination path *)
      let destinationPath := PCloudConfig.DestinationPath (config c) in
      let targetPath :=
        if negb (bool_decide (destinationPath = [])) then
          let dir := Dir remotePath in
          if bool_decide (dir = dot) then destinationPath
          else Join2 destinationPath dir
        else Dir remotePath in
      (* Create the target directory structure *)
      exec wrap "failed to create target folders" (createFolder c targetPath);
      (* Get the folder ID for the target path *)
      do parentFolderID <- wrap "failed to get target folder ID"
                                (getFolderIDDirect c targetPath);
      (* Upload the file *)
      let fileName := Base remotePath in
      do result <- wrap "upload request failed"
                        (apiRequest (UploadFileReq parentFolderID fileName data));
      if negb (result =? 0) then fail (ErrorNew "upload failed")
      else
        exec storeUpload parentFolderID fileName data;
        logPrintf "✓ %s (%d bytes)" [remotePath] [Z.of_nat (length data)]
  end.

(** The function [Sync] hands to [filepath.Walk]. *)
Definition syncFn (c : Client)
    (path : list ascii) (info : option Os.FileInfo) (err : option error)
  : M World unit :=
  match err, info with
  | Some e, _ => fail (Errorf "error accessing path" e)
  | None, None => fail (ErrorNew "nil FileInfo")
  | None, Some info =>
      match Rel sourcePath path with
      | None => fail (ErrorNew "failed to get relative path")
      | Some relPath =>
          if bool_decide (relPath = dot) then ret tt
          else if Utils.ShouldIgnore relPath builtinIgnore then
            (if IsDir info then fail SkipDir else ret tt)
          else if IsDir info then createFolder c relPath
          else uploadFile c path relPath
      end
  end.

(** [Client.Sync(ctx, sourcePath)] *)
Definition Sync (c : Client) : M World unit :=
  exec LogVerbose "Starting pCloud sync from: %s" [sourcePath] [];
  Walk (syncFn c) sourcePath tree.

(** The function [DryRun] hands to [filepath.Walk]. *)
Definition dryRunFn (c : Client)
    (path : list ascii) (info : option Os.FileInfo) (err : option error)
  : M World unit :=
  match err, info with
  | Some e, _ => fail (Errorf "error accessing path" e)
  | None, None => fail (ErrorNew "nil FileInfo")
  | None, Some info =>
      match Rel sourcePath path with
      | None => fail (ErrorNew "failed to get relative path")
      | Some relPath =>
          if bool_decide (relPath = dot) then ret tt
          else if Utils.ShouldIgnore relPath builtinIgnore then
            (if IsDir info then fail SkipDir else ret tt)
          else if IsDir info then
            logPrintf "→ %s/ (folder)" [relPath] []
          else
            logPrintf "→ %s (%d bytes)" [relPath] [Size info]
      end
  end.

(** [Client.DryRun(ctx, sourcePath)] *)
Definition DryRun (c : Client) : M World unit :=
  exec LogVerbose "DRY RUN: pCloud sync from: %s" [sourcePath] [];
  Walk (dryRunFn c) sourcePath tree.
End Pass.

End Pcloud.

(* ===================================================================== *)
(** ** Package sync: [internal/sync/manager.go] *)
(* ===================================================================== *)

Module Manager.
Import Os Remote Config.

(** [Manager]: the configuration and the clients made so far. *)
Record Manager := {
  config : Config;
  gdriveClient : option Gdrive.Client;
  pcloudClient : option Pcloud.Client
}.

(** [NewManager(cfg)] *)
Definition NewManager (cfg : Config) : Manager :=
  {| config := cfg; gdriveClient := None; pcloudClient := None |}.

(** The state of a pass through the manager. *)
Record State := {
  manager : Manager;
  world : World
}.

Definition liftW {A} (m : M World A) : M State A :=
  fun st =>
    match m (world st) with
    | (r, w) => (r, {| manager := manager st; world := w |})
    end.

Section Pass.
Variable tree : Node.

(** [Manager.SyncToGoogleDrive(ctx, sourcePath, dryRun)] *)
Definition SyncToGoogleDrive (sourcePath : list ascii) (dryRun : bool)
  : M State unit :=
  do client <-
    (fun st =>
       match gdriveClient (manager st) with
       | Some client => (Ok client, st)
       | None =>
           match wrap "failed to create Google Drive client"
                      (Gdrive.NewClient (GoogleDrive (config (manager st))))
                      (world st) with
           | (Ok client, w) =>
               (Ok client,
                {| manager := {| config := config (manager st);
                                 gdriveClient := Some client;
                                 pcloudClient := pcloudClient (manager st) |};
                   world := w |})
           | (Fail e, w) => (Fail e, {| manager := manager st; world := w |})
           end
       end);
  if dryRun then liftW (Gdrive.DryRun tree sourcePath client)
  else liftW (Gdrive.Sync tree sourcePath client).

(** [Manager.SyncToPCloud(ctx, sourcePath, dryRun)] *)
Definition SyncToPCloud (sourcePath : list ascii) (dryRun : bool)
  : M State unit :=
  do client <-
    (fun st =>
       match pcloudClient (manager st) with
       | Some client => (Ok client, st)
       | None =>
           match wrap "failed to create pCloud client"
                      (Pcloud.NewClient (PCloud (config (manager st))))
                      (world st) with
           | (Ok client, w) =>
               (Ok client,
                {| manager := {| config := config (manager st);
                                 gdriveClient := gdriveClient (manager st);
                                 pcloudClient := Some client |};
                   world := w |})
           | (Fail e, w) => (Fail e, {| manager := manager st; world := w |})
           end
       end);
  if dryRun then liftW (Pcloud.DryRun tree sourcePath client)
  else liftW (Pcloud.Sync tree sourcePath client).
End Pass.

End Manager.

(* ===================================================================== *)
(** ** Package watcher: the debounce filter of [FileWatcher] *)
(* ===================================================================== *)

Module Watcher.

(** [Operation] *)
Inductive Operation := Create | Write | Remove | Rename | Chmod.

(** [FileEvent]; times are nanoseconds. *)
Record FileEvent := {
  Name : list ascii;
  Op : Operation;
  Time : Z
}.

(** [make(chan FileEvent, 100)] *)
Definition eventsCap : nat := 100.

(** [2 * time.Second] *)
Definition defaultDebounce : Z := 2 * 1000000000.

(** The fields of [FileWatcher] that [sendEvent] reads and writes: the
    events waiting in the channel (oldest first), the debounce map, the
    debounce window, and the warnings logged. *)
Record FileWatcher := {
  events : list FileEvent;
  debounceMap : gmap (list ascii) Z;
  debounce : Z;
  warnings : list (list ascii)
}.

(** [NewFileWatcher(cfg)] *)
Definition NewFileWatcher : FileWatcher :=
  {| events := []; debounceMap := ∅; debounce := defaultDebounce; warnings := [] |}.

(** The test of [sendEvent] when the clock reads [now]: an event for the
    same name was let through less than [debounce] ago
    ([time.Since(lastTime) < fw.debounce]). *)
Definition debounced (now : Z) (event : FileEvent) (fw : FileWatcher) : bool :=
  match debounceMap fw !! Name event with
  | Some lastTime => now - lastTime <? debounce fw
  | None => false
  end.

(** [FileWatcher.sendEvent(event)], called when the clock reads [now]. *)
Definition sendEvent (now : Z) (event : FileEvent) (fw : FileWatcher) : FileWatcher :=
  if debounced now event fw then fw (* Skip this event due to debouncing *)
  else
    let debounceMap' := <[Name event := Time event]> (debounceMap fw) in
    if (length (events fw) <? eventsCap)%nat then
      {| events := events fw ++ [event]; debounceMap := debounceMap';
         debounce := debounce fw; warnings := warnings fw |}
    else
      (* Channel is full, drop the event *)
      {| events := events fw; debounceMap := debounceMap';
         debounce := debounce fw; warnings := warnings fw ++ [Name event] |}.

(** The consumer takes the oldest event from the channel. *)
Definition receive (fw : FileWatcher) : option (FileEvent * FileWatcher) :=
  match events fw with
  | [] => None
  | e :: rest =>
      Some (e, {| events := rest; debounceMap := debounceMap fw;
                  debounce := debounce fw; warnings := warnings fw |})
  end.

End Watcher.

(* ===================================================================== *)
(** ** Package daemon: the two loops that start passes *)
(* ===================================================================== *)

Module Daemon.

(** Where [Daemon.Start] is. *)
Inductive MainPC :=
| MStart            (* before "Perform initial sync" *)
| MInitialSync      (* inside the initial [performSync] *)
| MSelect           (* blocked in the [select] of the loop *)
| MScheduledSync    (* inside the [performSync] of [case <-ticker.C] *)
| MReturned.        (* [Start] has returned *)

(** Where the goroutine [Daemon.runFileWatcher] is. *)
Inductive WatcherPC :=
| WNone             (* [d.watcher == nil]: the goroutine is never started *)
| WAddPath          (* before [d.watcher.AddPath] *)
| WSelect           (* blocked in its [select] *)
| WSleep            (* in [time.Sleep(1 * time.Second)] after an event *)
| WSync             (* inside its [performSync] *)
| WReturned.        (* the goroutine has returned *)

(** [running] counts the calls of [performSync] that have started and not
    yet returned; [tick] is the one slot of [ticker.C]; [pending] counts
    the events waiting in the watcher's channel. *)
Record State := {
  main : MainPC;
  watch : WatcherPC;
  running : nat;
  tick : bool;
  pending : nat;
  cancelled : bool
}.








Section PerformSync.
Variable tree : Os.Node.


End PerformSync.

End Daemon.

(* ===================================================================== *)
(** ** Package config: [Load] and [Validate] *)
(* ===================================================================== *)

Module ConfigFile.
Import Config.

(** [DefaultConfig()] *)
Definition DefaultConfig : Config :=
  {| GoogleDrive :=
       {| GoogleDriveConfig.CredentialsPath := str "credentials.json";
          GoogleDriveConfig.TokenPath := str "token.json";
          GoogleDriveConfig.FolderID := [];
          GoogleDriveConfig.DestinationPath := [] |};
     PCloud :=
       {| PCloudConfig.Username := []; PCloudConfig.Password := [];
          PCloudConfig.APIHost := []; PCloudConfig.FolderID := [];
          PCloudConfig.DestinationPath := [] |};
     General :=
       {| GeneralConfig.SourcePath := [];
          GeneralConfig.MaxConcurrency := 5;
          GeneralConfig.RetryAttempts := 3;
          GeneralConfig.ChunkSizeBytes := 8 * 1024 * 1024;
          GeneralConfig.IgnorePatterns :=
            [str ".git/"; str ".DS_Store"; str "Thumbs.db"; str "*.tmp"; str "*.temp"];
          GeneralConfig.IncludePatterns := [] |};
     Optional := None |}.

(** [os.Getenv]: the empty string for a variable that is not set. *)
Definition Env : Type := list ascii -> list ascii.

(** [if v := os.Getenv(name); v != "" { field = v }] *)
Definition override (getenv : Env) (name : string) (field : list ascii) : list ascii :=
  if negb (bool_decide (getenv (str name) = [])) then getenv (str name) else field.

(** [Config.applyEnvOverrides()] *)
Definition applyEnvOverrides (getenv : Env) (c : Config) : Config :=
  {| GoogleDrive :=
       {| GoogleDriveConfig.CredentialsPath :=
            override getenv "GOOGLE_CREDENTIALS_PATH"
                     (GoogleDriveConfig.CredentialsPath (GoogleDrive c));
          GoogleDriveConfig.TokenPath :=
            override getenv "GOOGLE_TOKEN_PATH"
                     (GoogleDriveConfig.TokenPath (GoogleDrive c));
          GoogleDriveConfig.FolderID := GoogleDriveConfig.FolderID (GoogleDrive c);
          GoogleDriveConfig.DestinationPath :=
            GoogleDriveConfig.DestinationPath (GoogleDrive c) |};
     PCloud :=
       {| PCloudConfig.Username :=
            override getenv "PCLOUD_USERNAME" (PCloudConfig.Username (PCloud c));
          PCloudConfig.Password :=
            override getenv "PCLOUD_PASSWORD" (PCloudConfig.Password (PCloud c));
          PCloudConfig.APIHost := PCloudConfig.APIHost (PCloud c);
          PCloudConfig.FolderID := PCloudConfig.FolderID (PCloud c);
          PCloudConfig.DestinationPath := PCloudConfig.DestinationPath (PCloud c) |};
     General := General c;
     Optional := Optional c |}.

(** What [Load] finds at the path: no file, with the outcome of saving
    the default configuration there; a file that cannot be read; a file
    that [json.Unmarshal] refuses; or the value [json.Unmarshal] fills. *)
Inductive File :=
| Missing (saved : option error)
| Unreadable (e : error)
| Unparsable (e : error)
| Parsed (cfg : Config).

(** The defaults [Load] applies for missing values. *)
Definition applyDefaults (cfg : Config) : Config :=
  let defaultCfg := DefaultConfig in
  let general := General cfg in
  {| GoogleDrive := GoogleDrive cfg;
     PCloud := PCloud cfg;
     General :=
       {| GeneralConfig.SourcePath := GeneralConfig.SourcePath general;
          GeneralConfig.MaxConcurrency :=
            if GeneralConfig.MaxConcurrency general =? 0
            then GeneralConfig.MaxConcurrency (General defaultCfg)
            else GeneralConfig.MaxConcurrency general;
          GeneralConfig.RetryAttempts :=
            if GeneralConfig.RetryAttempts general =? 0
            then GeneralConfig.RetryAttempts (General defaultCfg)
            else GeneralConfig.RetryAttempts general;
          GeneralConfig.ChunkSizeBytes :=
            if GeneralConfig.ChunkSizeBytes general =? 0
            then GeneralConfig.ChunkSizeBytes (General defaultCfg)
            else GeneralConfig.ChunkSizeBytes general;
          GeneralConfig.IgnorePatterns := GeneralConfig.IgnorePatterns general;
          GeneralConfig.IncludePatterns := GeneralConfig.IncludePatterns general |};
     Optional := Optional cfg |}.

(** [Load(path)] *)
Definition Load (file : File) (getenv : Env) : Res Config :=
  match file with
  | Missing (Some e) => Fail (Errorf "failed to create default config" e)
  | Missing None => Ok DefaultConfig
  | Unreadable e => Fail (Errorf "failed to read config file" e)
  | Unparsable e => Fail (Errorf "failed to parse config file" e)
  | Parsed cfg => Ok (applyEnvOverrides getenv (applyDefaults cfg))
  end.

(** [Config.Validate()] *)
Definition Validate (c : Config) : Res unit :=
  if GeneralConfig.MaxConcurrency (General c) <=? 0 then
    Fail (ErrorNew "max_concurrency must be greater than 0")
  else if GeneralConfig.RetryAttempts (General c) <? 0 then
    Fail (ErrorNew "retry_attempts must be non-negative")
  else if GeneralConfig.ChunkSizeBytes (General c) <=? 0 then
    Fail (ErrorNew "chunk_size_bytes must be greater than 0")
  else Ok tt.

End ConfigFile.

(* ===================================================================== *)
(** ** Package watcher: polling a watched path *)
(* ===================================================================== *)

Module Poll.
Import GoStrings Filepath Os.

(** The map [fileStates] of [watchPath]. *)
Definition FileStates : Type := gmap (list ascii) FileInfo.

(** The fields of [FileWatcher] that a poll writes: those of [sendEvent],
    and the errors sent on the channel [errors]. *)
Record Poller := {
  watcher : Watcher.FileWatcher;
  errors : list error
}.

Section Poll.
(** [fw.config.General.IgnorePatterns] *)
Variable ignorePatterns : list (list ascii).
(** The two readings of the clock for the event of a path: [time.Now()]
    when the event is made, and when [sendEvent] tests it. *)
Variable clock : list ascii -> Z * Z.

(** [relPath, _ := filepath.Rel(basePath, filePath)]: the empty string
    when [Rel] fails. *)
Definition relPathOf (basePath filePath : list ascii) : list ascii :=
  match Rel basePath filePath with
  | Some relPath => relPath
  | None => []
  end.

(** The function [watchPath] and [checkForChanges] hand to
    [filepath.Walk]. *)
Definition recordFn (basePath : list ascii)
    (filePath : list ascii) (info : option FileInfo) (err : option error)
  : M FileStates unit :=
  match err, info with
  | Some _, _ => ret tt (* Skip files we can't access *)
  | None, None => fail (ErrorNew "nil FileInfo")
  | None, Some info =>
      (* Skip ignored files *)
      if Utils.ShouldIgnore (relPathOf basePath filePath) ignorePatterns then
        (if IsDir info then fail SkipDir else ret tt)
      else modify (fun states => <[filePath := info]> states)
  end.

(** The scan of the tree at [basePath] into an empty map. *)
Definition scan (tree : Node) (basePath : list ascii) : Res unit * FileStates :=
  Walk (recordFn basePath) basePath tree ∅.

(** [fw.sendEvent(FileEvent{Name: filePath, Op: op, Time: time.Now()})] *)
Definition send (filePath : list ascii) (op : Watcher.Operation)
    (fw : Watcher.FileWatcher) : Watcher.FileWatcher :=
  Watcher.sendEvent (snd (clock filePath))
    {| Watcher.Name := filePath; Watcher.Op := op;
       Watcher.Time := fst (clock filePath) |} fw.

(** One round of the loop over [currentStates]: new or modified files. *)
Definition checkCurrent (fileStates currentStates : FileStates)
    (fw : Watcher.FileWatcher) (filePath : list ascii) : Watcher.FileWatcher :=
  match currentStates !! filePath with
  | None => fw
  | Some currentInfo =>
      match fileStates !! filePath with
      | Some previousInfo =>
          (* File existed before, check if modified *)
          if negb (ModTime currentInfo =? ModTime previousInfo)
             || negb (Size currentInfo =? Size previousInfo)
          then send filePath Watcher.Write fw
          else fw
      | None => send filePath Watcher.Create fw (* New file *)
      end
  end.

(** One round of the loop over [fileStates]: deleted files. *)
Definition checkPrevious (fileStates currentStates : FileStates)
    (fw : Watcher.FileWatcher) (filePath : list ascii) : Watcher.FileWatcher :=
  match fileStates !! filePath with
  | None => fw
  | Some _ =>
      match currentStates !! filePath with
      | None => send filePath Watcher.Remove fw
      | Some _ => fw
      end
  end.

(** The last two loops: every entry of [currentStates] is written to
    [fileStates], then the paths that are not in [currentStates] are
    deleted from it. *)
Definition updateStates (fileStates currentStates : FileStates) : FileStates :=
  filter (fun kv => is_Some (currentStates !! kv.1)) (currentStates ∪ fileStates).

(** [FileWatcher.checkForChanges(basePath, fileStates)] on the tree at
    [basePath].  The order in which a [range] loop visits the keys of a
    map is not specified: [order1] is the order of the loop over
    [currentStates], [order2] the order of the loop over [fileStates].
    The result is the map [fileStates] after the call. *)
Definition checkForChanges (tree : Node) (basePath : list ascii)
    (order1 order2 : list (list ascii)) (fileStates : FileStates) (p : Poller)
  : FileStates * Poller :=
  match scan tree basePath with
  | (Fail e, _) =>
      (fileStates,
       {| watcher := watcher p; errors := errors p ++ [Errorf "scan failed" e] |})
  | (Ok _, currentStates) =>
      let fw1 := fold_left (checkCurrent fileStates currentStates) order1 (watcher p) in
      let fw2 := fold_left (checkPrevious fileStates currentStates) order2 fw1 in
      (updateStates fileStates currentStates,
       {| watcher := fw2; errors := errors p |})
  end.
End Poll.

End Poll.

(* ===================================================================== *)
(** * The vocabulary of the properties, and example values *)
(* ===================================================================== *)

Import GoStrings Filepath Os Remote.

(** The store, the requests made and the outcomes to come are the same in
    both worlds: nothing was asked of the remote store in between. *)
Definition sameRemote (w w' : World) : Prop :=
  objects w' = objects w /\ nextID w' = nextID w /\
  calls w' = calls w /\ faults w' = faults w.

(** Between the two worlds only log lines were written. *)
Definition onlyLogs (w w' : World) : Prop :=
  sameRemote w w' /\ exists lines, logs w' = logs w ++ lines.

(** The requests of a pass that change the store. *)
Definition mutatingCalls (before after : World) : list (Call * option ErrKind) :=
  List.filter (fun x => mutating (fst x)) (drop (length (calls before)) (calls after)).

Definition isOk {A} (r : Res A) : bool :=
  match r with Ok _ => true | Fail _ => false end.

(** Every request of the list succeeded. *)
Definition quiet (l : list (Call * option ErrKind)) : Prop :=
  Forall (fun x => snd x = None) l.

(** No request of the list transfers a file. *)
Definition noUploads (l : list (Call * option ErrKind)) : Prop :=
  Forall (fun x => isUpload (fst x) = false) l.

(** Only the last request of the list may have failed. *)
Definition failedLast (l : list (Call * option ErrKind)) : Prop :=
  exists pre last, l = pre ++ last /\ quiet pre /\
    (last = [] \/ exists c k, last = [(c, Some k)]).

(** [m] adds requests to the list of the world, and [T] holds of whether it
    succeeded and of the requests it added. *)
Definition traced {A} (m : M World A)
    (T : bool -> list (Call * option ErrKind) -> Prop) : Prop :=
  forall w, exists new,
    calls (snd (m w)) = calls w ++ new /\ T (isOk (fst (m w))) new.

(** [m] succeeds and makes no request. *)
Definition silent {A} (m : M World A) : Prop :=
  forall w, isOk (fst (m w)) = true /\ calls (snd (m w)) = calls w.

(** Folder bookkeeping: no transfer; all requests succeeded when the
    computation did, and otherwise only the last one may have failed. *)
Definition lookupPhase (ok : bool) (new : list (Call * option ErrKind)) : Prop :=
  noUploads new /\ (if ok then quiet new else failedLast new).

(** The payload of a transfer. *)
Definition payload (c : Call) : option (list ascii) :=
  match c with
  | FilesCreate _ _ data | FilesUpdate _ _ _ data | UploadFileReq _ _ data => Some data
  | _ => None
  end.

(** A transfer of [data]: on success the last request is the one upload, of
    [data], and every request succeeded; on failure nothing was uploaded
    before the last request, which alone may have failed. *)
Definition uploadPhase (data : list ascii) (ok : bool)
    (new : list (Call * option ErrKind)) : Prop :=
  if ok then
    exists pre u, new = pre ++ [(u, None)] /\ quiet pre /\ noUploads pre /\
                  isUpload u = true /\ payload u = Some data
  else
    exists pre last, new = pre ++ last /\ quiet pre /\ noUploads pre /\
                     (last = [] \/ exists c k, last = [(c, Some k)]).

(** What [uploadFile] asks of the store, for both outcomes of opening the
    local file. *)
Definition uploadTrace (opened : Res (list ascii)) (ok : bool)
    (new : list (Call * option ErrKind)) : Prop :=
  match opened with
  | Ok data => uploadPhase data ok new
  | Fail _ => ok = false /\ new = []
  end.

(** The upload requests among the requests. *)
Definition uploadsOf (l : list (Call * option ErrKind)) : list (Call * option ErrKind) :=
  List.filter (fun x => isUpload (fst x)) l.

Definition exampleDrive : Config.GoogleDriveConfig.t :=
  {| Config.GoogleDriveConfig.CredentialsPath := str "credentials.json";
     Config.GoogleDriveConfig.TokenPath := str "token.json";
     Config.GoogleDriveConfig.FolderID := [];
     Config.GoogleDriveConfig.DestinationPath := [] |}.

Definition examplePCloud : Config.PCloudConfig.t :=
  {| Config.PCloudConfig.Username := str "user";
     Config.PCloudConfig.Password := str "secret";
     Config.PCloudConfig.APIHost := str "https://api.pcloud.com";
     Config.PCloudConfig.FolderID := [];
     Config.PCloudConfig.DestinationPath := [] |}.

(** [DefaultConfig()] with a source path. *)
Definition exampleGeneral : Config.GeneralConfig.t :=
  {| Config.GeneralConfig.SourcePath := str "/src";
     Config.GeneralConfig.MaxConcurrency := 5;
     Config.GeneralConfig.RetryAttempts := 3;
     Config.GeneralConfig.ChunkSizeBytes := 8 * 1024 * 1024;
     Config.GeneralConfig.IgnorePatterns :=
       [str ".git/"; str ".DS_Store"; str "Thumbs.db"; str "*.tmp"; str "*.temp"];
     Config.GeneralConfig.IncludePatterns := [] |}.

Definition exampleConfig : Config.Config :=
  {| Config.GoogleDrive := exampleDrive; Config.PCloud := examplePCloud;
     Config.General := exampleGeneral; Config.Optional := None |}.

Definition gdriveClient : Gdrive.Client := {| Gdrive.config := exampleDrive |}.

Definition pcloudClient : Pcloud.Client :=
  {| Pcloud.config := examplePCloud; Pcloud.authToken := str "authenticated" |}.

(** An empty store where every request succeeds. *)
Definition emptyWorld : World :=
  {| objects := []; nextID := 1; calls := []; faults := []; logs := [];
     verboseMode := false |}.

Definition withFaults (w : World) (fs : list (option ErrKind)) : World :=
  {| objects := objects w; nextID := nextID w; calls := calls w; faults := fs;
     logs := logs w; verboseMode := verboseMode w |}.

(** A source tree with one file, and a store that already holds the same
    bytes under the same name. *)
Definition oneFileTree (modTime : Z) : Node :=
  Directory (str "src") 4096 0 true [File (str "a.txt") (str "hi") modTime true].


(** The pass over the entries of the root directory, in order, and the
    pass over one of them (the entry and all below it). *)
Definition entriesPass {St} (walkFn : list ascii -> option Os.FileInfo -> option error -> M St unit)
    (sourcePath : list ascii) (entries : list Node) : M St unit :=
  walkNames (walk walkFn) sourcePath entries.

Definition entryPass {St} (walkFn : list ascii -> option Os.FileInfo -> option error -> M St unit)
    (sourcePath : list ascii) (entry : Node) : M St unit :=
  walk walkFn (Join2 sourcePath (nodeName entry)) entry.

Definition tenFiles : Node :=
  Directory (str "src") 4096 0 true
    (map (fun n => File (str "f" ++ FormatInt n) (str "x") 0 true) (seq 0 10)).

Definition threeFiles : Node :=
  Directory (str "src") 4096 0 true
    [File (str "a") (str "1") 0 true; File (str "b") (str "2") 0 true;
     File (str "c") (str "3") 0 true].


(** The result of a pass and the world it leaves. *)
Definition outcome {A} (r : Res A * Manager.State) : Res A * World :=
  (fst r, Manager.world (snd r)).


(** An entry has a hash only if it is a file that is not empty. *)
Definition hashOnlyIfNonEmptyFile (f : Scanner.FileInfo) : Prop :=
  Scanner.MD5Hash f <> [] -> Scanner.IsDir f = false /\ 0 < Scanner.Size f.

(** The errors the function of [Scan] returns: none comes from hashing. *)
Definition scanFailure (e : error) : Prop :=
  e = SkipDir \/ (exists cause, e = Errorf "error accessing" cause) \/
  (exists msg, e = ErrorNew msg).

(** A tree with a directory, an empty file, a readable file and a file that
    cannot be opened. *)
Definition mixedTree : Node :=
  Directory (str "root") 4096 0 true
    [File (str "a.txt") (str "hi") 1 true;
     Directory (str "b") 4096 2 true
       [File (str "c.txt") (str "yo") 3 false;
        File (str "empty") [] 3 true]].

(** A stand-in for the digest (the theorem holds for any function). *)
Definition sampleDigest (data : list ascii) : list ascii := str "md5:" ++ data.

Definition modifiedAt (t : Z) : Watcher.FileEvent :=
  {| Watcher.Name := str "/src/a.txt"; Watcher.Op := Watcher.Write; Watcher.Time := t |}.




(** A byte string without a separator. *)
Definition noSlash (sg : list ascii) : Prop := Forall (fun c => c <> slash) sg.

(** A name of a clean path: not empty, not ["."] or [".."], no separator. *)
Definition isName (sg : list ascii) : Prop :=
  sg <> [] /\ sg <> dot /\ sg <> dotdot /\ noSlash sg.

(** The names of a clean relative path. *)
Definition cleanNames (segs : list (list ascii)) : Prop :=
  segs <> [] /\ Forall isName segs.

(** The path of the names, ["."] when there is none. *)
Definition pathOf (segs : list (list ascii)) : list ascii :=
  match segs with
  | [] => dot
  | _ => Join segs slash
  end.

(** No byte of the pattern is a metacharacter of [Match]. *)
Definition literal (pattern : list ascii) : Prop :=
  Forall (fun c => c <> star /\ c <> question /\ c <> lbracket /\ c <> backslash) pattern.

(** A plain pattern of package utils: no wildcard and no separator. *)
Definition plainName (pattern : list ascii) : Prop :=
  Forall (fun c => c <> star /\ c <> slash) pattern.

(** An entry of a scan that passed the filters of the scanner [s] under
    the root [rootPath]. *)
Definition passedFilters (s : Scanner.Scanner) (rootPath : list ascii)
    (f : Scanner.FileInfo) : Prop :=
  Rel rootPath (Scanner.AbsolutePath f) = Some (Scanner.Path f) /\
  Scanner.Path f <> dot /\
  Scanner.shouldIgnore s (Scanner.Path f) (Scanner.IsDir f) = false /\
  Scanner.shouldInclude s (Scanner.Path f) (Scanner.IsDir f) = true.

(** The hash of an entry is the digest of the bytes of its file. *)
Definition hashOfBytes (md5hex : list ascii -> list ascii) (tree : Node)
    (rootPath : list ascii) (f : Scanner.FileInfo) : Prop :=
  Scanner.MD5Hash f <> [] ->
  exists data, readFile rootPath tree (Scanner.AbsolutePath f) = Ok data /\
               Scanner.MD5Hash f = md5hex data.

(** Every warning of a scan is about a recorded entry without a hash. *)
Definition warningsRecorded (st : Scanner.ScanState) : Prop :=
  forall path e, In (Scanner.WarnMD5Failed path e) (Scanner.stdout st) ->
    exists f, In f (Scanner.files st) /\ Scanner.AbsolutePath f = path /\
              Scanner.MD5Hash f = [] /\ Scanner.IsDir f = false.

(** After skipping one byte or more of [name], none of them a separator,
    the rest is [lit]: what the loop of [Match] after a star looks for. *)
Fixpoint skipFinds (lit name : list ascii) : bool :=
  match name with
  | [] => false
  | c :: name' =>
      if Ascii.eqb c slash then false
      else bool_decide (name' = lit) || skipFinds lit name'
  end.



(** A [Write] event for [path] at the time [t]. *)
Definition writeAt (path : list ascii) (t : Z) : Watcher.FileEvent :=
  {| Watcher.Name := path; Watcher.Op := Watcher.Write; Watcher.Time := t |}.

(** A watcher whose channel holds [n] events for [/src/old]. *)
Definition watcherHolding (n : nat) : Watcher.FileWatcher :=
  {| Watcher.events := repeat (writeAt (str "/src/old") 0) n;
     Watcher.debounceMap := ∅;
     Watcher.debounce := Watcher.defaultDebounce;
     Watcher.warnings := [] |}.

(** Every object of the store has an identifier. *)
Definition wellFormed (w : World) : Prop :=
  Forall (fun o => ID o <> []) (objects w).

(** The world after the request [c], when no failure is to come. *)
Definition asked (c : Call) (w : World) : World :=
  {| objects := objects w; nextID := nextID w; calls := calls w ++ [(c, None)];
     faults := []; logs := logs w; verboseMode := verboseMode w |}.

(** The folder the names lead to from [parentID], each name looked up
    among the folders of the folder reached so far; [None] when a name is
    not found. *)
Fixpoint resolve (w : World) (parts : list (list ascii)) (parentID : list ascii)
  : option (list ascii) :=
  match parts with
  | [] => Some parentID
  | part :: rest =>
      if bool_decide (part = []) then resolve w rest parentID
      else
        let folderID := lookupID part parentID true w in
        if bool_decide (folderID = []) then None else resolve w rest folderID
  end.

(** Between the two worlds the store was only read: every request
    succeeded, none changed the store, and nothing was logged. *)
Definition onlyRead (w w' : World) : Prop :=
  objects w' = objects w /\ nextID w' = nextID w /\ logs w' = logs w /\
  faults w' = [] /\
  exists new, calls w' = calls w ++ new /\
              Forall (fun x => mutating (fst x) = false /\ snd x = None) new.

(** A folder of the store. *)
Definition folderObject (id name parent : list ascii) : Object :=
  {| ID := id; ObjName := name; Parent := parent; IsFolder := true; Data := [] |}.

(** A Drive client with a destination path. *)
Definition driveClientTo (dest : list ascii) : Gdrive.Client :=
  {| Gdrive.config :=
       {| Config.GoogleDriveConfig.CredentialsPath := str "credentials.json";
          Config.GoogleDriveConfig.TokenPath := str "token.json";
          Config.GoogleDriveConfig.FolderID := [];
          Config.GoogleDriveConfig.DestinationPath := dest |} |}.

(** A source tree with a file in a subdirectory. *)
Definition docsTree : Node :=
  Directory (str "src") 4096 0 true
    [Directory (str "docs") 4096 0 true [File (str "a.txt") (str "hi") 1 true]].



(** The two maps of file states have the same paths, each with the same
    modification time and size in both. *)
Definition sameStamp (x y : Os.FileInfo) : Prop :=
  Os.ModTime x = Os.ModTime y /\ Os.Size x = Os.Size y.

Definition sameStamps (a b : Poll.FileStates) : Prop :=
  forall path, option_Forall2 sameStamp (a !! path) (b !! path).

(** The path is not ignored by the patterns of the watcher. *)
Definition watched (ignorePatterns : list (list ascii)) (basePath path : list ascii)
  : Prop :=
  Utils.ShouldIgnore (Poll.relPathOf basePath path) ignorePatterns = false.

(** A clock that reads [t] throughout. *)
Definition clockAt (t : Z) : list ascii -> Z * Z := fun _ => (t, t).

(** A poller with a new watcher. *)
Definition newPoller : Poll.Poller :=
  {| Poll.watcher := Watcher.NewFileWatcher; Poll.errors := [] |}.

(** The tree [oneFileTree] with other bytes of the same length in the
    file. *)
Definition rewrittenFileTree (modTime : Z) : Node :=
  Directory (str "src") 4096 0 true [File (str "a.txt") (str "yo") modTime true].

(** The tree [tmpFileTree] with a second file, that no pattern ignores. *)
Definition tmpAndTextTree : Node :=
  Directory (str "src") 4096 0 true
    [File (str "notes.tmp") (str "draft") 0 true;
     File (str "notes.txt") (str "text") 0 true].

(** What a pass cannot change of an object: its identifier, its folder
    and its kind. *)
Definition skeleton (o : Object) : list ascii * list ascii * bool :=
  (ID o, Parent o, IsFolder o).

(** The store of [w'] holds the objects of [w], in their order, and
    possibly more after them. *)
Definition grows (w w' : World) : Prop :=
  exists new, map skeleton (objects w') = map skeleton (objects w) ++ new.

(** [m] only adds objects to the store, whatever the requests do. *)
Definition growing {A} (m : M World A) : Prop :=
  forall w, grows w (snd (m w)).

(** A store with a folder and a file. *)
Definition filledWorld : World :=
  {| objects := [folderObject (str "1") (str "old") (str "root");
                 {| ID := str "2"; ObjName := str "gone.txt"; Parent := str "1";
                    IsFolder := false; Data := str "bytes" |}];
     nextID := 3; calls := []; faults := []; logs := []; verboseMode := false |}.



(* ===================================================================== *)
(** * Properties *)
(* ===================================================================== *)

(** ** Errors *)

Lemma error_eqb_eq (a b : error) : error_eqb a b = true <-> a = b.
Proof.
  revert b. induction a as [| p | k | m | m c IH]; intros [| q | l | n | n d]; simpl;
    try (split; [discriminate | congruence]); try tauto.
  - rewrite bool_decide_eq_true. split; congruence.
  - rewrite bool_decide_eq_true. split; congruence.
  - rewrite bool_decide_eq_true. split; congruence.
  - rewrite andb_true_iff, bool_decide_eq_true, IH. split.
    + intros [-> ->]. reflexivity.
    + intros H. injection H as -> ->. split; reflexivity.
Qed.

Lemma error_eqb_SkipDir_false (e : error) : e <> SkipDir -> error_eqb e SkipDir = false.
Proof.
  intros H. destruct (error_eqb e SkipDir) eqn:E; [| reflexivity].
  apply error_eqb_eq in E. contradiction.
Qed.

(** ** Induction on file trees *)

Section NodeInduction.
Variable P : Node -> Prop.
Hypothesis HFile : forall name data modTime readable, P (File name data modTime readable).
Hypothesis HBroken : forall name, P (Broken name).
Hypothesis HDirectory : forall name size modTime listable children,
    Forall P children -> P (Directory name size modTime listable children).

Fixpoint Node_tree_ind (n : Node) : P n :=
  match n with
  | File name data modTime readable => HFile name data modTime readable
  | Broken name => HBroken name
  | Directory name size modTime listable children =>
      HDirectory name size modTime listable children
        ((fix children_ind (cs : list Node) : Forall P cs :=
            match cs with
            | [] => List.Forall_nil P
            | c :: cs' => List.Forall_cons P c cs' (Node_tree_ind c) (children_ind cs')
            end) children)
  end.
End NodeInduction.

(** ** What [filepath.Walk] preserves *)

Section WalkProperties.
Context {St : Type}.
Variable walkFn : list ascii -> option Os.FileInfo -> option error -> M St unit.

(** A relation between the state before and after that every call of the
    function establishes, and that composes, holds of the whole walk. *)
Variable R : St -> St -> Prop.
Hypothesis R_refl : forall s, R s s.
Hypothesis R_trans : forall s1 s2 s3, R s1 s2 -> R s2 s3 -> R s1 s3.
Hypothesis R_fn : forall path info err s, R s (snd (walkFn path info err s)).

Lemma walkNames_rel (walkc : list ascii -> Node -> M St unit) path cs :
  Forall (fun c => forall p s, R s (snd (walkc p c s))) cs ->
  forall s, R s (snd (walkNames walkc path cs s)).
Proof.
  induction 1 as [| c cs' Hc _ IH]; intros s; simpl.
  - apply R_refl.
  - specialize (Hc (Join2 path (nodeName c)) s).
    destruct (walkc (Join2 path (nodeName c)) c s) as [[u | e] s'] eqn:E; simpl in Hc.
    + eapply R_trans; [exact Hc | apply IH].
    + destruct c; simpl; try exact Hc;
        (destruct (error_eqb e SkipDir);
         [eapply R_trans; [exact Hc | apply IH] | exact Hc]).
Qed.

Lemma walk_rel n : forall path s, R s (snd (walk walkFn path n s)).
Proof.
  induction n as [name data modTime readable | name
                  | name size modTime listable children IH] using Node_tree_ind;
    intros path s; simpl.
  - apply R_fn.
  - apply R_fn.
  - unfold bind.
    pose proof (R_fn path
                  (Some {| Name := name; Size := size; ModTime := modTime; IsDir := true |})
                  (if listable then None else Some (OsError path)) s) as Hfn.
    destruct (walkFn path _ _ s) as [[u | e] s1]; simpl in *.
    + destruct listable.
      * eapply R_trans; [exact Hfn |]. apply walkNames_rel. exact IH.
      * exact Hfn.
    + exact Hfn.
Qed.

Lemma Walk_rel root tree s : R s (snd (Walk walkFn root tree s)).
Proof.
  unfold Walk. pose proof (walk_rel tree root s) as H.
  destruct (walk walkFn root tree s) as [[u | e] s']; simpl in *.
  - exact H.
  - destruct (error_eqb e SkipDir); exact H.
Qed.
End WalkProperties.

(** ** Dry run *)

Lemma sameRemote_refl w : sameRemote w w.
Proof. repeat split. Qed.

Lemma sameRemote_trans w1 w2 w3 : sameRemote w1 w2 -> sameRemote w2 w3 -> sameRemote w1 w3.
Proof.
  intros (A1 & A2 & A3 & A4) (B1 & B2 & B3 & B4).
  repeat split; congruence.
Qed.

Lemma onlyLogs_refl w : onlyLogs w w.
Proof. split; [apply sameRemote_refl | exists []; symmetry; apply app_nil_r]. Qed.

Lemma onlyLogs_trans w1 w2 w3 : onlyLogs w1 w2 -> onlyLogs w2 w3 -> onlyLogs w1 w3.
Proof.
  intros [A [l1 L1]] [B [l2 L2]]. split.
  - eapply sameRemote_trans; eassumption.
  - exists (l1 ++ l2). rewrite L2, L1. symmetry. apply app_assoc.
Qed.

Lemma logPrintf_onlyLogs format sargs iargs w :
  onlyLogs w (snd (logPrintf format sargs iargs w)).
Proof. split; [repeat split | eexists; reflexivity]. Qed.

Lemma LogVerbose_onlyLogs format sargs iargs w :
  onlyLogs w (snd (LogVerbose format sargs iargs w)).
Proof.
  unfold LogVerbose. destruct (verboseMode w);
    [apply logPrintf_onlyLogs | apply onlyLogs_refl].
Qed.

Lemma gdrive_dryRunFn_onlyLogs sourcePath c path info err w :
  onlyLogs w (snd (Gdrive.dryRunFn sourcePath c path info err w)).
Proof.
  unfold Gdrive.dryRunFn.
  destruct err as [e |]; [apply onlyLogs_refl |].
  destruct info as [info |]; [| apply onlyLogs_refl].
  destruct (Rel sourcePath path) as [relPath |]; [| apply onlyLogs_refl].
  destruct (bool_decide (relPath = dot)); [apply onlyLogs_refl |].
  destruct (Utils.ShouldIgnore relPath builtinIgnore).
  - destruct (IsDir info); apply onlyLogs_refl.
  - destruct (IsDir info); apply logPrintf_onlyLogs.
Qed.

Lemma pcloud_dryRunFn_onlyLogs sourcePath c path info err w :
  onlyLogs w (snd (Pcloud.dryRunFn sourcePath c path info err w)).
Proof.
  unfold Pcloud.dryRunFn.
  destruct err as [e |]; [apply onlyLogs_refl |].
  destruct info as [info |]; [| apply onlyLogs_refl].
  destruct (Rel sourcePath path) as [relPath |]; [| apply onlyLogs_refl].
  destruct (bool_decide (relPath = dot)); [apply onlyLogs_refl |].
  destruct (Utils.ShouldIgnore relPath builtinIgnore).
  - destruct (IsDir info); apply onlyLogs_refl.
  - destruct (IsDir info); apply logPrintf_onlyLogs.
Qed.

Lemma gdrive_DryRun_onlyLogs tree sourcePath c w :
  onlyLogs w (snd (Gdrive.DryRun tree sourcePath c w)).
Proof.
  unfold Gdrive.DryRun, bind.
  pose proof (logPrintf_onlyLogs "DRY RUN: Google Drive sync from: %s" [sourcePath] [] w) as H0.
  destruct (logPrintf _ _ _ w) as [[u | e] w1]; simpl in *; [| exact H0].
  eapply onlyLogs_trans; [exact H0 |].
  apply (Walk_rel (Gdrive.dryRunFn sourcePath c) onlyLogs onlyLogs_refl onlyLogs_trans
           (gdrive_dryRunFn_onlyLogs sourcePath c)).
Qed.

Lemma pcloud_DryRun_onlyLogs tree sourcePath c w :
  onlyLogs w (snd (Pcloud.DryRun tree sourcePath c w)).
Proof.
  unfold Pcloud.DryRun, bind.
  pose proof (LogVerbose_onlyLogs "DRY RUN: pCloud sync from: %s" [sourcePath] [] w) as H0.
  destruct (LogVerbose _ _ _ w) as [[u | e] w1]; simpl in *; [| exact H0].
  eapply onlyLogs_trans; [exact H0 |].
  apply (Walk_rel (Pcloud.dryRunFn sourcePath c) onlyLogs onlyLogs_refl onlyLogs_trans
           (pcloud_dryRunFn_onlyLogs sourcePath c)).
Qed.

Lemma mutatingCalls_reads w w' new :
  calls w' = calls w ++ new ->
  Forall (fun x => mutating (fst x) = false) new ->
  mutatingCalls w w' = [].
Proof.
  intros Hc Hnew. unfold mutatingCalls. rewrite Hc, drop_app_length. clear Hc.
  induction Hnew as [| x l Hx _ IH]; simpl; [reflexivity |].
  rewrite Hx. exact IH.
Qed.

(** Making a client asks one thing of the remote side, which changes
    nothing there. *)
Lemma gdrive_NewClient_reads msg cfg w :
  let r := wrap msg (Gdrive.NewClient cfg) w in
  objects (snd r) = objects w /\
  exists o, calls (snd r) = calls w ++ [(NewService, o)].
Proof.
  cbv [wrap Gdrive.NewClient bind request ret].
  destruct (faults w) as [| [k |] rest]; simpl;
    (split; [reflexivity | eexists; reflexivity]).
Qed.

Lemma pcloud_NewClient_reads msg cfg w :
  let r := wrap msg (Pcloud.NewClient cfg) w in
  objects (snd r) = objects w /\
  exists o, calls (snd r) = calls w ++ [(UserInfo, o)].
Proof.
  cbv [wrap Pcloud.NewClient Pcloud.authenticate bind Pcloud.apiRequest
       request LogVerbose logPrintf modify fail ret].
  destruct (faults w) as [| [k |] rest]; simpl;
    try destruct k; simpl; try destruct (verboseMode w); simpl;
    (split; [reflexivity | eexists; reflexivity]).
Qed.

(** A dry run through the manager: the only request is the one that makes
    the client, when there is none yet. *)
Lemma manager_gdrive_dry_run tree sourcePath m w :
  let w' := Manager.world (snd (Manager.SyncToGoogleDrive tree sourcePath true
                                  {| Manager.manager := m; Manager.world := w |})) in
  objects w' = objects w /\ mutatingCalls w w' = [].
Proof.
  unfold Manager.SyncToGoogleDrive, bind. simpl.
  destruct (Manager.gdriveClient m) as [client |]; simpl.
  - unfold Manager.liftW. simpl.
    destruct (gdrive_DryRun_onlyLogs tree sourcePath client w) as [(Ho & _ & Hc & _) _].
    destruct (Gdrive.DryRun tree sourcePath client w) as [r wd]; simpl in *.
    split; [exact Ho |].
    apply (mutatingCalls_reads w wd []); [rewrite app_nil_r; exact Hc | constructor].
  - destruct (gdrive_NewClient_reads "failed to create Google Drive client"
                (Config.GoogleDrive (Manager.config m)) w) as [Ho1 [o Hc1]].
    destruct (wrap "failed to create Google Drive client"
                   (Gdrive.NewClient (Config.GoogleDrive (Manager.config m))) w)
      as [[client | e] w1]; simpl in *.
    + unfold Manager.liftW. simpl.
      destruct (gdrive_DryRun_onlyLogs tree sourcePath client w1) as [(Ho & _ & Hc & _) _].
      destruct (Gdrive.DryRun tree sourcePath client w1) as [r wd]; simpl in *.
      split; [congruence |].
      apply (mutatingCalls_reads w wd [(NewService, o)]);
        [congruence | repeat constructor].
    + split; [exact Ho1 |].
      apply (mutatingCalls_reads w w1 [(NewService, o)]);
        [exact Hc1 | repeat constructor].
Qed.

Lemma manager_pcloud_dry_run tree sourcePath m w :
  let w' := Manager.world (snd (Manager.SyncToPCloud tree sourcePath true
                                  {| Manager.manager := m; Manager.world := w |})) in
  objects w' = objects w /\ mutatingCalls w w' = [].
Proof.
  unfold Manager.SyncToPCloud, bind. simpl.
  destruct (Manager.pcloudClient m) as [client |]; simpl.
  - unfold Manager.liftW. simpl.
    destruct (pcloud_DryRun_onlyLogs tree sourcePath client w) as [(Ho & _ & Hc & _) _].
    destruct (Pcloud.DryRun tree sourcePath client w) as [r wd]; simpl in *.
    split; [exact Ho |].
    apply (mutatingCalls_reads w wd []); [rewrite app_nil_r; exact Hc | constructor].
  - destruct (pcloud_NewClient_reads "failed to create pCloud client"
                (Config.PCloud (Manager.config m)) w) as [Ho1 [o Hc1]].
    destruct (wrap "failed to create pCloud client"
                   (Pcloud.NewClient (Config.PCloud (Manager.config m))) w)
      as [[client | e] w1]; simpl in *.
    + unfold Manager.liftW. simpl.
      destruct (pcloud_DryRun_onlyLogs tree sourcePath client w1) as [(Ho & _ & Hc & _) _].
      destruct (Pcloud.DryRun tree sourcePath client w1) as [r wd]; simpl in *.
      split; [congruence |].
      apply (mutatingCalls_reads w wd [(UserInfo, o)]);
        [congruence | repeat constructor].
    + split; [exact Ho1 |].
      apply (mutatingCalls_reads w w1 [(UserInfo, o)]);
        [exact Hc1 | repeat constructor].
Qed.

(** C4. A dry run of either client, over any source tree and in any world,
    makes no call to the remote store at all, so no mutating call (no
    upload, no folder creation, no delete): the store, the list of requests
    and the pending outcomes are unchanged; only the log grows, with the
    report of the intended actions.  Started through the manager, a
    dry-run pass makes at most the one request that builds the client,
    which changes nothing: the store is unchanged and no mutating call is
    made. *)
Theorem dry_run_makes_no_remote_call :
  forall (tree : Node) (sourcePath : list ascii)
         (g : Gdrive.Client) (p : Pcloud.Client) (m : Manager.Manager) (w : World),
    let wg := snd (Gdrive.DryRun tree sourcePath g w) in
    let wp := snd (Pcloud.DryRun tree sourcePath p w) in
    let st := {| Manager.manager := m; Manager.world := w |} in
    let wmg := Manager.world (snd (Manager.SyncToGoogleDrive tree sourcePath true st)) in
    let wmp := Manager.world (snd (Manager.SyncToPCloud tree sourcePath true st)) in
    (sameRemote w wg /\ mutatingCalls w wg = [] /\
     exists lines, logs wg = logs w ++ lines) /\
    (sameRemote w wp /\ mutatingCalls w wp = [] /\
     exists lines, logs wp = logs w ++ lines) /\
    (objects wmg = objects w /\ mutatingCalls w wmg = []) /\
    (objects wmp = objects w /\ mutatingCalls w wmp = []).
Proof.
  intros tree sourcePath g p m w. simpl.
  assert (Hmut : forall w', sameRemote w w' -> mutatingCalls w w' = []).
  { intros w' (_ & _ & Hc & _).
    apply (mutatingCalls_reads w w' []); [rewrite app_nil_r; exact Hc | constructor]. }
  destruct (gdrive_DryRun_onlyLogs tree sourcePath g w) as [Hg1 Hg2].
  destruct (pcloud_DryRun_onlyLogs tree sourcePath p w) as [Hp1 Hp2].
  split; [split; [exact Hg1 | split; [apply Hmut; exact Hg1 | exact Hg2]] |].
  split; [split; [exact Hp1 | split; [apply Hmut; exact Hp1 | exact Hp2]] |].
  split.
  - apply manager_gdrive_dry_run.
  - apply manager_pcloud_dry_run.
Qed.

(** ** The requests a computation makes *)

Lemma quiet_app l1 l2 : quiet l1 -> quiet l2 -> quiet (l1 ++ l2).
Proof. unfold quiet. intros. apply Forall_app; split; assumption. Qed.

Lemma noUploads_app l1 l2 : noUploads l1 -> noUploads l2 -> noUploads (l1 ++ l2).
Proof. unfold noUploads. intros. apply Forall_app; split; assumption. Qed.

Lemma failedLast_app l1 l2 : quiet l1 -> failedLast l2 -> failedLast (l1 ++ l2).
Proof.
  intros H1 (pre & last & -> & Hq & Hl).
  exists (l1 ++ pre), last. rewrite app_assoc.
  split; [reflexivity | split; [apply quiet_app; assumption | exact Hl]].
Qed.

Lemma traced_ret {A} (a : A) : traced (ret a) lookupPhase.
Proof.
  intros w. exists []. simpl. rewrite app_nil_r.
  split; [reflexivity | split; constructor].
Qed.

Lemma traced_fail {A} e : traced (@fail World A e) lookupPhase.
Proof.
  intros w. exists []. simpl. rewrite app_nil_r.
  split; [reflexivity | split; [constructor |]].
  exists [], []. split; [reflexivity | split; [constructor | left; reflexivity]].
Qed.

Lemma traced_wrap {A} msg (m : M World A) T : traced m T -> traced (wrap msg m) T.
Proof.
  intros H w. destruct (H w) as (new & Hc & HT). exists new.
  unfold wrap. destruct (m w) as [[a | e] w']; simpl in *; split; assumption.
Qed.

Lemma traced_silent {A} (m : M World A) : silent m -> traced m lookupPhase.
Proof.
  intros H w. destruct (H w) as [Hok Hc]. exists []. rewrite Hc, Hok, app_nil_r.
  split; [reflexivity | split; constructor].
Qed.

Lemma traced_bind_lookup {A B} (m : M World A) (k : A -> M World B) :
  traced m lookupPhase -> (forall a, traced (k a) lookupPhase) ->
  traced (bind m k) lookupPhase.
Proof.
  intros Hm Hk w. unfold bind.
  destruct (Hm w) as (new1 & Hc1 & Hn1 & Hq1).
  destruct (m w) as [[a | e] w1]; simpl in *.
  - destruct (Hk a w1) as (new2 & Hc2 & Hn2 & Hq2).
    exists (new1 ++ new2). rewrite Hc2, Hc1, app_assoc.
    split; [reflexivity | split; [apply noUploads_app; assumption |]].
    destruct (isOk (fst (k a w1))).
    + apply quiet_app; assumption.
    + apply failedLast_app; assumption.
  - exists new1. split; [assumption | split; assumption].
Qed.

Lemma traced_bind_upload {A B} data (m : M World A) (k : A -> M World B) :
  traced m lookupPhase -> (forall a, traced (k a) (uploadPhase data)) ->
  traced (bind m k) (uploadPhase data).
Proof.
  intros Hm Hk w. unfold bind.
  destruct (Hm w) as (new1 & Hc1 & Hn1 & Hq1).
  destruct (m w) as [[a | e] w1]; simpl in *.
  - destruct (Hk a w1) as (new2 & Hc2 & H2).
    exists (new1 ++ new2). rewrite Hc2, Hc1, app_assoc.
    split; [reflexivity |]. unfold uploadPhase in *.
    destruct (isOk (fst (k a w1))).
    + destruct H2 as (pre & u & -> & Hq & Hn & Hu & Hp).
      exists (new1 ++ pre), u. rewrite app_assoc.
      repeat split; try assumption;
        [apply quiet_app | apply noUploads_app]; assumption.
    + destruct H2 as (pre & last & -> & Hq & Hn & Hl).
      exists (new1 ++ pre), last. rewrite app_assoc.
      repeat split; try assumption;
        [apply quiet_app | apply noUploads_app]; assumption.
  - exists new1. split; [assumption |].
    destruct Hq1 as (pre & last & -> & Hq & Hl).
    exists pre, last. apply Forall_app in Hn1 as [Hn1 _].
    repeat split; assumption.
Qed.

(** A computation that succeeds without a request changes nothing of what
    the one before it established. *)
Lemma traced_then_silent {A B} (m : M World A) (k : A -> M World B) T :
  traced m T -> (forall a, silent (k a)) -> traced (bind m k) T.
Proof.
  intros Hm Hk w. unfold bind.
  destruct (Hm w) as (new & Hc & HT).
  destruct (m w) as [[a | e] w1]; simpl in *.
  - destruct (Hk a w1) as [Hok Hc2]. exists new. rewrite Hc2, Hok.
    split; assumption.
  - exists new. split; assumption.
Qed.

Lemma silent_logPrintf f sa ia : silent (logPrintf f sa ia).
Proof. intros w. split; reflexivity. Qed.

Lemma silent_LogVerbose f sa ia : silent (LogVerbose f sa ia).
Proof. intros w. unfold LogVerbose. destruct (verboseMode w); split; reflexivity. Qed.

Lemma silent_gets {A} (f : World -> A) : silent (gets f).
Proof. intros w. split; reflexivity. Qed.

Lemma silent_ret {A} (a : A) : silent (@ret World A a).
Proof. intros w. split; reflexivity. Qed.

Lemma silent_addObject name parent isFolder data :
  silent (addObject name parent isFolder data).
Proof. intros w. split; reflexivity. Qed.

Lemma silent_setData id name data : silent (setData id name data).
Proof. intros w. split; reflexivity. Qed.

Lemma silent_bind {A B} (m : M World A) (k : A -> M World B) :
  silent m -> (forall a, silent (k a)) -> silent (bind m k).
Proof.
  intros Hm Hk w. unfold bind. destruct (Hm w) as [Hok Hc].
  destruct (m w) as [[a | e] w1]; simpl in *; [| discriminate].
  destruct (Hk a w1) as [Hok2 Hc2]. split; congruence.
Qed.

(** One request: it is the only one added, and it succeeded exactly when
    the computation did. *)
Lemma request_spec c w :
  calls (snd (request c w)) = calls w ++ [(c, match faults w with o :: _ => o | [] => None end)]
  /\ isOk (fst (request c w)) =
     match faults w with Some _ :: _ => false | _ => true end.
Proof.
  unfold request. destruct (faults w) as [| [k |] rest]; simpl; split; reflexivity.
Qed.

Lemma traced_request c : isUpload c = false -> traced (request c) lookupPhase.
Proof.
  intros Hc w. destruct (request_spec c w) as [H1 H2].
  eexists. split; [exact H1 |]. rewrite H2.
  split; [repeat constructor; exact Hc |].
  destruct (faults w) as [| [k |] rest].
  - repeat constructor.
  - exists [], [(c, Some k)]. split; [reflexivity | split; [constructor | right; eauto]].
  - repeat constructor.
Qed.

Lemma traced_request_upload c data :
  isUpload c = true -> payload c = Some data ->
  traced (request c) (uploadPhase data).
Proof.
  intros Hu Hp w. destruct (request_spec c w) as [H1 H2].
  eexists. split; [exact H1 |]. rewrite H2. unfold uploadPhase.
  destruct (faults w) as [| [k |] rest].
  - exists [], c. repeat split; try assumption; constructor.
  - exists [], [(c, Some k)].
    split; [reflexivity | split; [constructor | split; [constructor | right; eauto]]].
  - exists [], c. repeat split; try assumption; constructor.
Qed.

(** ** The requests of the Google Drive client *)

Lemma gdrive_findFolder_traced name parentID :
  traced (Gdrive.findFolder name parentID) lookupPhase.
Proof.
  unfold Gdrive.findFolder. apply traced_then_silent.
  - apply traced_request. reflexivity.
  - intros _. apply silent_gets.
Qed.

Lemma gdrive_findFile_traced name parentID :
  traced (Gdrive.findFile name parentID) lookupPhase.
Proof.
  unfold Gdrive.findFile. apply traced_then_silent.
  - apply traced_request. reflexivity.
  - intros _. apply silent_gets.
Qed.

Lemma gdrive_createFolderParts_traced parts :
  forall parentID, traced (Gdrive.createFolderParts parts parentID) lookupPhase.
Proof.
  induction parts as [| part rest IH]; intros parentID; simpl.
  - apply traced_ret.
  - destruct (bool_decide (part = [])); [apply IH |].
    apply traced_bind_lookup.
    + apply traced_wrap, gdrive_findFolder_traced.
    + intros folderID. destruct (negb (bool_decide (folderID = []))); [apply IH |].
      apply traced_bind_lookup.
      * apply traced_wrap. apply traced_then_silent.
        -- apply traced_request. reflexivity.
        -- intros _. apply silent_addObject.
      * intros created. apply traced_bind_lookup.
        -- apply traced_silent, silent_logPrintf.
        -- intros _. apply IH.
Qed.

Lemma gdrive_getFolderIDParts_traced parts :
  forall parentID, traced (Gdrive.getFolderIDParts parts parentID) lookupPhase.
Proof.
  induction parts as [| part rest IH]; intros parentID; simpl.
  - apply traced_ret.
  - destruct (bool_decide (part = [])); [apply IH |].
    apply traced_bind_lookup.
    + apply gdrive_findFolder_traced.
    + intros folderID. destruct (bool_decide (folderID = []));
        [apply traced_fail | apply IH].
Qed.

Lemma gdrive_uploadFile_traced tree sourcePath c localPath remotePath :
  traced (Gdrive.uploadFile tree sourcePath c localPath remotePath)
         (uploadTrace (readFile sourcePath tree localPath)).
Proof.
  unfold Gdrive.uploadFile, uploadTrace.
  destruct (readFile sourcePath tree localPath) as [data | e].
  2:{ intros w. exists []. simpl. rewrite app_nil_r. repeat split. }
  apply traced_bind_upload.
  - destruct (negb (bool_decide (Dir remotePath = dot))); [| apply traced_ret].
    apply traced_bind_lookup.
    + apply traced_wrap. apply gdrive_createFolderParts_traced.
    + intros _. apply traced_wrap. apply gdrive_getFolderIDParts_traced.
  - intros parentID. apply traced_bind_upload.
    + apply traced_wrap, gdrive_findFile_traced.
    + intros existingFileID.
      destruct (negb (bool_decide (existingFileID = []))).
      * apply traced_then_silent; [| intros _; apply silent_logPrintf].
        apply traced_wrap. apply traced_then_silent.
        -- apply traced_request_upload; reflexivity.
        -- intros _. apply silent_setData.
      * apply traced_then_silent; [| intros _; apply silent_logPrintf].
        apply traced_wrap. apply traced_then_silent.
        -- apply traced_request_upload; reflexivity.
        -- intros _. apply silent_bind; [apply silent_addObject |].
           intros _. apply silent_ret.
Qed.

(** ** The requests of the pCloud client *)

(** A pCloud request followed by the check of its result code. *)
Lemma pcloud_checked_lookup {A} c msg e (K : M World A) :
  isUpload c = false -> traced K lookupPhase ->
  traced (bind (wrap msg (Pcloud.apiRequest c))
               (fun code => if negb (code =? 0) then fail e else K)) lookupPhase.
Proof.
  intros Hc HK w. unfold bind, wrap, Pcloud.apiRequest, request.
  assert (Hfailed : forall k, lookupPhase false [(c, Some k)]).
  { intros k. split; [repeat constructor; exact Hc |].
    exists [], [(c, Some k)]. split; [reflexivity | split; [constructor | right; eauto]]. }
  assert (Hgo : forall w', calls w' = calls w ++ [(c, None)] ->
            exists new, calls (snd (K w')) = calls w ++ new /\
                        lookupPhase (isOk (fst (K w'))) new).
  { intros w' Hw'. destruct (HK w') as (new2 & Hc2 & Hn & Hq).
    exists ((c, None) :: new2). rewrite Hc2, Hw', <- app_assoc.
    split; [reflexivity | split; [constructor; assumption |]].
    destruct (isOk (fst (K w'))).
    - constructor; [reflexivity | assumption].
    - apply (failedLast_app [(c, None)]); [repeat constructor | assumption]. }
  destruct (faults w) as [| [k |] rest]; simpl.
  - apply Hgo. reflexivity.
  - destruct k; simpl; eexists; (split; [reflexivity | apply Hfailed]).
  - apply Hgo. reflexivity.
Qed.

Lemma pcloud_checked_upload {A} c data msg e (K : M World A) :
  isUpload c = true -> payload c = Some data -> silent K ->
  traced (bind (wrap msg (Pcloud.apiRequest c))
               (fun code => if negb (code =? 0) then fail e else K))
         (uploadPhase data).
Proof.
  intros Hu Hp HK w. unfold bind, wrap, Pcloud.apiRequest, request.
  assert (Hfailed : forall k, uploadPhase data false [(c, Some k)]).
  { intros k. exists [], [(c, Some k)].
    split; [reflexivity | split; [constructor | split; [constructor | right; eauto]]]. }
  assert (Hgo : forall w', calls w' = calls w ++ [(c, None)] ->
            exists new, calls (snd (K w')) = calls w ++ new /\
                        uploadPhase data (isOk (fst (K w'))) new).
  { intros w' Hw'. destruct (HK w') as [Hok Hc2].
    exists [(c, None)]. rewrite Hc2, Hw', Hok.
    split; [reflexivity |]. exists [], c.
    repeat split; try assumption; constructor. }
  destruct (faults w) as [| [k |] rest]; simpl.
  - apply Hgo. reflexivity.
  - destruct k; simpl; eexists; (split; [reflexivity | apply Hfailed]).
  - apply Hgo. reflexivity.
Qed.

Lemma pcloud_findFolder_traced name parentFolderID :
  traced (Pcloud.findFolder name parentFolderID) lookupPhase.
Proof.
  unfold Pcloud.findFolder. apply pcloud_checked_lookup; [reflexivity |].
  apply traced_silent, silent_gets.
Qed.

Lemma pcloud_createFolderParts_traced parts :
  forall parentID, traced (Pcloud.createFolderParts parts parentID) lookupPhase.
Proof.
  induction parts as [| part rest IH]; intros parentID; simpl.
  - apply traced_ret.
  - destruct (bool_decide (part = [])); [apply IH |].
    apply traced_bind_lookup.
    + apply traced_wrap, pcloud_findFolder_traced.
    + intros folderID. destruct (negb (bool_decide (folderID = []))); [apply IH |].
      apply pcloud_checked_lookup; [reflexivity |].
      apply traced_bind_lookup.
      * apply traced_silent, silent_addObject.
      * intros created. apply traced_bind_lookup.
        -- apply traced_silent, silent_LogVerbose.
        -- intros _. apply IH.
Qed.

Lemma pcloud_getFolderIDParts_traced parts :
  forall parentID, traced (Pcloud.getFolderIDParts parts parentID) lookupPhase.
Proof.
  induction parts as [| part rest IH]; intros parentID; simpl.
  - apply traced_ret.
  - destruct (bool_decide (part = [])); [apply IH |].
    apply traced_bind_lookup.
    + apply pcloud_findFolder_traced.
    + intros folderID. destruct (bool_decide (folderID = []));
        [apply traced_fail | apply IH].
Qed.

Lemma silent_storeUpload folderid name data :
  silent (Pcloud.storeUpload folderid name data).
Proof.
  unfold Pcloud.storeUpload. apply silent_bind; [apply silent_gets |].
  intros existing. destruct (negb (bool_decide (existing = []))).
  - apply silent_setData.
  - apply silent_bind; [apply silent_addObject | intros _; apply silent_ret].
Qed.

Lemma pcloud_uploadFile_traced tree sourcePath c localPath remotePath :
  traced (Pcloud.uploadFile tree sourcePath c localPath remotePath)
         (uploadTrace (readFile sourcePath tree localPath)).
Proof.
  unfold Pcloud.uploadFile, uploadTrace.
  destruct (readFile sourcePath tree localPath) as [data | e].
  2:{ intros w. exists []. simpl. rewrite app_nil_r. repeat split. }
  apply traced_bind_upload.
  - apply traced_wrap. apply pcloud_createFolderParts_traced.
  - intros _. apply traced_bind_upload.
    + apply traced_wrap. apply pcloud_getFolderIDParts_traced.
    + intros parentFolderID.
      apply pcloud_checked_upload; [reflexivity | reflexivity |].
      apply silent_bind; [apply silent_storeUpload |].
      intros _. apply silent_logPrintf.
Qed.

Lemma quiet_no_failure l pre c k post : quiet l -> l <> pre ++ (c, Some k) :: post.
Proof.
  intros Hq ->. apply Forall_app in Hq as [_ Hq].
  inversion Hq as [| x xs Hx _]; subst. discriminate Hx.
Qed.

Lemma failedLast_is_last l pre c k post :
  failedLast l -> l = pre ++ (c, Some k) :: post -> post = [].
Proof.
  intros (pre0 & last & -> & Hq & Hl). revert pre.
  induction pre0 as [| x pre0 IH]; intros pre H; simpl in H.
  - destruct Hl as [-> | (c0 & k0 & ->)].
    + destruct pre; discriminate H.
    + destruct pre as [| y pre]; simpl in H.
      * injection H as _ _ H. symmetry. exact H.
      * injection H as _ H. destruct pre; discriminate H.
  - inversion Hq as [| x' xs Hx Hq']; subst.
    destruct pre as [| y pre]; simpl in H.
    + injection H as -> _. discriminate Hx.
    + injection H as _ H. apply (IH Hq' pre H).
Qed.

Lemma uploadPhase_failedLast data ok new :
  uploadPhase data ok new -> failedLast new.
Proof.
  unfold uploadPhase. destruct ok.
  - intros (pre & u & -> & Hq & _). exists (pre ++ [(u, None)]), [].
    rewrite app_nil_r. split; [reflexivity | split; [| left; reflexivity]].
    apply quiet_app; [assumption | repeat constructor].
  - intros (pre & last & -> & Hq & _ & Hl). exists pre, last. auto.
Qed.

Lemma uploadPhase_ok_quiet data new : uploadPhase data true new -> quiet new.
Proof.
  intros (pre & u & -> & Hq & _). apply quiet_app; [assumption | repeat constructor].
Qed.

Lemma uploadsOf_noUploads l : noUploads l -> uploadsOf l = [].
Proof.
  induction 1 as [| x l Hx _ IH]; simpl; [reflexivity |].
  unfold uploadsOf in *. simpl. rewrite Hx. exact IH.
Qed.

Lemma uploadsOf_app l1 l2 : uploadsOf (l1 ++ l2) = uploadsOf l1 ++ uploadsOf l2.
Proof. apply List.filter_app. Qed.

Lemma uploadPhase_at_most_one data ok new :
  uploadPhase data ok new -> (length (uploadsOf new) <= 1)%nat.
Proof.
  unfold uploadPhase. destruct ok.
  - intros (pre & u & -> & _ & Hn & Hu & _).
    rewrite uploadsOf_app, (uploadsOf_noUploads pre Hn). simpl.
    unfold uploadsOf. simpl. rewrite Hu. simpl. lia.
  - intros (pre & last & -> & _ & Hn & Hl).
    rewrite uploadsOf_app, (uploadsOf_noUploads pre Hn). simpl.
    destruct Hl as [-> | (c & k & ->)]; simpl; [lia |].
    unfold uploadsOf. simpl. destruct (isUpload c); simpl; lia.
Qed.

(** What both claims about a transfer rest on: the requests [uploadFile]
    adds, for a client given by its [uploadFile]. *)
Lemma uploadFile_requests (upload : M World unit) opened :
  traced upload (uploadTrace opened) ->
  forall w,
    let r := upload w in
    exists new,
      calls (snd r) = calls w ++ new /\
      (length (uploadsOf new) <= 1)%nat /\
      (forall pre c k post,
          new = pre ++ (c, Some k) :: post -> post = [] /\ isOk (fst r) = false) /\
      (isOk (fst r) = true ->
       exists data pre u,
         opened = Ok data /\ new = pre ++ [(u, None)] /\ noUploads pre /\
         isUpload u = true /\ payload u = Some data).
Proof.
  intros H w. simpl. destruct (H w) as (new & Hc & HT).
  exists new. split; [exact Hc |].
  unfold uploadTrace in HT. destruct opened as [data | e].
  - split; [eapply uploadPhase_at_most_one; exact HT |]. split.
    + intros pre c k post Hnew. split.
      * eapply failedLast_is_last; [eapply uploadPhase_failedLast; exact HT | exact Hnew].
      * destruct (isOk (fst (upload w))); [| reflexivity].
        exfalso. eapply quiet_no_failure; [eapply uploadPhase_ok_quiet; exact HT | exact Hnew].
    + intros Hok. rewrite Hok in HT.
      destruct HT as (pre & u & -> & _ & Hn & Hu & Hp).
      exists data, pre, u. auto.
  - destruct HT as [Hok ->]. split; [simpl; lia |]. split.
    + intros pre c k post Hnew. destruct pre; discriminate Hnew.
    + intros Hok'. congruence.
Qed.

(** ** C1: unchanged files *)




(** ** C3: retries *)

(** C3, counterexample. The configuration asks for three retry attempts;
    the upload of the only file fails once with a transient error and every
    later request would succeed.  The pass makes one upload request and
    returns the error: nothing is retried. *)
Lemma transient_failure_is_not_retried :
  let st := {| Manager.manager := Manager.NewManager exampleConfig;
               Manager.world := withFaults emptyWorld [None; None; Some Transient] |} in
  let r := Manager.SyncToGoogleDrive (oneFileTree 100) (str "/src") false st in
  Config.GeneralConfig.RetryAttempts (Config.General exampleConfig) = 3 /\
  fst r = Fail (Errorf "failed to upload file" (RemoteError Transient)) /\
  uploadsOf (calls (Manager.world (snd r))) =
    [(FilesCreate (str "a.txt") (str "root") (str "hi"), Some Transient)] /\
  faults (Manager.world (snd r)) = [].
Proof. vm_compute. repeat split. Qed.

(** C3, as amended. [uploadFile] of either client sends at most one upload
    request, and a request that fails, with an error of any kind
    (transient, authentication, quota or other), is the last request it
    makes and makes it return an error: no request is retried, the
    configured retry count is not consulted, and there is no backoff. *)
Theorem transfer_is_attempted_once :
  forall (tree : Node) (sourcePath : list ascii)
         (g : Gdrive.Client) (p : Pcloud.Client)
         (localPath remotePath : list ascii) (w : World),
    (exists new,
        calls (snd (Gdrive.uploadFile tree sourcePath g localPath remotePath w))
          = calls w ++ new /\
        (length (uploadsOf new) <= 1)%nat /\
        forall pre c k post,
          new = pre ++ (c, Some k) :: post ->
          post = [] /\
          isOk (fst (Gdrive.uploadFile tree sourcePath g localPath remotePath w)) = false) /\
    (exists new,
        calls (snd (Pcloud.uploadFile tree sourcePath p localPath remotePath w))
          = calls w ++ new /\
        (length (uploadsOf new) <= 1)%nat /\
        forall pre c k post,
          new = pre ++ (c, Some k) :: post ->
          post = [] /\
          isOk (fst (Pcloud.uploadFile tree sourcePath p localPath remotePath w)) = false).
Proof.
  intros tree sourcePath g p localPath remotePath w. split.
  - destruct (uploadFile_requests _ _
                (gdrive_uploadFile_traced tree sourcePath g localPath remotePath) w)
      as (new & Hc & Hone & Hlast & _).
    exists new. auto.
  - destruct (uploadFile_requests _ _
                (pcloud_uploadFile_traced tree sourcePath p localPath remotePath) w)
      as (new & Hc & Hone & Hlast & _).
    exists new. auto.
Qed.

(** The theorem at a store whose second request fails with an
    authentication error: the failed upload is the last request and the
    call fails. *)
Lemma transfer_is_attempted_once_witness :
  let w := withFaults emptyWorld [None; Some AuthFailure; None; None] in
  let r := Gdrive.uploadFile (oneFileTree 100) (str "/src") gdriveClient
             (str "/src/a.txt") (str "a.txt") w in
  calls (snd r) =
    [(FilesList (str "a.txt") (str "root") false, None);
     (FilesCreate (str "a.txt") (str "root") (str "hi"), Some AuthFailure)] /\
  isOk (fst r) = false.
Proof.
  intros w r.
  assert (Hcalls : calls (snd r) =
      [(FilesList (str "a.txt") (str "root") false, None);
       (FilesCreate (str "a.txt") (str "root") (str "hi"), Some AuthFailure)]).
  { vm_compute. reflexivity. }
  split; [exact Hcalls |].
  destruct (proj1 (transfer_is_attempted_once (oneFileTree 100) (str "/src")
                     gdriveClient pcloudClient (str "/src/a.txt") (str "a.txt") w))
    as (new & Hc & _ & Hlast).
  fold r in Hc, Hlast. rewrite Hcalls in Hc. simpl in Hc. subst new.
  exact (proj2 (Hlast [(FilesList (str "a.txt") (str "root") false, None)]
                      (FilesCreate (str "a.txt") (str "root") (str "hi")) AuthFailure []
                      eq_refl)).
Defined.

(** ** C2: a failing entry *)

Lemma walkNames_first_failure {St} (walkc : list ascii -> Node -> M St unit)
    path pre x post e :
  e <> SkipDir ->
  forall s s1 s2,
    walkNames walkc path pre s = (Ok tt, s1) ->
    walkc (Join2 path (nodeName x)) x s1 = (Fail e, s2) ->
    walkNames walkc path (pre ++ x :: post) s = (Fail e, s2).
Proof.
  intros He. induction pre as [| c pre IH]; intros s s1 s2 Hpre Hx; simpl in *.
  - injection Hpre as <-. rewrite Hx.
    rewrite (error_eqb_SkipDir_false e He). destruct x; reflexivity.
  - destruct (walkc (Join2 path (nodeName c)) c s) as [[u | e'] s'].
    + eapply IH; eassumption.
    + destruct c; try discriminate Hpre;
        (destruct (error_eqb e' SkipDir); [eapply IH; eassumption | discriminate Hpre]).
Qed.

Lemma Rel_same path : Rel path path = Some dot.
Proof. unfold Rel. rewrite bool_decide_eq_true_2; reflexivity. Qed.

Lemma Walk_first_failure {St}
    (walkFn : list ascii -> option Os.FileInfo -> option error -> M St unit)
    name size modTime pre x post sourcePath e :
  e <> SkipDir ->
  (forall info s, walkFn sourcePath (Some info) None s = (Ok tt, s)) ->
  forall s s1 s2,
    entriesPass walkFn sourcePath pre s = (Ok tt, s1) ->
    entryPass walkFn sourcePath x s1 = (Fail e, s2) ->
    Walk walkFn sourcePath (Directory name size modTime true (pre ++ x :: post)) s
    = (Fail e, s2).
Proof.
  intros He Hroot s s1 s2 Hpre Hx. unfold Walk. simpl. unfold bind.
  rewrite Hroot.
  rewrite (walkNames_first_failure (walk walkFn) sourcePath pre x post e He s s1 s2 Hpre Hx).
  rewrite (error_eqb_SkipDir_false e He). reflexivity.
Qed.

(** C2, counterexample. Ten entries; the upload of the fifth is refused by
    the store and every other request would succeed.  The pass stops there:
    it returns that error as its own, four files are in the store, and the
    five entries after the failing one are never looked at (ten requests in
    all, two for each of the first five entries). *)
Lemma failing_entry_aborts_the_pass :
  let w := withFaults emptyWorld (repeat None 9 ++ [Some Permanent]) in
  let r := Gdrive.Sync tenFiles (str "/src") gdriveClient w in
  fst r = Fail (Errorf "failed to upload file" (RemoteError Permanent)) /\
  map ObjName (objects (snd r)) = [str "f0"; str "f1"; str "f2"; str "f3"] /\
  length (calls (snd r)) = 10%nat /\
  existsb (fun x => match fst x with
                    | FilesList name _ _ =>
                        bool_decide (name ∈ [str "f5"; str "f6"; str "f7"; str "f8"; str "f9"])
                    | _ => false
                    end) (calls (snd r)) = false.
Proof. vm_compute. repeat split. Qed.

(** C2, as amended. The first entry whose processing fails ends the pass:
    when the entries before [x] are processed without error and [x] fails
    with [e], [Sync] of either client returns [e] as the error of the
    whole pass, in the world in which [x] failed; the entries after [x]
    are not processed and no result for them is recorded. *)
Theorem first_failure_ends_the_pass :
  forall (name : list ascii) (size modTime : Z) (pre post : list Node) (x : Node)
         (sourcePath : list ascii) (g : Gdrive.Client) (p : Pcloud.Client)
         (e : error) (w w1 w2 : World),
    let tree := Directory name size modTime true (pre ++ x :: post) in
    e <> SkipDir ->
    (entriesPass (Gdrive.syncFn tree sourcePath g) sourcePath pre
       (snd (logPrintf "Starting Google Drive sync from: %s" [sourcePath] [] w))
     = (Ok tt, w1) ->
     entryPass (Gdrive.syncFn tree sourcePath g) sourcePath x w1 = (Fail e, w2) ->
     Gdrive.Sync tree sourcePath g w = (Fail e, w2)) /\
    (entriesPass (Pcloud.syncFn tree sourcePath p) sourcePath pre
       (snd (LogVerbose "Starting pCloud sync from: %s" [sourcePath] [] w))
     = (Ok tt, w1) ->
     entryPass (Pcloud.syncFn tree sourcePath p) sourcePath x w1 = (Fail e, w2) ->
     Pcloud.Sync tree sourcePath p w = (Fail e, w2)).
Proof.
  intros name size modTime pre post x sourcePath g p e w w1 w2 tree He. split.
  - intros Hpre Hx. unfold Gdrive.Sync, bind. simpl.
    eapply Walk_first_failure; try eassumption.
    intros info s. unfold Gdrive.syncFn. rewrite Rel_same.
    rewrite bool_decide_eq_true_2; reflexivity.
  - intros Hpre Hx. unfold Pcloud.Sync, bind.
    assert (Hlog : forall f sa ia s, fst (LogVerbose f sa ia s) = Ok tt).
    { intros. unfold LogVerbose. destruct (verboseMode s); reflexivity. }
    specialize (Hlog "Starting pCloud sync from: %s" [sourcePath] [] w).
    destruct (LogVerbose _ _ _ w) as [r w0]; simpl in *. subst r.
    eapply Walk_first_failure; try eassumption.
    intros info s. unfold Pcloud.syncFn. rewrite Rel_same.
    rewrite bool_decide_eq_true_2; reflexivity.
Qed.

(** The theorem at three files of which the second is refused: the pass
    returns the error after four requests, none of them for the third. *)
Lemma first_failure_ends_the_pass_witness :
  exists w2,
    Gdrive.Sync threeFiles (str "/src") gdriveClient
      (withFaults emptyWorld [None; None; None; Some QuotaExceeded])
    = (Fail (Errorf "failed to upload file" (RemoteError QuotaExceeded)), w2) /\
    map fst (calls w2) =
      [FilesList (str "a") (str "root") false;
       FilesCreate (str "a") (str "root") (str "1");
       FilesList (str "b") (str "root") false;
       FilesCreate (str "b") (str "root") (str "2")].
Proof.
  pose proof (fun w1 w2 =>
                proj1 (first_failure_ends_the_pass (str "src") 4096 0
                         [File (str "a") (str "1") 0 true]
                         [File (str "c") (str "3") 0 true]
                         (File (str "b") (str "2") 0 true) (str "/src")
                         gdriveClient pcloudClient
                         (Errorf "failed to upload file" (RemoteError QuotaExceeded))
                         (withFaults emptyWorld [None; None; None; Some QuotaExceeded])
                         w1 w2 ltac:(discriminate))) as H.
  eexists. split.
  - eapply H.
    + cbv. reflexivity.
    + cbv. reflexivity.
  - cbv. reflexivity.
Defined.

(** ** C10: the patterns of the configuration *)




(** ** C7: content hashes of a scan *)

Section WalkFailures.
Context {St : Type}.
Variable walkFn : list ascii -> option Os.FileInfo -> option error -> M St unit.

(** Every error of the walk is an error the function returned. *)
Variable E : error -> Prop.
Hypothesis E_fn : forall path info err s e s',
    walkFn path info err s = (Fail e, s') -> E e.

Lemma walkNames_fail (walkc : list ascii -> Node -> M St unit) path cs :
  Forall (fun c => forall p s e s', walkc p c s = (Fail e, s') -> E e) cs ->
  forall s e s', walkNames walkc path cs s = (Fail e, s') -> E e.
Proof.
  induction 1 as [| c cs' Hc _ IH]; intros s e s' H; simpl in H.
  - discriminate H.
  - destruct (walkc (Join2 path (nodeName c)) c s) as [[u | e1] s1] eqn:E1.
    + eapply IH; exact H.
    + specialize (Hc _ _ _ _ E1).
      destruct c;
        try (destruct (error_eqb e1 SkipDir); [eapply IH; exact H |]);
        injection H as <- _; exact Hc.
Qed.

Lemma walk_fail n : forall path s e s', walk walkFn path n s = (Fail e, s') -> E e.
Proof.
  induction n as [name data modTime readable | name
                  | name size modTime listable children IH] using Node_tree_ind;
    intros path s e s' H; simpl in H.
  - eapply E_fn; exact H.
  - eapply E_fn; exact H.
  - unfold bind in H.
    destruct (walkFn path _ _ s) as [[u | e1] s1] eqn:E1.
    + destruct listable; [| discriminate H].
      eapply walkNames_fail; [exact IH | exact H].
    + injection H as <- _. eapply E_fn; exact E1.
Qed.

Lemma Walk_fail root tree s e s' :
  Walk walkFn root tree s = (Fail e, s') -> E e /\ e <> SkipDir.
Proof.
  unfold Walk. intros H.
  destruct (walk walkFn root tree s) as [[u | e1] s1] eqn:E1; [discriminate H |].
  destruct (error_eqb e1 SkipDir) eqn:Eq; [discriminate H |].
  injection H as <- _. split.
  - eapply walk_fail; exact E1.
  - intros ->. simpl in Eq. discriminate Eq.
Qed.
End WalkFailures.

Lemma scanFn_keeps_hashes md5hex tree s rootPath path info err st :
  Forall hashOnlyIfNonEmptyFile (Scanner.files st) ->
  Forall hashOnlyIfNonEmptyFile
    (Scanner.files (snd (Scanner.scanFn md5hex tree s rootPath path info err st))).
Proof.
  intros HI. unfold Scanner.scanFn.
  destruct err as [e |]; [exact HI |].
  destruct info as [info |]; [| exact HI].
  destruct (Rel rootPath path) as [relPath |]; [| exact HI].
  destruct (bool_decide (relPath = dot)); [exact HI |].
  destruct (Scanner.shouldIgnore s relPath (IsDir info));
    [destruct (IsDir info); exact HI |].
  destruct (negb (Scanner.shouldInclude s relPath (IsDir info))); [exact HI |].
  destruct (negb (IsDir info) && (0 <? Size info)) eqn:Hguard.
  - apply andb_true_iff in Hguard as [Hdir Hsize].
    apply negb_true_iff in Hdir. apply Z.ltb_lt in Hsize.
    destruct (Scanner.calculateMD5 md5hex tree rootPath path) as [hash | e]; simpl.
    + apply Forall_app. split; [exact HI |].
      constructor; [| constructor]. intros _. simpl. auto.
    + apply Forall_app. split; [exact HI |].
      constructor; [| constructor]. intros H. simpl in H. congruence.
  - simpl. apply Forall_app. split; [exact HI |].
    constructor; [| constructor]. intros H. simpl in H. congruence.
Qed.

Lemma scanFn_failures md5hex tree s rootPath path info err st e st' :
  Scanner.scanFn md5hex tree s rootPath path info err st = (Fail e, st') ->
  scanFailure e.
Proof.
  unfold Scanner.scanFn, scanFailure.
  destruct err as [e0 |].
  { intros H. injection H as <- _. right. left. eauto. }
  destruct info as [info |].
  2:{ intros H. injection H as <- _. right. right. eauto. }
  destruct (Rel rootPath path) as [relPath |].
  2:{ intros H. injection H as <- _. right. right. eauto. }
  destruct (bool_decide (relPath = dot)); [discriminate |].
  destruct (Scanner.shouldIgnore s relPath (IsDir info)).
  { destruct (IsDir info); [| discriminate].
    intros H. injection H as <- _. left. reflexivity. }
  destruct (negb (Scanner.shouldInclude s relPath (IsDir info))); [discriminate |].
  destruct (negb (IsDir info) && (0 <? Size info)); [| discriminate].
  destruct (Scanner.calculateMD5 md5hex tree rootPath path); discriminate.
Qed.

(** C7. In the inventory of a scan an entry has a content hash only if it
    is a file of more than zero bytes, so directories and zero-byte files
    have the empty hash.  When hashing a file fails, the function of the
    scan prints a warning, records the entry with the empty hash and
    returns no error, so the walk goes on; and when a scan does fail, its
    cause is an error of access to the tree (or of path computation),
    never a hash failure. *)
Theorem scan_hashes_only_nonempty_files :
  forall (md5hex : list ascii -> list ascii) (tree : Node)
         (s : Scanner.Scanner) (rootPath : list ascii),
    (forall fs out,
        Scanner.Scan md5hex tree s rootPath = (Ok fs, out) ->
        forall f, In f fs ->
          (Scanner.MD5Hash f <> [] -> Scanner.IsDir f = false /\ 0 < Scanner.Size f) /\
          (Scanner.IsDir f = true \/ Scanner.Size f = 0 -> Scanner.MD5Hash f = [])) /\
    (forall path info relPath e st,
        Rel rootPath path = Some relPath ->
        relPath <> dot ->
        Scanner.shouldIgnore s relPath false = false ->
        Scanner.shouldInclude s relPath false = true ->
        IsDir info = false ->
        0 < Size info ->
        Scanner.calculateMD5 md5hex tree rootPath path = Fail e ->
        Scanner.scanFn md5hex tree s rootPath path (Some info) None st
        = (Ok tt,
           {| Scanner.files :=
                Scanner.files st ++
                [{| Scanner.Path := relPath; Scanner.AbsolutePath := path;
                    Scanner.Size := Size info; Scanner.ModTime := ModTime info;
                    Scanner.IsDir := false; Scanner.MD5Hash := [] |}];
              Scanner.stdout := Scanner.stdout st ++ [Scanner.WarnMD5Failed path e] |})) /\
    (forall e out,
        Scanner.Scan md5hex tree s rootPath = (Fail e, out) ->
        exists cause,
          e = Errorf "failed to scan directory" cause /\
          ((exists c, cause = Errorf "error accessing" c) \/
           (exists msg, cause = ErrorNew msg))).
Proof.
  intros md5hex tree s rootPath. split; [| split].
  - intros fs out HScan f Hin.
    assert (Hgood : hashOnlyIfNonEmptyFile f).
    { unfold Scanner.Scan in HScan.
      pose proof (Walk_rel (Scanner.scanFn md5hex tree s rootPath)
                    (fun a b => Forall hashOnlyIfNonEmptyFile (Scanner.files a) ->
                                Forall hashOnlyIfNonEmptyFile (Scanner.files b))
                    (fun _ H => H)
                    (fun _ _ _ H1 H2 H => H2 (H1 H))
                    (fun path info err st =>
                       scanFn_keeps_hashes md5hex tree s rootPath path info err st)
                    rootPath tree
                    {| Scanner.files := []; Scanner.stdout := [] |}) as HW.
      destruct (Walk _ rootPath tree _) as [[u | e] st]; [| discriminate HScan].
      injection HScan as <- _. simpl in HW.
      specialize (HW (List.Forall_nil _)).
      rewrite List.Forall_forall in HW. apply HW. exact Hin. }
    split; [exact Hgood |].
    intros Hzero. destruct (Scanner.MD5Hash f) as [| c h] eqn:Hh; [reflexivity |].
    exfalso. destruct Hgood as [Hdir Hsize]; [rewrite Hh; discriminate |].
    destruct Hzero as [Hd | Hz]; [congruence | lia].
  - intros path info relPath e st HRel Hdot Hign Hinc Hdir Hsize Hmd5.
    unfold Scanner.scanFn. rewrite HRel, (bool_decide_eq_false_2 _ Hdot), Hdir.
    rewrite Hign, Hinc. simpl.
    apply Z.ltb_lt in Hsize. rewrite Hsize, Hmd5. reflexivity.
  - intros e out HScan. unfold Scanner.Scan in HScan.
    destruct (Walk _ rootPath tree _) as [[u | e1] st] eqn:HW; [discriminate HScan |].
    injection HScan as <- _. exists e1. split; [reflexivity |].
    destruct (Walk_fail (Scanner.scanFn md5hex tree s rootPath) scanFailure
                (scanFn_failures md5hex tree s rootPath) _ _ _ _ _ HW)
      as [[-> | [H | H]] Hne]; [contradiction | left; exact H | right; exact H].
Qed.

(** The theorem on [mixedTree]: the scan succeeds, only [a.txt] has a hash,
    and [b/c.txt], whose hashing fails, is in the inventory with the empty
    hash. *)
Lemma scan_hashes_only_nonempty_files_witness :
  let r := Scanner.Scan sampleDigest mixedTree (Scanner.NewScanner [] []) (str "/root") in
  map (fun f => (Scanner.Path f, Scanner.MD5Hash f)) (match fst r with Ok fs => fs | Fail _ => [] end)
  = [(str "a.txt", str "md5:hi"); (str "b", []); (str "b/c.txt", []); (str "b/empty", [])] /\
  (forall f, In f (match fst r with Ok fs => fs | Fail _ => [] end) ->
     Scanner.MD5Hash f <> [] -> Scanner.IsDir f = false /\ 0 < Scanner.Size f).
Proof.
  split; [vm_compute; reflexivity |].
  intros f Hin.
  refine (proj1 (proj1 (scan_hashes_only_nonempty_files sampleDigest mixedTree
                   (Scanner.NewScanner [] []) (str "/root"))
                   _ (snd (Scanner.Scan sampleDigest mixedTree
                             (Scanner.NewScanner [] []) (str "/root")))
                   _ f Hin)).
  vm_compute. reflexivity.
Defined.

(** ** C8: the debounce filter *)



(** ** C9: passes that overlap *)






(** ** Strings and paths *)

Lemma HasPrefix_spec s p : HasPrefix s p = true <-> exists r, s = p ++ r.
Proof.
  revert s. induction p as [| c p IH]; intros s; simpl.
  - split; [intros _; exists s; reflexivity | reflexivity].
  - destruct s as [| d s].
    + split; [discriminate | intros [r H]; discriminate H].
    + rewrite andb_true_iff, Ascii.eqb_eq, IH. split.
      * intros [-> [r ->]]. exists r. reflexivity.
      * intros [r H]. injection H as -> ->. split; [reflexivity | exists r; reflexivity].
Qed.

Lemma HasPrefix_self_and_rest s p :
  HasPrefix s p = true /\ drop (length p) s = [] <-> s = p.
Proof.
  split.
  - intros [H Hd]. apply HasPrefix_spec in H as [r ->].
    rewrite drop_app_length in Hd. subst r. apply app_nil_r.
  - intros ->. split.
    + apply HasPrefix_spec. exists []. symmetry. apply app_nil_r.
    + apply drop_all.
Qed.

Lemma HasSuffix_slash d : HasSuffix (d ++ [slash]) [slash] = true.
Proof. unfold HasSuffix. rewrite rev_app_distr. reflexivity. Qed.

Lemma TrimSuffix_slash d : TrimSuffix (d ++ [slash]) [slash] = d.
Proof.
  unfold TrimSuffix. rewrite HasSuffix_slash, length_app. simpl.
  replace (length d + 1 - 1)%nat with (length d) by lia.
  apply take_app_length.
Qed.

Lemma takeWhile_all f l : Forall (fun c => f c = true) l -> takeWhile f l = l.
Proof.
  induction 1 as [| c l Hc _ IH]; simpl; [reflexivity |]. rewrite Hc, IH. reflexivity.
Qed.

Lemma dropWhile_all f l : Forall (fun c => f c = true) l -> dropWhile f l = [].
Proof.
  induction 1 as [| c l Hc _ IH]; simpl; [reflexivity |]. rewrite Hc. exact IH.
Qed.

Lemma takeWhile_stop f l c r :
  Forall (fun c => f c = true) l -> f c = false -> takeWhile f (l ++ c :: r) = l.
Proof.
  intros Hl Hc. induction Hl as [| d l Hd _ IH]; simpl.
  - rewrite Hc. reflexivity.
  - rewrite Hd, IH. reflexivity.
Qed.

Lemma dropWhile_stop f l c r :
  Forall (fun c => f c = true) l -> f c = false -> dropWhile f (l ++ c :: r) = c :: r.
Proof.
  intros Hl Hc. induction Hl as [| d l Hd _ IH]; simpl.
  - rewrite Hc. reflexivity.
  - rewrite Hd. exact IH.
Qed.

Lemma noSlash_notSlash sg :
  noSlash sg -> Forall (fun c => negb (Ascii.eqb c slash) = true) sg.
Proof.
  unfold noSlash. intros H. eapply Forall_impl; [exact H |].
  intros c Hc. simpl. apply negb_true_iff. apply Ascii.eqb_neq. exact Hc.
Qed.

Lemma noSlash_rev sg : noSlash sg -> noSlash (rev sg).
Proof. unfold noSlash. intros H. apply Forall_rev. exact H. Qed.

Lemma Split_noSlash_then sg rest :
  noSlash sg -> Split (sg ++ slash :: rest) slash = sg :: Split rest slash.
Proof.
  induction 1 as [| c sg Hc _ IH]; simpl.
  - reflexivity.
  - apply Ascii.eqb_neq in Hc. rewrite Hc, IH. reflexivity.
Qed.

Lemma Join_cons_cons e1 e2 es :
  Join (e1 :: e2 :: es) slash = e1 ++ slash :: Join (e2 :: es) slash.
Proof. reflexivity. Qed.

Lemma Join_snoc init x :
  init <> [] -> Join (init ++ [x]) slash = Join init slash ++ slash :: x.
Proof.
  induction init as [| e1 init IH]; intros Hne; [contradiction |].
  destruct init as [| e2 init].
  - reflexivity.
  - change ((e1 :: e2 :: init) ++ [x]) with (e1 :: (e2 :: init) ++ [x]).
    change ((e2 :: init) ++ [x]) with (e2 :: (init ++ [x])).
    rewrite Join_cons_cons.
    change (e2 :: (init ++ [x])) with ((e2 :: init) ++ [x]).
    rewrite IH by discriminate. rewrite Join_cons_cons, <- app_assoc. reflexivity.
Qed.

Lemma Split_Join_trailing segs :
  segs <> [] -> Forall noSlash segs ->
  Split (Join segs slash ++ [slash]) slash = segs ++ [[]].
Proof.
  intros Hne H. induction H as [| e1 segs H1 Hs IH]; [contradiction |].
  destruct segs as [| e2 segs].
  - simpl. rewrite Split_noSlash_then by exact H1. reflexivity.
  - rewrite Join_cons_cons.
    replace ((e1 ++ slash :: Join (e2 :: segs) slash) ++ [slash])
      with (e1 ++ slash :: (Join (e2 :: segs) slash ++ [slash]))
      by (rewrite <- app_assoc; reflexivity).
    rewrite Split_noSlash_then by exact H1.
    rewrite IH by discriminate. reflexivity.
Qed.

Lemma cleanStep_name rooted out sg : isName sg -> cleanStep rooted out sg = sg :: out.
Proof.
  intros (H1 & H2 & H3 & _). unfold cleanStep.
  rewrite (bool_decide_eq_false_2 _ H1), (bool_decide_eq_false_2 _ H2),
    (bool_decide_eq_false_2 _ H3). reflexivity.
Qed.

Lemma fold_cleanStep_names rooted segs :
  Forall isName segs ->
  forall out, fold_left (cleanStep rooted) segs out = rev segs ++ out.
Proof.
  induction 1 as [| sg segs Hsg _ IH]; intros out; simpl; [reflexivity |].
  rewrite (cleanStep_name rooted out sg Hsg), IH, <- app_assoc. reflexivity.
Qed.

Lemma isName_noSlash segs : Forall isName segs -> Forall noSlash segs.
Proof. intros H. eapply Forall_impl; [exact H |]. intros sg (_ & _ & _ & Hn). exact Hn. Qed.

(** A clean relative path starts with a byte that is not a separator. *)
Lemma Join_names_head segs :
  cleanNames segs -> exists c rest, Join segs slash = c :: rest /\ c <> slash.
Proof.
  intros [Hne H]. destruct H as [| sg segs (Hsg & _ & _ & Hns) Hs]; [contradiction |].
  destruct sg as [| c sg]; [contradiction |].
  inversion Hns as [| c' sg' Hc _]; subst.
  destruct segs as [| e2 segs].
  - exists c, sg. split; [reflexivity | exact Hc].
  - exists c, (sg ++ slash :: Join (e2 :: segs) slash). split; [reflexivity | exact Hc].
Qed.

Lemma Clean_Join_trailing segs :
  cleanNames segs -> Clean (Join segs slash ++ [slash]) = Join segs slash.
Proof.
  intros Hc. destruct (Join_names_head segs Hc) as (c & rest & Hj & Hcs).
  destruct Hc as [Hne Hnames].
  unfold Clean.
  assert (Hpath : Join segs slash ++ [slash] = c :: (rest ++ [slash])) by (rewrite Hj; reflexivity).
  rewrite Hpath. rewrite <- Hpath.
  apply Ascii.eqb_neq in Hcs. rewrite Hcs.
  rewrite (Split_Join_trailing segs Hne (isName_noSlash segs Hnames)).
  rewrite fold_left_app, (fold_cleanStep_names false segs Hnames). simpl.
  change (cleanStep false (rev segs ++ []) []) with (rev segs ++ []).
  rewrite app_nil_r, rev_involutive.
  destruct segs; [contradiction | reflexivity].
Qed.

Lemma lastElem_noSlash x : noSlash x -> lastElem x = x.
Proof.
  intros H. unfold lastElem.
  rewrite (takeWhile_all _ (rev x) (noSlash_notSlash _ (noSlash_rev x H))).
  apply rev_involutive.
Qed.

Lemma lastElem_after_slash pre x : noSlash x -> lastElem (pre ++ slash :: x) = x.
Proof.
  intros H. unfold lastElem.
  rewrite rev_app_distr. simpl. rewrite <- app_assoc. simpl.
  rewrite (takeWhile_stop _ (rev x) slash (rev pre)
             (noSlash_notSlash _ (noSlash_rev x H)) eq_refl).
  apply rev_involutive.
Qed.

Lemma uptoLastSep_noSlash x : noSlash x -> uptoLastSep x = [].
Proof.
  intros H. unfold uptoLastSep.
  rewrite (dropWhile_all _ (rev x) (noSlash_notSlash _ (noSlash_rev x H))).
  reflexivity.
Qed.

Lemma uptoLastSep_after_slash pre x :
  noSlash x -> uptoLastSep (pre ++ slash :: x) = pre ++ [slash].
Proof.
  intros H. unfold uptoLastSep.
  rewrite rev_app_distr. simpl. rewrite <- app_assoc. simpl.
  rewrite (dropWhile_stop _ (rev x) slash (rev pre)
             (noSlash_notSlash _ (noSlash_rev x H)) eq_refl).
  simpl. rewrite rev_involutive. reflexivity.
Qed.

(** [filepath.Dir] of a clean relative path drops its last name. *)
Lemma Dir_Join init x :
  Forall isName init -> isName x -> Dir (Join (init ++ [x]) slash) = pathOf init.
Proof.
  intros Hinit (_ & _ & _ & Hx). unfold Dir.
  destruct init as [| e init].
  - simpl. rewrite (uptoLastSep_noSlash x Hx). reflexivity.
  - rewrite Join_snoc by discriminate.
    rewrite (uptoLastSep_after_slash _ x Hx).
    apply Clean_Join_trailing. split; [discriminate | exact Hinit].
Qed.

Lemma Base_unfold path :
  path <> [] ->
  Base path =
  match lastElem (rev (dropWhile (fun c => Ascii.eqb c slash) (rev path))) with
  | [] => [slash]
  | b => b
  end.
Proof. destruct path; [contradiction | reflexivity]. Qed.

Lemma strip_trailing_none q c :
  c <> slash ->
  rev (dropWhile (fun c0 => Ascii.eqb c0 slash) (rev (q ++ [c]))) = q ++ [c].
Proof.
  intros Hc. rewrite rev_app_distr. simpl.
  apply Ascii.eqb_neq in Hc. rewrite Hc. simpl.
  rewrite rev_involutive. reflexivity.
Qed.

(** [filepath.Base] of a clean relative path is its last name. *)
Lemma Base_Join init x :
  Forall isName init -> isName x -> Base (Join (init ++ [x]) slash) = x.
Proof.
  intros Hinit (Hne & _ & _ & Hx).
  assert (Hlast : exists pre, Join (init ++ [x]) slash = pre ++ x /\
                              lastElem (pre ++ x) = x).
  { destruct init as [| e init].
    - exists []. split; [reflexivity | apply lastElem_noSlash; exact Hx].
    - exists (Join (e :: init) slash ++ [slash]).
      rewrite Join_snoc by discriminate. rewrite <- app_assoc. simpl.
      split; [reflexivity | apply lastElem_after_slash; exact Hx]. }
  destruct Hlast as (pre & Hj & Hl). rewrite Hj.
  destruct (exists_last Hne) as (x0 & c & Hxc).
  assert (Hc : c <> slash).
  { unfold noSlash in Hx. rewrite Hxc in Hx. apply Forall_app in Hx as [_ Hx].
    inversion Hx; assumption. }
  rewrite Base_unfold.
  2:{ rewrite Hxc. intros H. apply app_eq_nil in H as [_ H].
      apply app_eq_nil in H as [_ H]. discriminate H. }
  assert (Hstrip : rev (dropWhile (fun c0 => Ascii.eqb c0 slash) (rev (pre ++ x)))
                   = pre ++ x).
  { rewrite Hxc, app_assoc. apply strip_trailing_none. exact Hc. }
  rewrite Hstrip, Hl. destruct x; [contradiction | reflexivity].
Qed.

Lemma length_Join_names segs :
  Forall isName segs -> (length segs <= length (Join segs slash))%nat.
Proof.
  induction 1 as [| e1 segs (Hne & _) Hs IH]; [simpl; lia |].
  destruct segs as [| e2 segs].
  - simpl. destruct e1; [contradiction | simpl; lia].
  - rewrite Join_cons_cons, length_app. simpl length in *. lia.
Qed.

Lemma Join_names_not_stop segs :
  cleanNames segs -> Join segs slash <> dot /\ Join segs slash <> [slash].
Proof.
  intros Hc. split.
  - destruct Hc as [Hne H].
    destruct H as [| e1 segs (Hne1 & Hdot & _) Hs]; [contradiction |].
    destruct segs as [| e2 segs].
    + exact Hdot.
    + rewrite Join_cons_cons. intros Heq.
      apply (f_equal (@length ascii)) in Heq. rewrite length_app in Heq.
      simpl in Heq. destruct e1; [contradiction | simpl in Heq; lia].
  - destruct (Join_names_head segs Hc) as (c & rest & -> & Hcs).
    intros Heq. injection Heq as -> _. contradiction.
Qed.

(** ** [filepath.Match] on patterns without metacharacters *)

Lemma matchChunkLoop_literal chunk :
  literal chunk ->
  forall fuel s failed,
    (length chunk < fuel)%nat ->
    matchChunkLoop fuel chunk s failed
    = Some (if failed then None
            else if HasPrefix s chunk then Some (drop (length chunk) s) else None).
Proof.
  induction 1 as [| c chunk (H1 & H2 & H3 & H4) _ IH]; intros fuel s failed Hfuel.
  - destruct fuel; [simpl in Hfuel; lia |]. simpl. reflexivity.
  - destruct fuel; [simpl in Hfuel; lia |]. simpl in Hfuel. simpl.
    apply Ascii.eqb_neq in H2, H3, H4. rewrite H3, H2, H4.
    destruct failed; simpl.
    + rewrite IH by lia. reflexivity.
    + destruct s as [| d s]; simpl.
      * rewrite IH by lia. reflexivity.
      * rewrite IH by lia. simpl.
        destruct (Ascii.eqb c d); reflexivity.
Qed.

Lemma dropStars_literal c pattern :
  c <> star -> dropStars (c :: pattern) = (false, c :: pattern).
Proof. intros H. simpl. apply Ascii.eqb_neq in H. rewrite H. reflexivity. Qed.

Lemma chunkLen_literal pattern inrange :
  literal pattern -> chunkLen pattern inrange = length pattern.
Proof.
  intros H. revert inrange.
  induction H as [| c pattern (H1 & H2 & H3 & H4) _ IH]; intros inrange; simpl.
  - reflexivity.
  - apply Ascii.eqb_neq in H1, H3, H4. rewrite H4, H3, H1.
    destruct (Ascii.eqb c rbracket); rewrite IH; reflexivity.
Qed.

(** Without metacharacters [Match] is equality. *)
Lemma Match_literal pattern name :
  literal pattern -> Match pattern name = Some (bool_decide (name = pattern)).
Proof.
  intros Hlit. unfold Match.
  destruct pattern as [| c pattern].
  - simpl. f_equal. apply bool_decide_ext. reflexivity.
  - pose proof Hlit as Hlit'.
    inversion Hlit as [| c' p' (H1 & _) Hp]; subst.
    cbn [MatchLoop length]. unfold scanChunk.
    rewrite (dropStars_literal c pattern H1).
    rewrite (chunkLen_literal (c :: pattern) false Hlit').
    rewrite firstn_all, drop_all.
    cbn [andb]. rewrite (bool_decide_eq_true_2 ([] = [])) by reflexivity.
    unfold matchChunk.
    rewrite (matchChunkLoop_literal (c :: pattern) Hlit') by lia.
    destruct (HasPrefix name (c :: pattern)) eqn:Hpre.
    + destruct (drop (length (c :: pattern)) name) as [| t0 t] eqn:Hdrop.
      * rewrite (bool_decide_eq_true_2 ([] = [])) by reflexivity. simpl.
        f_equal. symmetry. apply bool_decide_eq_true_2.
        apply HasPrefix_self_and_rest. split; assumption.
      * rewrite (bool_decide_eq_false_2 (t0 :: t = [])) by discriminate. simpl.
        f_equal. symmetry. apply bool_decide_eq_false_2.
        intros ->. rewrite drop_all in Hdrop. discriminate Hdrop.
    + f_equal. symmetry. apply bool_decide_eq_false_2.
      intros ->. assert (HasPrefix (c :: pattern) (c :: pattern) = true) as Hs.
      { apply HasPrefix_spec. exists []. symmetry. apply app_nil_r. }
      congruence.
Qed.

(** ** C5: directory-scoped patterns *)

(** The loop over the parent directories, on a clean relative directory:
    some name of it matches the pattern. *)
Lemma parentsMatch_names pattern segs :
  Forall isName segs ->
  forall fuel, (length segs < fuel)%nat ->
    Scanner.parentsMatch fuel pattern (pathOf segs)
    = existsb (Scanner.matches pattern) segs.
Proof.
  induction segs as [| x init IH] using rev_ind; intros Hnames fuel Hfuel.
  - destruct fuel; [lia |]. reflexivity.
  - apply Forall_app in Hnames as [Hinit Hx].
    inversion Hx as [| x' l' Hx' _]; subst.
    rewrite length_app in Hfuel. simpl in Hfuel.
    destruct fuel; [lia |].
    assert (Hpath : pathOf (init ++ [x]) = Join (init ++ [x]) slash).
    { unfold pathOf. destruct (init ++ [x]) eqn:E; [| reflexivity].
      apply app_eq_nil in E as [_ E]. discriminate E. }
    rewrite Hpath. cbn [Scanner.parentsMatch].
    assert (Hclean : cleanNames (init ++ [x])).
    { split.
      - intros E. apply app_eq_nil in E as [_ E]. discriminate E.
      - apply Forall_app. split; [exact Hinit | constructor; [exact Hx' | constructor]]. }
    destruct (Join_names_not_stop _ Hclean) as [Hdot Hslash].
    rewrite (bool_decide_eq_false_2 _ Hdot), (bool_decide_eq_false_2 _ Hslash).
    cbn [orb].
    rewrite (Base_Join init x Hinit Hx'), (Dir_Join init x Hinit Hx').
    rewrite existsb_app. simpl. rewrite orb_false_r.
    destruct (Scanner.matches pattern x).
    + rewrite orb_true_r. reflexivity.
    + rewrite orb_false_r. apply IH; [exact Hinit | lia].
Qed.

(** [Scanner.matchPattern] on a directory-scoped pattern and a clean
    relative path, with the loop resolved to the names of the path. *)
Lemma scanner_matchPattern_directory d segs :
  cleanNames segs ->
  Scanner.matchPattern (d ++ [slash]) (Join segs slash) true
  = bool_decide (Join segs slash = d)
    || Scanner.matches d (Join segs slash)
    || HasPrefix (Join segs slash) (d ++ [slash])
    || existsb (Scanner.matches d) (removelast segs).
Proof.
  intros Hclean. pose proof Hclean as [Hne Hnames].
  unfold Scanner.matchPattern.
  rewrite HasSuffix_slash, TrimSuffix_slash. cbn [negb andb].
  destruct (bool_decide (Join segs slash = d)); [reflexivity |].
  destruct (Scanner.matches d (Join segs slash)); [reflexivity |].
  destruct (HasPrefix (Join segs slash) (d ++ [slash])); [reflexivity |].
  cbn [orb].
  destruct (exists_last Hne) as (init & x & ->).
  apply Forall_app in Hnames as [Hinit Hx].
  inversion Hx as [| x' l' Hx' _]; subst.
  rewrite (Dir_Join init x Hinit Hx'), removelast_last.
  apply parentsMatch_names; [exact Hinit |].
  pose proof (length_Join_names (init ++ [x])
                ltac:(apply Forall_app; split; [exact Hinit | exact Hx])) as Hlen.
  rewrite length_app in Hlen. simpl in Hlen. lia.
Qed.

Lemma matches_literal d name :
  literal d -> Scanner.matches d name = bool_decide (name = d).
Proof.
  intros H. unfold Scanner.matches. rewrite (Match_literal d name H).
  destruct (bool_decide (name = d)); reflexivity.
Qed.

Lemma existsb_same {A} (f g : A -> bool) l :
  (forall a, f a = g a) -> existsb f l = existsb g l.
Proof.
  intros H. induction l as [| a l IH]; simpl; [reflexivity |].
  rewrite H, IH. reflexivity.
Qed.

Lemma existsb_equal d (l : list (list ascii)) :
  existsb (fun a => bool_decide (a = d)) l = true <-> In d l.
Proof.
  rewrite existsb_exists. split.
  - intros (a & Hin & Ha). apply bool_decide_eq_true in Ha. subst a. exact Hin.
  - intros Hin. exists d. split; [exact Hin | apply bool_decide_eq_true_2; reflexivity].
Qed.

(** C5, counterexample. The pattern ["dir/"] matches the directory
    ["a/dir/b"], which neither equals ["dir"] nor starts with ["dir/"]: a
    parent directory of the path is named ["dir"].  (And the matcher of
    package utils, which has no directory flag, matches the file
    ["dir/file.txt"].) *)
Lemma directory_pattern_matches_below_a_named_parent :
  Scanner.matchPattern (str "dir/") (str "a/dir/b") true = true /\
  str "a/dir/b" <> str "dir" /\
  HasPrefix (str "a/dir/b") (str "dir/") = false /\
  Utils.matchPattern (str "dir/file.txt") (str "dir/") = true.
Proof. repeat split; try (vm_compute; reflexivity). discriminate. Qed.

(** C5, as amended. For every clean relative path [p] and every
    directory-scoped pattern [d/]: on a path that is not a directory
    [Scanner.matchPattern] returns false; on a directory it returns true
    exactly when [p] equals [d], or [p] matches [d] as a glob, or [p]
    starts with [d/], or the name of a parent directory of [p] matches
    [d]; and when [d] has no metacharacter that is: [p] is a directory
    and [p] equals [d], or [p] starts with [d/], or a parent directory
    of [p] is named [d].  The matcher of package utils takes no directory
    flag: it returns true exactly when the path equals [d] or starts
    with [d/], for files and directories alike. *)
Theorem directory_pattern_matches_directory_or_below :
  forall (d : list ascii) (segs : list (list ascii)) (isDir : bool),
    cleanNames segs ->
    let p := Join segs slash in
    (isDir = false -> Scanner.matchPattern (d ++ [slash]) p isDir = false) /\
    Scanner.matchPattern (d ++ [slash]) p true
    = bool_decide (p = d) || Scanner.matches d p || HasPrefix p (d ++ [slash])
      || existsb (Scanner.matches d) (removelast segs) /\
    (literal d ->
     (Scanner.matchPattern (d ++ [slash]) p isDir = true <->
      isDir = true /\
      (p = d \/ HasPrefix p (d ++ [slash]) = true \/ In d (removelast segs)))) /\
    Utils.matchPattern p (d ++ [slash])
    = HasPrefix p (d ++ [slash]) || bool_decide (p = d).
Proof.
  intros d segs isDir Hclean p.
  assert (Hfile : Scanner.matchPattern (d ++ [slash]) p false = false).
  { unfold Scanner.matchPattern. rewrite HasSuffix_slash. reflexivity. }
  split; [intros ->; exact Hfile |].
  split; [apply scanner_matchPattern_directory; exact Hclean |].
  split.
  - intros Hlit. destruct isDir.
    + unfold p. rewrite (scanner_matchPattern_directory d segs Hclean).
      rewrite (matches_literal d _ Hlit).
      rewrite (existsb_same _ (fun a => bool_decide (a = d)) _
                 (fun a => matches_literal d a Hlit)).
      rewrite !orb_true_iff, bool_decide_eq_true, existsb_equal.
      split.
      * intros [[[H | H] | H] | H]; split; auto.
      * intros [_ [H | [H | H]]]; auto.
    + rewrite Hfile. split; [discriminate | intros [H _]; discriminate H].
  - unfold Utils.matchPattern. rewrite HasSuffix_slash, TrimSuffix_slash. reflexivity.
Qed.

(** The names of a path as a boolean test, for the examples. *)
Lemma cleanNames_example :
  cleanNames [str "a"; str "dir"; str "b"].
Proof.
  split; [discriminate |].
  repeat constructor; try discriminate.
Qed.

(** The theorem at ["dir/"] and the directory ["a/dir/b"]: it matches,
    by the parent named ["dir"]. *)
Lemma directory_pattern_matches_directory_or_below_witness :
  Scanner.matchPattern (str "dir/") (str "a/dir/b") true = true.
Proof.
  apply (proj2 (proj1 (proj2 (proj2 (directory_pattern_matches_directory_or_below
                  (str "dir") [str "a"; str "dir"; str "b"] true cleanNames_example)))
                  ltac:(repeat constructor; discriminate))).
  split; [reflexivity |]. right. right. simpl. right. left. reflexivity.
Defined.

(** ** C6: plain patterns in package utils *)

Lemma HasPrefix_slash_noSlash c r sub :
  c <> slash -> HasPrefix (c :: r) (slash :: sub) = false.
Proof.
  intros Hc. cbn [HasPrefix].
  replace (Ascii.eqb slash c) with false; [reflexivity |].
  symmetry. apply Ascii.eqb_neq. congruence.
Qed.

Lemma Contains_skip_name e r sub :
  noSlash e -> Contains (e ++ r) (slash :: sub) = Contains r (slash :: sub).
Proof.
  induction 1 as [| c e Hc _ IH]; [reflexivity |].
  change ((c :: e) ++ r) with (c :: (e ++ r)).
  cbn [Contains]. rewrite (HasPrefix_slash_noSlash c _ sub Hc). exact IH.
Qed.

Lemma Contains_at_slash r sub :
  Contains (slash :: r) (slash :: sub) = HasPrefix r sub || Contains r (slash :: sub).
Proof. reflexivity. Qed.

Lemma Contains_nil sub : Contains [] (slash :: sub) = false.
Proof. reflexivity. Qed.

Lemma before_slash_unique a b x y :
  noSlash a -> noSlash b -> a ++ slash :: x = b ++ slash :: y -> a = b.
Proof.
  intros Ha Hb H.
  pose proof (takeWhile_stop _ a slash x (noSlash_notSlash a Ha) eq_refl) as Ta.
  pose proof (takeWhile_stop _ b slash y (noSlash_notSlash b Hb) eq_refl) as Tb.
  rewrite H in Ta. congruence.
Qed.

Lemma after_slash_unique a b x y :
  noSlash a -> noSlash b -> x ++ slash :: a = y ++ slash :: b -> a = b.
Proof.
  intros Ha Hb H.
  pose proof (lastElem_after_slash x a Ha) as La.
  pose proof (lastElem_after_slash y b Hb) as Lb.
  rewrite H in La. congruence.
Qed.

Lemma noSlash_no_slash_inside a x y : noSlash a -> a <> x ++ slash :: y.
Proof.
  intros Ha ->. unfold noSlash in Ha. apply Forall_app in Ha as [_ Ha].
  inversion Ha as [| c l Hc _]; subst. contradiction.
Qed.

(** The pattern followed by a separator starts the rest of the path: the
    next name is the pattern and is not the last. *)
Lemma HasPrefix_Join_name pat e2 es :
  noSlash pat -> Forall isName (e2 :: es) ->
  HasPrefix (Join (e2 :: es) slash) (pat ++ [slash]) = true <-> e2 = pat /\ es <> [].
Proof.
  intros Hpat Hnames. inversion Hnames as [| x l (_ & _ & _ & He2) Hes]; subst.
  rewrite HasPrefix_spec. split.
  - intros [r Hr]. rewrite <- app_assoc in Hr. cbn [app] in Hr.
    destruct es as [| e3 es].
    + cbn [Join] in Hr. exfalso. eapply noSlash_no_slash_inside; [exact He2 | exact Hr].
    + rewrite Join_cons_cons in Hr.
      split; [eapply before_slash_unique; eassumption | discriminate].
  - intros [-> Hne]. destruct es as [| e3 es]; [contradiction |].
    rewrite Join_cons_cons. exists (Join (e3 :: es) slash).
    rewrite <- app_assoc. reflexivity.
Qed.

(** ["/pattern/"] occurs in a clean relative path exactly when a name that
    is neither the first nor the last is the pattern. *)
Lemma Contains_Join_middle pat segs :
  noSlash pat -> Forall isName segs ->
  Contains (Join segs slash) (slash :: pat ++ [slash]) = true
  <-> In pat (removelast (tl segs)).
Proof.
  intros Hpat Hnames. induction Hnames as [| e1 segs He1 Hs IH].
  - simpl. split; [discriminate | contradiction].
  - destruct segs as [| e2 es].
    + simpl Join. destruct He1 as (_ & _ & _ & Hn).
      rewrite <- (app_nil_r e1), (Contains_skip_name e1 [] _ Hn), Contains_nil.
      simpl. split; [discriminate | contradiction].
    + rewrite Join_cons_cons. destruct He1 as (_ & _ & _ & Hn).
      rewrite (Contains_skip_name e1 _ _ Hn), Contains_at_slash, orb_true_iff.
      rewrite (HasPrefix_Join_name pat e2 es Hpat Hs), IH.
      cbn [tl]. destruct es as [| e3 es].
      * simpl. split; [intros [[_ H] | H]; [congruence | contradiction] | contradiction].
      * change (removelast (e2 :: e3 :: es)) with (e2 :: removelast (e3 :: es)).
        simpl In. split.
        -- intros [[-> _] | H]; [left; reflexivity | right; exact H].
        -- intros [-> | H]; [left; split; [reflexivity | discriminate] | right; exact H].
Qed.

(** ["/pattern"] ends a clean relative path exactly when its last name is
    the pattern and is not its only name. *)
Lemma HasSuffix_Join_last pat init x :
  noSlash pat -> Forall isName init -> isName x ->
  HasSuffix (Join (init ++ [x]) slash) (slash :: pat) = true <-> init <> [] /\ x = pat.
Proof.
  intros Hpat Hinit (_ & _ & _ & Hx). unfold HasSuffix.
  rewrite HasPrefix_spec. split.
  - intros [r Hr]. apply (f_equal (@rev ascii)) in Hr.
    rewrite rev_involutive, rev_app_distr, rev_involutive in Hr.
    destruct init as [| e init].
    + simpl in Hr. exfalso. eapply noSlash_no_slash_inside; [exact Hx | exact Hr].
    + rewrite Join_snoc in Hr by discriminate.
      split; [discriminate | eapply after_slash_unique; eassumption].
  - intros [Hne ->]. rewrite Join_snoc by exact Hne.
    exists (rev (Join init slash)). rewrite rev_app_distr. reflexivity.
Qed.

Lemma Join_is_name pat segs :
  noSlash pat -> cleanNames segs -> Join segs slash = pat <-> segs = [pat].
Proof.
  intros Hpat [Hne Hnames]. split.
  - intros H. destruct segs as [| e1 [| e2 es]]; [contradiction | |].
    + simpl in H. subst. reflexivity.
    + rewrite Join_cons_cons in H. exfalso.
      eapply noSlash_no_slash_inside; [exact Hpat | symmetry; exact H].
  - intros ->. reflexivity.
Qed.

Lemma plainName_noSlash pattern : plainName pattern -> noSlash pattern.
Proof. intros H. eapply Forall_impl; [exact H |]. intros c [_ Hc]. exact Hc. Qed.

Lemma plainName_branch pattern :
  plainName pattern -> HasSuffix pattern [slash] = false /\ Contains pattern [star] = false.
Proof.
  intros H. split.
  - unfold HasSuffix. change (rev [slash]) with [slash].
    destruct (rev pattern) as [| c r] eqn:E; [reflexivity |].
    assert (Hin : In c pattern) by (apply in_rev; rewrite E; left; reflexivity).
    unfold plainName in H. rewrite List.Forall_forall in H.
    destruct (H c Hin) as [_ Hc].
    apply HasPrefix_slash_noSlash. exact Hc.
  - induction H as [| c pattern [Hc _] _ IH]; [reflexivity |].
    cbn [Contains HasPrefix]. rewrite IH.
    replace (Ascii.eqb star c) with false; [reflexivity |].
    symmetry. apply Ascii.eqb_neq. congruence.
Qed.

(** What [utils.matchPattern] computes for a plain pattern on a clean
    relative path: the path is the pattern, or a name of the path other
    than the first is the pattern. *)
Lemma utils_plain_pattern pattern segs :
  plainName pattern -> cleanNames segs ->
  Utils.matchPattern (Join segs slash) pattern = true
  <-> segs = [pattern] \/ In pattern (tl segs).
Proof.
  intros Hplain Hclean. pose proof Hclean as [Hne Hnames].
  pose proof (plainName_noSlash pattern Hplain) as Hns.
  destruct (plainName_branch pattern Hplain) as [Hb1 Hb2].
  unfold Utils.matchPattern. rewrite Hb1, Hb2.
  rewrite !orb_true_iff, bool_decide_eq_true.
  rewrite (Join_is_name pattern segs Hns Hclean).
  rewrite (Contains_Join_middle pattern segs Hns Hnames).
  destruct (exists_last Hne) as (init & x & ->).
  pose proof Hnames as Hn'. apply Forall_app in Hn' as [Hinit Hx].
  inversion Hx as [| x' l' Hx' _]; subst.
  rewrite (HasSuffix_Join_last pattern init x Hns Hinit Hx').
  destruct init as [| e1 init]; simpl.
  - split; [intros [[H | [H _]] | H]; [left; exact H | contradiction | contradiction]
           | intros [H | H]; [left; left; exact H | contradiction]].
  - change (match init ++ [x] with [] => [] | _ :: _ => removelast (init ++ [x]) end)
      with (removelast (init ++ [x])).
    rewrite removelast_last. split.
    + intros [[H | [_ ->]] | H].
      * left. exact H.
      * right. apply in_or_app. right. left. reflexivity.
      * right. apply in_or_app. left. exact H.
    + intros [H | H]; [left; left; exact H |].
      apply in_app_or in H as [H | [-> | []]].
      * right. exact H.
      * left. right. split; [discriminate | reflexivity].
Qed.

(** C6. The plain pattern ["node_modules"] and the path
    ["node_modules/x.js"], whose first name is the pattern:
    [utils.matchPattern] returns false, although it returns true when the
    same name is deeper in the path (["lib/node_modules/x.js"]) and
    although [Scanner.matchPattern] returns true on the same input; the
    test for a parent directory, [strings.Contains(path, "/"+pattern+"/")],
    cannot see a first name, which has no separator before it.  (By
    [utils_plain_pattern] this is the one case it misses.  The matcher of
    the scanner in turn does not match a path that ends with
    ["/" + pattern].) *)
Theorem utils_plain_pattern_misses_first_name :
  let pattern := str "node_modules" in
  Split (str "node_modules/x.js") slash = [pattern; str "x.js"] /\
  Utils.matchPattern (str "node_modules/x.js") pattern = false /\
  Utils.matchPattern (str "lib/node_modules/x.js") pattern = true /\
  Scanner.matchPattern pattern (str "node_modules/x.js") false = true /\
  Utils.matchPattern (str "a/b") (str "b") = true /\
  Scanner.matchPattern (str "b") (str "a/b") false = false.
Proof. vm_compute. repeat split. Qed.

(** * Further properties of the code *)

(** ** The inventory of a scan *)

Lemma scanFn_keeps_filters md5hex tree s rootPath path info err st :
  Forall (passedFilters s rootPath) (Scanner.files st) ->
  Forall (passedFilters s rootPath)
    (Scanner.files (snd (Scanner.scanFn md5hex tree s rootPath path info err st))).
Proof.
  intros HI. unfold Scanner.scanFn.
  destruct err as [e |]; [exact HI |].
  destruct info as [info |]; [| exact HI].
  destruct (Rel rootPath path) as [relPath |] eqn:HRel; [| exact HI].
  destruct (bool_decide (relPath = dot)) eqn:Hdot; [exact HI |].
  apply bool_decide_eq_false in Hdot.
  destruct (Scanner.shouldIgnore s relPath (IsDir info)) eqn:Hign;
    [destruct (IsDir info); exact HI |].
  destruct (Scanner.shouldInclude s relPath (IsDir info)) eqn:Hinc; [| exact HI].
  assert (Hnew : forall hash,
             passedFilters s rootPath
               {| Scanner.Path := relPath; Scanner.AbsolutePath := path;
                  Scanner.Size := Size info; Scanner.ModTime := ModTime info;
                  Scanner.IsDir := IsDir info; Scanner.MD5Hash := hash |}).
  { intros hash. repeat split; assumption. }
  cbn [negb].
  destruct (negb (IsDir info) && (0 <? Size info)).
  - destruct (Scanner.calculateMD5 md5hex tree rootPath path) as [hash | e]; simpl;
      (apply Forall_app; split; [exact HI | constructor; [apply Hnew | constructor]]).
  - simpl. apply Forall_app; split; [exact HI | constructor; [apply Hnew | constructor]].
Qed.

Lemma Scan_files_invariant md5hex tree s rootPath (P : Scanner.FileInfo -> Prop) :
  (forall path info err st,
      Forall P (Scanner.files st) ->
      Forall P (Scanner.files (snd (Scanner.scanFn md5hex tree s rootPath path info err st)))) ->
  forall fs out,
    Scanner.Scan md5hex tree s rootPath = (Ok fs, out) -> Forall P fs.
Proof.
  intros Hstep fs out HScan. unfold Scanner.Scan in HScan.
  pose proof (Walk_rel (Scanner.scanFn md5hex tree s rootPath)
                (fun a b => Forall P (Scanner.files a) -> Forall P (Scanner.files b))
                (fun _ H => H)
                (fun _ _ _ H1 H2 H => H2 (H1 H))
                Hstep rootPath tree
                {| Scanner.files := []; Scanner.stdout := [] |}) as HW.
  destruct (Walk _ rootPath tree _) as [[u | e] st]; [| discriminate HScan].
  injection HScan as <- _. apply HW. constructor.
Qed.

(** X1. Every entry of the inventory of a scan passed the filters: its path
    is the path of the file relative to the root and is not the root
    itself, no ignore pattern matches it, and it is a directory or matches
    an include pattern (or there is no include pattern). *)
Theorem scan_entries_passed_the_filters :
  forall (md5hex : list ascii -> list ascii) (tree : Node) (s : Scanner.Scanner)
         (rootPath : list ascii) (fs : list Scanner.FileInfo)
         (out : list Scanner.Output),
    Scanner.Scan md5hex tree s rootPath = (Ok fs, out) ->
    forall f, In f fs ->
      Rel rootPath (Scanner.AbsolutePath f) = Some (Scanner.Path f) /\
      Scanner.Path f <> dot /\
      Scanner.shouldIgnore s (Scanner.Path f) (Scanner.IsDir f) = false /\
      (Scanner.includePatterns s = [] \/ Scanner.IsDir f = true \/
       exists pattern, In pattern (Scanner.includePatterns s) /\
                       Scanner.matchPattern pattern (Scanner.Path f) false = true).
Proof.
  intros md5hex tree s rootPath fs out HScan f Hin.
  pose proof (Scan_files_invariant md5hex tree s rootPath (passedFilters s rootPath)
                (scanFn_keeps_filters md5hex tree s rootPath) fs out HScan) as HF.
  rewrite List.Forall_forall in HF. destruct (HF f Hin) as (H1 & H2 & H3 & H4).
  repeat split; try assumption.
  unfold Scanner.shouldInclude in H4.
  destruct (Scanner.includePatterns s) as [| p0 ps] eqn:Hinc; [left; reflexivity |].
  right. simpl length in H4. cbn [Nat.eqb] in H4.
  destruct (Scanner.IsDir f); [left; reflexivity | right].
  apply existsb_exists in H4 as (pattern & Hp & Hm). exists pattern. auto.
Qed.

(** The theorem on [mixedTree] with the include pattern [*.txt]: the
    inventory is [a.txt], the directory [b] and [b/c.txt]. *)
Lemma scan_entries_passed_the_filters_witness :
  Forall (fun f =>
            Scanner.Path f <> dot /\
            Scanner.shouldIgnore (Scanner.NewScanner [] [str "*.txt"]) (Scanner.Path f)
              (Scanner.IsDir f) = false)
         (match fst (Scanner.Scan sampleDigest mixedTree
                       (Scanner.NewScanner [] [str "*.txt"]) (str "/root")) with
          | Ok fs => fs | Fail _ => [] end).
Proof.
  apply List.Forall_forall. intros f Hin.
  destruct (scan_entries_passed_the_filters sampleDigest mixedTree
              (Scanner.NewScanner [] [str "*.txt"]) (str "/root")
              _ (snd (Scanner.Scan sampleDigest mixedTree
                        (Scanner.NewScanner [] [str "*.txt"]) (str "/root")))
              ltac:(vm_compute; reflexivity) f Hin) as (_ & H2 & H3 & _).
  split; assumption.
Defined.

Lemma scanFn_keeps_hash_of_bytes md5hex tree s rootPath path info err st :
  Forall (hashOfBytes md5hex tree rootPath) (Scanner.files st) ->
  Forall (hashOfBytes md5hex tree rootPath)
    (Scanner.files (snd (Scanner.scanFn md5hex tree s rootPath path info err st))).
Proof.
  intros HI. unfold Scanner.scanFn.
  destruct err as [e |]; [exact HI |].
  destruct info as [info |]; [| exact HI].
  destruct (Rel rootPath path) as [relPath |]; [| exact HI].
  destruct (bool_decide (relPath = dot)); [exact HI |].
  destruct (Scanner.shouldIgnore s relPath (IsDir info));
    [destruct (IsDir info); exact HI |].
  destruct (negb (Scanner.shouldInclude s relPath (IsDir info))); [exact HI |].
  destruct (negb (IsDir info) && (0 <? Size info)).
  - unfold Scanner.calculateMD5.
    destruct (readFile rootPath tree path) as [data | e] eqn:Hread; simpl.
    + apply Forall_app. split; [exact HI |].
      constructor; [| constructor]. intros _. exists data. simpl. auto.
    + apply Forall_app. split; [exact HI |].
      constructor; [| constructor]. intros H. simpl in H. congruence.
  - simpl. apply Forall_app. split; [exact HI |].
    constructor; [| constructor]. intros H. simpl in H. congruence.
Qed.

Lemma scanFn_keeps_warnings md5hex tree s rootPath path info err st :
  warningsRecorded st ->
  warningsRecorded (snd (Scanner.scanFn md5hex tree s rootPath path info err st)).
Proof.
  intros HI. unfold Scanner.scanFn.
  destruct err as [e |]; [exact HI |].
  destruct info as [info |]; [| exact HI].
  destruct (Rel rootPath path) as [relPath |]; [| exact HI].
  destruct (bool_decide (relPath = dot)); [exact HI |].
  destruct (Scanner.shouldIgnore s relPath (IsDir info));
    [destruct (IsDir info); exact HI |].
  destruct (negb (Scanner.shouldInclude s relPath (IsDir info))); [exact HI |].
  assert (Hmore : forall f,
             warningsRecorded {| Scanner.files := Scanner.files st ++ [f];
                                 Scanner.stdout := Scanner.stdout st |}).
  { intros f p e Hin. destruct (HI p e Hin) as (f0 & Hf0 & Hrest).
    exists f0. split; [apply in_or_app; left; exact Hf0 | exact Hrest]. }
  destruct (negb (IsDir info) && (0 <? Size info)) eqn:Hguard.
  - apply andb_true_iff in Hguard as [Hdir _]. apply negb_true_iff in Hdir.
    destruct (Scanner.calculateMD5 md5hex tree rootPath path) as [hash | e]; simpl.
    + apply Hmore.
    + intros p e' Hin. simpl in Hin. apply in_app_or in Hin as [Hin | [Heq | []]].
      * destruct (HI p e' Hin) as (f0 & Hf0 & Hrest).
        exists f0. split; [simpl; apply in_or_app; left; exact Hf0 | exact Hrest].
      * injection Heq as <- <-. eexists. split.
        -- simpl. apply in_or_app. right. left. reflexivity.
        -- simpl. auto.
  - simpl. apply Hmore.
Qed.

(** X2. The hash of an entry of a scan, when it is not empty, is the digest
    of the bytes read from the file at the absolute path of the entry; and
    every warning the scan printed names a file that is in the inventory
    with the empty hash, so a file whose hashing failed is never lost. *)
Theorem scan_hash_is_digest_of_file :
  forall (md5hex : list ascii -> list ascii) (tree : Node) (s : Scanner.Scanner)
         (rootPath : list ascii) (fs : list Scanner.FileInfo)
         (out : list Scanner.Output),
    Scanner.Scan md5hex tree s rootPath = (Ok fs, out) ->
    (forall f, In f fs -> Scanner.MD5Hash f <> [] ->
       exists data, readFile rootPath tree (Scanner.AbsolutePath f) = Ok data /\
                    Scanner.MD5Hash f = md5hex data) /\
    (forall path e, In (Scanner.WarnMD5Failed path e) out ->
       exists f, In f fs /\ Scanner.AbsolutePath f = path /\
                 Scanner.MD5Hash f = [] /\ Scanner.IsDir f = false).
Proof.
  intros md5hex tree s rootPath fs out HScan. split.
  - intros f Hin.
    pose proof (Scan_files_invariant md5hex tree s rootPath
                  (hashOfBytes md5hex tree rootPath)
                  (scanFn_keeps_hash_of_bytes md5hex tree s rootPath) fs out HScan) as HF.
    rewrite List.Forall_forall in HF. exact (HF f Hin).
  - unfold Scanner.Scan in HScan.
    pose proof (Walk_rel (Scanner.scanFn md5hex tree s rootPath)
                  (fun a b => warningsRecorded a -> warningsRecorded b)
                  (fun _ H => H)
                  (fun _ _ _ H1 H2 H => H2 (H1 H))
                  (scanFn_keeps_warnings md5hex tree s rootPath) rootPath tree
                  {| Scanner.files := []; Scanner.stdout := [] |}) as HW.
    destruct (Walk _ rootPath tree _) as [[u | e] st]; [| discriminate HScan].
    injection HScan as <- <-. apply HW. intros p e H. destruct H.
Qed.

(** The theorem on [mixedTree]: the warning for [/root/b/c.txt] has its
    entry. *)
Lemma scan_hash_is_digest_of_file_witness :
  exists f,
    In f (match fst (Scanner.Scan sampleDigest mixedTree
                       (Scanner.NewScanner [] []) (str "/root")) with
          | Ok fs => fs | Fail _ => [] end) /\
    Scanner.AbsolutePath f = str "/root/b/c.txt" /\
    Scanner.MD5Hash f = [] /\ Scanner.IsDir f = false.
Proof.
  refine (proj2 (scan_hash_is_digest_of_file sampleDigest mixedTree
                   (Scanner.NewScanner [] []) (str "/root") _ _
                   ltac:(vm_compute; reflexivity))
                (str "/root/b/c.txt")
                (Errorf "failed to open file" (OsError (str "/root/b/c.txt"))) _).
  vm_compute. left. reflexivity.
Defined.

Lemma filter_all_true {A} (f : A -> bool) l :
  Forall (fun x => f x = true) l -> List.filter f l = l.
Proof.
  induction 1 as [| x l Hx _ IH]; simpl; [reflexivity |]. rewrite Hx, IH. reflexivity.
Qed.

(** X3. [FilterByPatterns] with the patterns of the scanner leaves the
    inventory of a scan as it is: the scan has already applied both
    filters. *)
Theorem FilterByPatterns_keeps_a_scan :
  forall (md5hex : list ascii -> list ascii) (tree : Node) (s : Scanner.Scanner)
         (rootPath : list ascii) (fs : list Scanner.FileInfo)
         (out : list Scanner.Output),
    Scanner.Scan md5hex tree s rootPath = (Ok fs, out) ->
    Scanner.FilterByPatterns fs (Scanner.ignorePatterns s) (Scanner.includePatterns s)
    = fs.
Proof.
  intros md5hex tree s rootPath fs out HScan.
  pose proof (Scan_files_invariant md5hex tree s rootPath (passedFilters s rootPath)
                (scanFn_keeps_filters md5hex tree s rootPath) fs out HScan) as HF.
  unfold Scanner.FilterByPatterns. apply filter_all_true.
  eapply Forall_impl; [exact HF |].
  intros f (_ & _ & Hign & Hinc). simpl.
  destruct s as [ign inc]. simpl in *. rewrite Hign, Hinc. reflexivity.
Qed.

(** The theorem on [mixedTree] with an ignore and an include pattern. *)
Lemma FilterByPatterns_keeps_a_scan_witness :
  let s := Scanner.NewScanner [str "b/"] [str "*.txt"] in
  let fs := match fst (Scanner.Scan sampleDigest mixedTree s (str "/root")) with
            | Ok fs => fs | Fail _ => [] end in
  map Scanner.Path fs = [str "a.txt"] /\
  Scanner.FilterByPatterns fs [str "b/"] [str "*.txt"] = fs.
Proof.
  split; [vm_compute; reflexivity |].
  apply (FilterByPatterns_keeps_a_scan sampleDigest mixedTree
           (Scanner.NewScanner [str "b/"] [str "*.txt"]) (str "/root") _
           (snd (Scanner.Scan sampleDigest mixedTree
                   (Scanner.NewScanner [str "b/"] [str "*.txt"]) (str "/root")))).
  vm_compute. reflexivity.
Defined.

(** ** Entries a pass leaves out *)






(** ** Plain patterns *)

(** [Scanner.matchPattern] on a pattern that does not end with a separator
    and a clean relative path, with the loop resolved to the names of the
    path. *)
Lemma scanner_matchPattern_names d segs isDir :
  HasSuffix d [slash] = false -> cleanNames segs ->
  Scanner.matchPattern d (Join segs slash) isDir
  = bool_decide (Join segs slash = d)
    || Scanner.matches d (Join segs slash)
    || HasPrefix (Join segs slash) (d ++ [slash])
    || existsb (Scanner.matches d) (removelast segs).
Proof.
  intros Hd Hclean. pose proof Hclean as [Hne Hnames].
  unfold Scanner.matchPattern. rewrite Hd. cbn [andb].
  destruct (bool_decide (Join segs slash = d)); [reflexivity |].
  destruct (Scanner.matches d (Join segs slash)); [reflexivity |].
  destruct (HasPrefix (Join segs slash) (d ++ [slash])); [reflexivity |].
  cbn [orb].
  destruct (exists_last Hne) as (init & x & ->).
  apply Forall_app in Hnames as [Hinit Hx].
  inversion Hx as [| x' l' Hx' _]; subst.
  rewrite (Dir_Join init x Hinit Hx'), removelast_last.
  apply parentsMatch_names; [exact Hinit |].
  pose proof (length_Join_names (init ++ [x])
                ltac:(apply Forall_app; split; [exact Hinit | exact Hx])) as Hlen.
  rewrite length_app in Hlen. simpl in Hlen. lia.
Qed.

(** X6. For a pattern without metacharacters that does not end with a
    separator, and a clean relative path, [Scanner.matchPattern] returns
    true exactly when the path is the pattern, or starts with the pattern
    followed by a separator, or a parent directory of the path is named
    as the pattern; the directory flag plays no part, and a path below the
    root is not matched by its last name. *)
Theorem scanner_plain_pattern :
  forall (d : list ascii) (segs : list (list ascii)) (isDir : bool),
    literal d -> HasSuffix d [slash] = false -> cleanNames segs ->
    (Scanner.matchPattern d (Join segs slash) isDir = true <->
     Join segs slash = d \/ HasPrefix (Join segs slash) (d ++ [slash]) = true \/
     In d (removelast segs)).
Proof.
  intros d segs isDir Hlit Hd Hclean.
  rewrite (scanner_matchPattern_names d segs isDir Hd Hclean).
  rewrite (matches_literal d _ Hlit).
  rewrite (existsb_same _ (fun a => bool_decide (a = d)) _
             (fun a => matches_literal d a Hlit)).
  rewrite !orb_true_iff, bool_decide_eq_true, existsb_equal.
  split.
  - intros [[[H | H] | H] | H]; auto.
  - intros [H | [H | H]]; auto.
Qed.

(** The theorem at the pattern [node_modules]: a path below a directory of
    that name matches, a file of that name in a subdirectory does not. *)
Lemma scanner_plain_pattern_witness :
  Scanner.matchPattern (str "node_modules") (str "lib/node_modules/x.js") false = true /\
  Scanner.matchPattern (str "node_modules") (str "lib/node_modules") false <> true.
Proof.
  assert (Hlit : literal (str "node_modules")) by (repeat constructor; discriminate).
  split.
  - apply (proj2 (scanner_plain_pattern (str "node_modules")
                    [str "lib"; str "node_modules"; str "x.js"] false Hlit eq_refl
                    ltac:(split; [discriminate | repeat constructor; discriminate]))).
    right. right. simpl. right. left. reflexivity.
  - intros H.
    apply (proj1 (scanner_plain_pattern (str "node_modules")
                    [str "lib"; str "node_modules"] false Hlit eq_refl
                    ltac:(split; [discriminate | repeat constructor; discriminate]))) in H.
    destruct H as [H | [H | H]]; [discriminate H | discriminate H |].
    simpl in H. destruct H as [H | []]. discriminate H.
Defined.

(** X7. For a plain pattern (no wildcard, no separator) and a clean
    relative path, [utils.matchPattern] returns true exactly when the path
    is the pattern or a name of the path other than the first is the
    pattern: the last name of a path below the root, or a directory other
    than the top-level one. *)
Theorem utils_plain_pattern_matches_later_names :
  forall (pattern : list ascii) (segs : list (list ascii)),
    plainName pattern -> cleanNames segs ->
    (Utils.matchPattern (Join segs slash) pattern = true
     <-> segs = [pattern] \/ In pattern (tl segs)).
Proof. exact utils_plain_pattern. Qed.

(** The theorem at a path with the pattern as its first name only, and at
    a path with it deeper. *)
Lemma utils_plain_pattern_matches_later_names_witness :
  Utils.matchPattern (str "lib/node_modules/x.js") (str "node_modules") = true /\
  Utils.matchPattern (str "node_modules/x.js") (str "node_modules") <> true.
Proof.
  assert (Hp : plainName (str "node_modules")) by (repeat constructor; discriminate).
  split.
  - apply (proj2 (utils_plain_pattern_matches_later_names (str "node_modules")
                    [str "lib"; str "node_modules"; str "x.js"] Hp
                    ltac:(split; [discriminate | repeat constructor; discriminate]))).
    right. simpl. left. reflexivity.
  - intros H.
    apply (proj1 (utils_plain_pattern_matches_later_names (str "node_modules")
                    [str "node_modules"; str "x.js"] Hp
                    ltac:(split; [discriminate | repeat constructor; discriminate]))) in H.
    destruct H as [H | H]; [discriminate H |].
    simpl in H. destruct H as [H | []]. discriminate H.
Defined.

(** ** Patterns [*suffix] *)

Lemma matchChunk_literal chunk s :
  literal chunk ->
  matchChunk chunk s
  = Some (if HasPrefix s chunk then Some (drop (length chunk) s) else None).
Proof.
  intros H. unfold matchChunk. rewrite (matchChunkLoop_literal chunk H) by lia.
  reflexivity.
Qed.

Lemma starSkip_literal lit :
  literal lit ->
  forall name,
    starSkip lit name true = Some (if skipFinds lit name then Some [] else None).
Proof.
  intros Hlit. induction name as [| c name IH]; [reflexivity |].
  cbn [starSkip skipFinds].
  destruct (Ascii.eqb c slash); [reflexivity |].
  rewrite (matchChunk_literal lit name Hlit).
  destruct (HasPrefix name lit) eqn:Hpre.
  - destruct (drop (length lit) name) as [| t0 t] eqn:Hdrop.
    + assert (Heq : name = lit) by (apply HasPrefix_self_and_rest; split; assumption).
      rewrite (bool_decide_eq_true_2 _ Heq).
      rewrite (bool_decide_eq_true_2 ([] = [])) by reflexivity. reflexivity.
    + rewrite (bool_decide_eq_false_2 (t0 :: t = [])) by discriminate.
      cbn [andb negb]. rewrite IH.
      rewrite (bool_decide_eq_false_2 (name = lit)); [reflexivity |].
      intros ->. rewrite drop_all in Hdrop. discriminate Hdrop.
  - rewrite IH. rewrite (bool_decide_eq_false_2 (name = lit)); [reflexivity |].
    intros ->.
    assert (HasPrefix lit lit = true) as Hs
        by (apply HasPrefix_spec; exists []; symmetry; apply app_nil_r).
    congruence.
Qed.

(** [Match] on a star followed by bytes without metacharacters. *)
Lemma Match_star_literal lit name :
  literal lit -> lit <> [] ->
  Match (star :: lit) name = Some (bool_decide (name = lit) || skipFinds lit name).
Proof.
  intros Hlit Hne. unfold Match.
  destruct lit as [| c lit]; [contradiction |].
  pose proof Hlit as Hlit'. inversion Hlit as [| c' l' (H1 & _) _]; subst.
  cbn [MatchLoop length]. unfold scanChunk.
  assert (Hds : dropStars (star :: c :: lit) = (true, c :: lit)).
  { change (dropStars (star :: c :: lit))
      with (if Ascii.eqb star star then (true, snd (dropStars (c :: lit)))
            else (false, star :: c :: lit)).
    rewrite Ascii.eqb_refl, (dropStars_literal c lit H1). reflexivity. }
  rewrite Hds. rewrite (chunkLen_literal (c :: lit) false Hlit').
  rewrite firstn_all, drop_all.
  rewrite (bool_decide_eq_false_2 (c :: lit = [])) by discriminate.
  cbn [andb]. rewrite (bool_decide_eq_true_2 ([] = [])) by reflexivity.
  rewrite (matchChunk_literal (c :: lit) name Hlit').
  rewrite (starSkip_literal (c :: lit) Hlit' name).
  assert (Hend : MatchLoop (S (length lit)) [] [] = Some true) by reflexivity.
  destruct (HasPrefix name (c :: lit)) eqn:Hpre.
  - destruct (drop (length (c :: lit)) name) as [| t0 t] eqn:Hdrop.
    + assert (Heq : name = c :: lit) by (apply HasPrefix_self_and_rest; split; assumption).
      rewrite (bool_decide_eq_true_2 _ Heq).
      rewrite (bool_decide_eq_true_2 ([] = [])) by reflexivity.
      cbn [orb negb]. exact Hend.
    + rewrite (bool_decide_eq_false_2 (t0 :: t = [])) by discriminate.
      cbn [orb negb].
      rewrite (bool_decide_eq_false_2 (name = c :: lit)).
      2:{ intros ->. rewrite drop_all in Hdrop. discriminate Hdrop. }
      cbn [orb]. destruct (skipFinds (c :: lit) name); [exact Hend | reflexivity].
  - rewrite (bool_decide_eq_false_2 (name = c :: lit)).
    2:{ intros ->.
        assert (HasPrefix (c :: lit) (c :: lit) = true) as Hs
            by (apply HasPrefix_spec; exists []; symmetry; apply app_nil_r).
        congruence. }
    cbn [orb]. destruct (skipFinds (c :: lit) name); [exact Hend | reflexivity].
Qed.

Lemma skipFinds_spec lit name :
  bool_decide (name = lit) || skipFinds lit name = true
  <-> exists pre, name = pre ++ lit /\ noSlash pre.
Proof.
  rewrite orb_true_iff, bool_decide_eq_true. split.
  - intros [-> | H]; [exists []; split; [reflexivity | constructor] |].
    revert H. induction name as [| c name IH]; [discriminate |].
    cbn [skipFinds]. destruct (Ascii.eqb c slash) eqn:Ec; [discriminate |].
    apply Ascii.eqb_neq in Ec.
    rewrite orb_true_iff, bool_decide_eq_true. intros [-> | H].
    + exists [c]. split; [reflexivity | repeat constructor; exact Ec].
    + destruct (IH H) as (pre & -> & Hpre).
      exists (c :: pre). split; [reflexivity | constructor; assumption].
  - intros (pre & -> & Hpre). induction Hpre as [| c pre Hc _ IH].
    + left. reflexivity.
    + right. cbn [app skipFinds]. apply Ascii.eqb_neq in Hc. rewrite Hc.
      rewrite orb_true_iff, bool_decide_eq_true. exact IH.
Qed.

Lemma matches_star_literal lit name :
  literal lit -> lit <> [] ->
  (Scanner.matches (star :: lit) name = true
   <-> exists pre, name = pre ++ lit /\ noSlash pre).
Proof.
  intros Hlit Hne. unfold Scanner.matches.
  rewrite (Match_star_literal lit name Hlit Hne), <- skipFinds_spec.
  destruct (bool_decide (name = lit) || skipFinds lit name);
    split; congruence.
Qed.

Lemma noSlash_HasSuffix l : noSlash l -> HasSuffix l [slash] = false.
Proof.
  intros H. unfold HasSuffix. change (rev [slash]) with [slash].
  destruct (rev l) as [| c r] eqn:E; [reflexivity |].
  assert (Hin : In c l) by (apply in_rev; rewrite E; left; reflexivity).
  unfold noSlash in H. rewrite List.Forall_forall in H.
  apply HasPrefix_slash_noSlash. exact (H c Hin).
Qed.

Lemma noSlash_app_l pre l : noSlash (pre ++ l) -> noSlash pre.
Proof. unfold noSlash. intros H. apply Forall_app in H as [H _]. exact H. Qed.

(** X8. For a pattern [*suffix], the suffix without metacharacters and
    separators, and a clean relative path, [utils.matchPattern] returns
    true exactly when the last name of the path ends with the suffix, at
    any depth. *)
Theorem utils_star_pattern_matches_last_name :
  forall (lit : list ascii) (init : list (list ascii)) (x : list ascii),
    literal lit -> lit <> [] -> noSlash lit ->
    Forall isName init -> isName x ->
    (Utils.matchPattern (Join (init ++ [x]) slash) (star :: lit) = true
     <-> exists pre, x = pre ++ lit).
Proof.
  intros lit init x Hlit Hne Hns Hinit Hx.
  unfold Utils.matchPattern.
  assert (Hstar : noSlash (star :: lit)) by (constructor; [discriminate | exact Hns]).
  rewrite (noSlash_HasSuffix _ Hstar).
  assert (Hc : Contains (star :: lit) [star] = true).
  { cbn [Contains HasPrefix]. rewrite Ascii.eqb_refl. reflexivity. }
  rewrite Hc, (Base_Join init x Hinit Hx).
  rewrite (Match_star_literal lit x Hlit Hne), skipFinds_spec.
  destruct Hx as (_ & _ & _ & Hxs). split.
  - intros (pre & Hp & _). exists pre. exact Hp.
  - intros (pre & Hp). exists pre. split; [exact Hp |].
    rewrite Hp in Hxs. eapply noSlash_app_l; exact Hxs.
Qed.

(** The theorem at [*.tmp]: a [.tmp] file in a subdirectory matches, a
    directory whose name ends with [.tmp] does not make the files below it
    match. *)
Lemma utils_star_pattern_matches_last_name_witness :
  Utils.matchPattern (str "work/notes.tmp") (str "*.tmp") = true /\
  Utils.matchPattern (str "cache.tmp/notes.txt") (str "*.tmp") <> true.
Proof.
  assert (Hlit : literal (str ".tmp")) by (repeat constructor; discriminate).
  assert (Hns : noSlash (str ".tmp")) by (repeat constructor; discriminate).
  split.
  - apply (proj2 (utils_star_pattern_matches_last_name (str ".tmp") [str "work"]
                    (str "notes.tmp") Hlit ltac:(discriminate) Hns
                    ltac:(repeat constructor; discriminate)
                    ltac:(repeat constructor; discriminate))).
    exists (str "notes"). reflexivity.
  - intros H.
    apply (proj1 (utils_star_pattern_matches_last_name (str ".tmp") [str "cache.tmp"]
                    (str "notes.txt") Hlit ltac:(discriminate) Hns
                    ltac:(repeat constructor; discriminate)
                    ltac:(repeat constructor; discriminate))) in H.
    destruct H as (pre & Hp).
    apply (f_equal (@rev ascii)) in Hp. rewrite rev_app_distr in Hp.
    discriminate Hp.
Defined.

Lemma Join_below_first e init x :
  exists rest, Join ((e :: init) ++ [x]) slash = e ++ slash :: rest.
Proof.
  destruct init as [| e2 init]; cbn [app].
  - exists x. reflexivity.
  - exists (Join (e2 :: init ++ [x]) slash). reflexivity.
Qed.

Lemma noSlash_not_below a x r : noSlash (a ++ slash :: r) -> noSlash x -> False.
Proof.
  unfold noSlash. intros H _. apply Forall_app in H as [_ H].
  inversion H as [| c l Hc _]; subst. apply Hc. reflexivity.
Qed.

Lemma noSlash_single_name init x :
  noSlash (Join (init ++ [x]) slash) -> init = [].
Proof.
  destruct init as [| e init]; [reflexivity |].
  destruct (Join_below_first e init x) as (rest & ->). intros H.
  exfalso. exact (noSlash_not_below e [] rest H ltac:(constructor)).
Qed.

Lemma noSlash_app a b : noSlash a -> noSlash b -> noSlash (a ++ b).
Proof. unfold noSlash. intros Ha Hb. apply Forall_app. split; assumption. Qed.

(** X9. For a pattern [*suffix], the suffix without metacharacters and
    separators, and a clean relative path, [Scanner.matchPattern] returns
    true exactly when the path is one name that ends with the suffix, or
    the name of one of its parent directories ends with the suffix: a file
    below the root whose own name ends with the suffix does not match by
    that. *)
Theorem scanner_star_pattern_matches_top_name_or_parent :
  forall (lit : list ascii) (init : list (list ascii)) (x : list ascii) (isDir : bool),
    literal lit -> lit <> [] -> noSlash lit ->
    Forall isName init -> isName x ->
    (Scanner.matchPattern (star :: lit) (Join (init ++ [x]) slash) isDir = true
     <-> (init = [] /\ exists pre, x = pre ++ lit)
         \/ (exists a pre, In a init /\ a = pre ++ lit)).
Proof.
  intros lit init x isDir Hlit Hne Hns Hinit Hx.
  assert (Hstar : noSlash (star :: lit)) by (constructor; [discriminate | exact Hns]).
  assert (Hclean : cleanNames (init ++ [x])).
  { split; [intros E; apply app_eq_nil in E as [_ E]; discriminate E |].
    apply Forall_app. split; [exact Hinit | constructor; [exact Hx | constructor]]. }
  rewrite (scanner_matchPattern_names (star :: lit) (init ++ [x]) isDir
             (noSlash_HasSuffix _ Hstar) Hclean).
  rewrite removelast_last.
  rewrite !orb_true_iff, bool_decide_eq_true, existsb_exists, HasPrefix_spec.
  rewrite (matches_star_literal lit _ Hlit Hne).
  pose proof Hx as (_ & _ & _ & Hxs).
  split.
  - intros [[[Hp | (pre & Hp & Hpre)] | (r & Hp)] | (a & Ha & Hm)].
    + assert (Hi : init = []).
      { apply (noSlash_single_name init x). rewrite Hp. exact Hstar. }
      subst init. left. split; [reflexivity |]. exists [star]. exact Hp.
    + assert (Hi : init = []).
      { apply (noSlash_single_name init x). rewrite Hp.
        apply noSlash_app; assumption. }
      subst init. left. split; [reflexivity |]. exists pre. exact Hp.
    + destruct init as [| e init].
      * exfalso. cbn [app Join] in Hp. rewrite Hp, <- app_assoc in Hxs.
        exact (noSlash_not_below (star :: lit) [] r Hxs ltac:(constructor)).
      * right. destruct (Join_below_first e init x) as (rest & Hj).
        rewrite Hj, <- app_assoc in Hp. cbn [app] in Hp.
        assert (He : e = star :: lit).
        { inversion Hinit as [| e' l' (_ & _ & _ & Hes) _]; subst.
          exact (before_slash_unique e (star :: lit) rest r Hes Hstar Hp). }
        exists e, [star]. split; [left; reflexivity | exact He].
    + right. apply (matches_star_literal lit a Hlit Hne) in Hm as (pre & Hp & _).
      exists a, pre. split; assumption.
  - intros [(-> & pre & Hp) | (a & pre & Ha & Hp)].
    + left. left. right. exists pre. split; [exact Hp |].
      rewrite Hp in Hxs. exact (noSlash_app_l _ _ Hxs).
    + right. exists a. split; [exact Ha |].
      apply (matches_star_literal lit a Hlit Hne). exists pre. split; [exact Hp |].
      rewrite List.Forall_forall in Hinit.
      destruct (Hinit a Ha) as (_ & _ & _ & Has).
      rewrite Hp in Has. exact (noSlash_app_l _ _ Has).
Qed.

(** The theorem at [*.tmp]: a [.tmp] file below the root does not match,
    a file below a directory whose name ends with [.tmp] does. *)
Lemma scanner_star_pattern_matches_top_name_or_parent_witness :
  Scanner.matchPattern (str "*.tmp") (str "work/notes.tmp") false <> true /\
  Scanner.matchPattern (str "*.tmp") (str "cache.tmp/notes.txt") false = true.
Proof.
  assert (Hlit : literal (str ".tmp")) by (repeat constructor; discriminate).
  assert (Hns : noSlash (str ".tmp")) by (repeat constructor; discriminate).
  split.
  - intros H.
    apply (proj1 (scanner_star_pattern_matches_top_name_or_parent (str ".tmp")
                    [str "work"] (str "notes.tmp") false Hlit ltac:(discriminate) Hns
                    ltac:(repeat constructor; discriminate)
                    ltac:(repeat constructor; discriminate))) in H.
    destruct H as [(H & _) | (a & pre & [<- | []] & Hp)]; [discriminate H |].
    apply (f_equal (@rev ascii)) in Hp. rewrite rev_app_distr in Hp.
    discriminate Hp.
  - apply (proj2 (scanner_star_pattern_matches_top_name_or_parent (str ".tmp")
                    [str "cache.tmp"] (str "notes.txt") false Hlit ltac:(discriminate) Hns
                    ltac:(repeat constructor; discriminate)
                    ltac:(repeat constructor; discriminate))).
    right. exists (str "cache.tmp"), (str "cache"). split; [left |]; reflexivity.
Defined.

(** ** The debounce filter and the channel *)

Lemma sendEvent_passed now e fw :
  Watcher.debounced now e fw = false ->
  (length (Watcher.events fw) < Watcher.eventsCap)%nat ->
  Watcher.sendEvent now e fw
  = {| Watcher.events := Watcher.events fw ++ [e];
       Watcher.debounceMap := <[Watcher.Name e := Watcher.Time e]> (Watcher.debounceMap fw);
       Watcher.debounce := Watcher.debounce fw;
       Watcher.warnings := Watcher.warnings fw |}.
Proof.
  intros Hd Hroom. unfold Watcher.sendEvent. rewrite Hd.
  apply Nat.ltb_lt in Hroom. rewrite Hroom. reflexivity.
Qed.

Lemma sendEvent_dropped now e fw :
  Watcher.debounced now e fw = false ->
  (Watcher.eventsCap <= length (Watcher.events fw))%nat ->
  Watcher.sendEvent now e fw
  = {| Watcher.events := Watcher.events fw;
       Watcher.debounceMap := <[Watcher.Name e := Watcher.Time e]> (Watcher.debounceMap fw);
       Watcher.debounce := Watcher.debounce fw;
       Watcher.warnings := Watcher.warnings fw ++ [Watcher.Name e] |}.
Proof.
  intros Hd Hfull. unfold Watcher.sendEvent. rewrite Hd.
  apply Nat.ltb_ge in Hfull. rewrite Hfull. reflexivity.
Qed.

(** X10. An event that finds the channel full is dropped with a warning,
    and it still starts the debounce window of its path: an event for the
    same path sent within the window after it is suppressed as well, also
    when the consumer has made room in between, so that neither reaches the
    consumer. *)
Theorem full_channel_drop_starts_the_window :
  forall (fw : Watcher.FileWatcher) (e1 e2 : Watcher.FileEvent) (now1 now2 : Z),
    Watcher.Name e2 = Watcher.Name e1 ->
    Watcher.debounced now1 e1 fw = false ->
    (Watcher.eventsCap <= length (Watcher.events fw))%nat ->
    now2 - Watcher.Time e1 < Watcher.debounce fw ->
    let fw1 := Watcher.sendEvent now1 e1 fw in
    Watcher.events fw1 = Watcher.events fw /\
    Watcher.warnings fw1 = Watcher.warnings fw ++ [Watcher.Name e1] /\
    Watcher.sendEvent now2 e2 fw1 = fw1 /\
    (forall e fw1', Watcher.receive fw1 = Some (e, fw1') ->
       Watcher.sendEvent now2 e2 fw1' = fw1').
Proof.
  intros fw e1 e2 now1 now2 Hname Hfresh Hfull Hwin fw1.
  unfold fw1. rewrite (sendEvent_dropped now1 e1 fw Hfresh Hfull).
  split; [reflexivity |]. split; [reflexivity |]. split.
  - unfold Watcher.sendEvent, Watcher.debounced. cbn.
    rewrite Hname, lookup_insert_eq.
    apply Z.ltb_lt in Hwin. rewrite Hwin. reflexivity.
  - intros e fw1' Hrecv. unfold Watcher.receive in Hrecv. cbn in Hrecv.
    destruct (Watcher.events fw) as [| e0 rest]; [discriminate Hrecv |].
    injection Hrecv as _ <-.
    unfold Watcher.sendEvent, Watcher.debounced. cbn.
    rewrite Hname, lookup_insert_eq.
    apply Z.ltb_lt in Hwin. rewrite Hwin. reflexivity.
Qed.

(** The theorem at a channel that holds a hundred events: a change of
    [/src/a.txt] and a second one a second later are both lost. *)
Lemma full_channel_drop_starts_the_window_witness :
  Watcher.events
    (Watcher.sendEvent 1000000100 (modifiedAt 1000000000)
       (Watcher.sendEvent 100 (modifiedAt 0) (watcherHolding 100)))
  = Watcher.events (watcherHolding 100).
Proof.
  destruct (full_channel_drop_starts_the_window (watcherHolding 100)
              (modifiedAt 0) (modifiedAt 1000000000) 100 1000000100
              eq_refl eq_refl ltac:(vm_compute; reflexivity)
              ltac:(vm_compute; reflexivity)) as (H1 & _ & H3 & _).
  rewrite H3. exact H1.
Defined.

(** X11. The debounce window of a path runs from the last event that was
    let through: an event suppressed inside the window does not extend it,
    and an event for the path sent a full window or more after the first
    is let through.  With room for two events, the first and the third of
    three events reach the channel. *)
Theorem suppressed_event_does_not_extend_the_window :
  forall (fw : Watcher.FileWatcher) (e1 e2 e3 : Watcher.FileEvent) (now1 now2 now3 : Z),
    Watcher.Name e2 = Watcher.Name e1 ->
    Watcher.Name e3 = Watcher.Name e1 ->
    Watcher.debounced now1 e1 fw = false ->
    (S (length (Watcher.events fw)) < Watcher.eventsCap)%nat ->
    now2 - Watcher.Time e1 < Watcher.debounce fw ->
    Watcher.debounce fw <= now3 - Watcher.Time e1 ->
    Watcher.events
      (Watcher.sendEvent now3 e3
         (Watcher.sendEvent now2 e2 (Watcher.sendEvent now1 e1 fw)))
    = Watcher.events fw ++ [e1; e3].
Proof.
  intros fw e1 e2 e3 now1 now2 now3 Hn2 Hn3 Hfresh Hroom Hin Hout.
  rewrite (sendEvent_passed now1 e1 fw Hfresh) by lia.
  assert (Hd2 : forall fw1,
             Watcher.debounceMap fw1 !! Watcher.Name e1 = Some (Watcher.Time e1) ->
             Watcher.debounce fw1 = Watcher.debounce fw ->
             Watcher.sendEvent now2 e2 fw1 = fw1).
  { intros fw1 Hl Hw. unfold Watcher.sendEvent, Watcher.debounced.
    rewrite Hn2, Hl, Hw. apply Z.ltb_lt in Hin. rewrite Hin. reflexivity. }
  rewrite Hd2; [| cbn; apply lookup_insert_eq | reflexivity].
  rewrite sendEvent_passed.
  - cbn. rewrite <- app_assoc. reflexivity.
  - unfold Watcher.debounced. cbn. rewrite Hn3, lookup_insert_eq.
    apply Z.ltb_ge. exact Hout.
  - cbn. rewrite length_app. cbn. lia.
Qed.

(** The theorem at a new watcher: changes of [/src/a.txt] at 0, 1.5 and
    2.5 seconds. *)
Lemma suppressed_event_does_not_extend_the_window_witness :
  Watcher.events
    (Watcher.sendEvent 2500000100 (modifiedAt 2500000000)
       (Watcher.sendEvent 1500000100 (modifiedAt 1500000000)
          (Watcher.sendEvent 100 (modifiedAt 0) Watcher.NewFileWatcher)))
  = [modifiedAt 0; modifiedAt 2500000000].
Proof.
  apply (suppressed_event_does_not_extend_the_window Watcher.NewFileWatcher
           (modifiedAt 0) (modifiedAt 1500000000) (modifiedAt 2500000000)
           100 1500000100 2500000100 eq_refl eq_refl eq_refl
           ltac:(unfold Watcher.eventsCap; simpl; lia) ltac:(vm_compute; reflexivity)
           ltac:(vm_compute; discriminate)).
Defined.

(** X12. The filter is per path: events for two different paths, neither
    debounced and with room for both, are both put on the channel, however
    close in time they are. *)
Theorem debounce_is_per_path :
  forall (fw : Watcher.FileWatcher) (e1 e2 : Watcher.FileEvent) (now1 now2 : Z),
    Watcher.Name e2 <> Watcher.Name e1 ->
    Watcher.debounced now1 e1 fw = false ->
    Watcher.debounced now2 e2 fw = false ->
    (S (length (Watcher.events fw)) < Watcher.eventsCap)%nat ->
    Watcher.events (Watcher.sendEvent now2 e2 (Watcher.sendEvent now1 e1 fw))
    = Watcher.events fw ++ [e1; e2].
Proof.
  intros fw e1 e2 now1 now2 Hne H1 H2 Hroom.
  rewrite (sendEvent_passed now1 e1 fw H1) by lia.
  rewrite sendEvent_passed.
  - cbn. rewrite <- app_assoc. reflexivity.
  - unfold Watcher.debounced in *. cbn.
    rewrite lookup_insert_ne by congruence. exact H2.
  - cbn. rewrite length_app. cbn. lia.
Qed.

(** The theorem at a new watcher: [/src/a.txt] and [/src/b.txt] change at
    the same time. *)
Lemma debounce_is_per_path_witness :
  Watcher.events
    (Watcher.sendEvent 100 (writeAt (str "/src/b.txt") 0)
       (Watcher.sendEvent 100 (writeAt (str "/src/a.txt") 0) Watcher.NewFileWatcher))
  = [writeAt (str "/src/a.txt") 0; writeAt (str "/src/b.txt") 0].
Proof.
  apply (debounce_is_per_path Watcher.NewFileWatcher
           (writeAt (str "/src/a.txt") 0) (writeAt (str "/src/b.txt") 0) 100 100
           ltac:(discriminate) eq_refl eq_refl
           ltac:(unfold Watcher.eventsCap; simpl; lia)).
Defined.

(** ** Directory patterns in package utils *)

(** X13. For a pattern [name/], the name without a separator, and a clean
    relative path, [utils.matchPattern] returns true exactly when the
    first name of the path is the name: the directory at the root of the
    tree and everything below it, and no directory of that name deeper in
    the tree. *)
Theorem utils_directory_pattern_matches_from_the_root :
  forall (d : list ascii) (segs : list (list ascii)),
    noSlash d -> cleanNames segs ->
    (Utils.matchPattern (Join segs slash) (d ++ [slash]) = true
     <-> exists rest, segs = d :: rest).
Proof.
  intros d segs Hd [Hne Hnames]. unfold Utils.matchPattern.
  rewrite HasSuffix_slash, TrimSuffix_slash.
  rewrite orb_true_iff, HasPrefix_spec, bool_decide_eq_true.
  destruct segs as [| e [| e2 es]]; [contradiction | |].
  - cbn [Join]. inversion Hnames as [| ? ? (_ & _ & _ & He) _]; subst. split.
    + intros [(r & H) | H].
      * exfalso. rewrite <- app_assoc in H. cbn [app] in H.
        exact (noSlash_no_slash_inside e d r He H).
      * exists []. rewrite H. reflexivity.
    + intros (rest & H). injection H as -> _. right. reflexivity.
  - rewrite Join_cons_cons.
    inversion Hnames as [| ? ? (_ & _ & _ & He) _]; subst. split.
    + intros [(r & H) | H].
      * rewrite <- app_assoc in H. cbn [app] in H.
        apply before_slash_unique in H; [| assumption | assumption].
        exists (e2 :: es). rewrite H. reflexivity.
      * exfalso. symmetry in H.
        exact (noSlash_no_slash_inside d e _ Hd H).
    + intros (rest & H). injection H as -> _. left.
      exists (Join (e2 :: es) slash). rewrite <- app_assoc. reflexivity.
Qed.

(** The theorem at [.git/]: the configuration file of the repository at
    the root matches, the one of a repository in a subdirectory does
    not. *)
Lemma utils_directory_pattern_matches_from_the_root_witness :
  Utils.matchPattern (str ".git/config") (str ".git/") = true /\
  Utils.matchPattern (str "vendor/lib/.git/config") (str ".git/") <> true.
Proof.
  assert (Hd : noSlash (str ".git")) by (repeat constructor; discriminate).
  split.
  - apply (proj2 (utils_directory_pattern_matches_from_the_root (str ".git")
                    [str ".git"; str "config"] Hd
                    ltac:(split; [discriminate | repeat constructor; discriminate]))).
    eexists. reflexivity.
  - intros H.
    apply (proj1 (utils_directory_pattern_matches_from_the_root (str ".git")
                    [str "vendor"; str "lib"; str ".git"; str "config"] Hd
                    ltac:(split; [discriminate | repeat constructor; discriminate]))) in H.
    destruct H as (rest & H). discriminate H.
Defined.

(** ** Runs in which no request fails *)

Lemma FormatInt_not_empty n : FormatInt n <> [].
Proof.
  unfold FormatInt, NilZero.string_of_uint.
  destruct (Nat.to_uint n); discriminate.
Qed.

Lemma find_app {A} (f : A -> bool) l1 l2 :
  List.find f (l1 ++ l2)
  = match List.find f l1 with Some x => Some x | None => List.find f l2 end.
Proof.
  induction l1 as [| a l1 IH]; [reflexivity |].
  cbn [app List.find]. destruct (f a); [reflexivity | exact IH].
Qed.

Lemma find_none_all {A} (f : A -> bool) l :
  Forall (fun x => f x = false) l -> List.find f l = None.
Proof.
  induction 1 as [| a l Ha _ IH]; [reflexivity |].
  cbn [List.find]. rewrite Ha. exact IH.
Qed.

(** A lookup that found an object finds it again when objects are added
    after it. *)
Lemma lookupID_grows name parent foldersOnly w w' new :
  objects w' = objects w ++ new ->
  lookupID name parent foldersOnly w <> [] ->
  lookupID name parent foldersOnly w' = lookupID name parent foldersOnly w.
Proof.
  unfold lookupID. intros -> H. rewrite find_app.
  destruct (List.find _ (objects w)); [reflexivity | contradiction].
Qed.

(** A lookup that came back empty stays empty when the objects added have
    other names. *)
Lemma lookupID_other_names name parent foldersOnly w w' new :
  objects w' = objects w ++ new ->
  Forall (fun o => ObjName o <> name) new ->
  lookupID name parent foldersOnly w = [] ->
  lookupID name parent foldersOnly w' = [].
Proof.
  unfold lookupID. intros -> Hnew H. rewrite find_app.
  destruct (List.find _ (objects w)); [exact H |].
  rewrite find_none_all; [reflexivity |].
  eapply Forall_impl; [exact Hnew |]. intros o Ho. cbn.
  rewrite (bool_decide_eq_false_2 _ Ho). reflexivity.
Qed.

(** In a store whose objects have identifiers, an empty lookup means that
    no object answers, and the folder then added is the one found. *)
Lemma lookupID_created name parent w w' new id :
  wellFormed w ->
  lookupID name parent true w = [] ->
  objects w' = (objects w ++ [folderObject id name parent]) ++ new ->
  lookupID name parent true w' = id.
Proof.
  unfold lookupID. intros Hwf H ->. rewrite !find_app.
  destruct (List.find _ (objects w)) as [o |] eqn:E.
  - exfalso. apply find_some in E as [Hin _].
    unfold wellFormed in Hwf. rewrite List.Forall_forall in Hwf.
    exact (Hwf o Hin H).
  - cbn [List.find folderObject ObjName Parent IsFolder ID].
    rewrite !bool_decide_eq_true_2 by reflexivity. reflexivity.
Qed.

Lemma resolve_grows w w' new parts :
  objects w' = objects w ++ new ->
  forall parentID id,
    resolve w parts parentID = Some id -> resolve w' parts parentID = Some id.
Proof.
  intros Hobj. induction parts as [| part rest IH]; intros parentID id H.
  - exact H.
  - cbn [resolve] in *. destruct (bool_decide (part = [])); [exact (IH _ _ H) |].
    destruct (bool_decide (lookupID part parentID true w = [])) eqn:E;
      [discriminate H |].
    apply bool_decide_eq_false in E.
    rewrite (lookupID_grows _ _ _ w w' new Hobj E).
    rewrite (bool_decide_eq_false_2 _ E). exact (IH _ _ H).
Qed.

Lemma resolve_same_objects w w' parts :
  objects w' = objects w ->
  forall parentID, resolve w' parts parentID = resolve w parts parentID.
Proof.
  intros Hobj. induction parts as [| part rest IH]; intros parentID; [reflexivity |].
  cbn [resolve]. unfold lookupID. rewrite Hobj.
  destruct (bool_decide (part = [])); [apply IH |].
  destruct (bool_decide _); [reflexivity | apply IH].
Qed.

Lemma request_ok c w : faults w = [] -> request c w = (Ok tt, asked c w).
Proof. intros H. unfold request, asked. rewrite H. reflexivity. Qed.

Lemma onlyRead_refl w : faults w = [] -> onlyRead w w.
Proof.
  intros H. repeat split; try assumption.
  exists []. split; [symmetry; apply app_nil_r | constructor].
Qed.

Lemma onlyRead_asked c w w' :
  mutating c = false -> onlyRead (asked c w) w' -> onlyRead w w'.
Proof.
  intros Hc (H1 & H2 & H3 & H4 & new & H5 & H6).
  repeat split; try assumption.
  exists ((c, None) :: new). split.
  - rewrite H5. cbn [asked calls]. rewrite <- app_assoc. reflexivity.
  - constructor; [split; [exact Hc | reflexivity] | exact H6].
Qed.

Lemma onlyRead_trans w1 w2 w3 : onlyRead w1 w2 -> onlyRead w2 w3 -> onlyRead w1 w3.
Proof.
  intros (A1 & A2 & A3 & A4 & n1 & A5 & A6) (B1 & B2 & B3 & B4 & n2 & B5 & B6).
  repeat split; try congruence.
  exists (n1 ++ n2). split.
  - rewrite B5, A5, app_assoc. reflexivity.
  - apply Forall_app. split; assumption.
Qed.

(** ** The folders of the Google Drive client *)

Lemma gdrive_findFolder_ok name parentID w :
  faults w = [] ->
  Gdrive.findFolder name parentID w
  = (Ok (lookupID name parentID true w), asked (FilesList name parentID true) w).
Proof.
  intros H. unfold Gdrive.findFolder, bind. rewrite (request_ok _ w H). reflexivity.
Qed.


Lemma gdrive_createFolderParts_skip part rest parentID w :
  part = [] ->
  Gdrive.createFolderParts (part :: rest) parentID w
  = Gdrive.createFolderParts rest parentID w.
Proof.
  intros H. cbn [Gdrive.createFolderParts].
  rewrite (bool_decide_eq_true_2 _ H). reflexivity.
Qed.

Lemma gdrive_createFolderParts_found part rest parentID w :
  part <> [] -> faults w = [] -> lookupID part parentID true w <> [] ->
  Gdrive.createFolderParts (part :: rest) parentID w
  = Gdrive.createFolderParts rest (lookupID part parentID true w)
      (asked (FilesList part parentID true) w).
Proof.
  intros Hp Hf Hl. cbn [Gdrive.createFolderParts].
  rewrite (bool_decide_eq_false_2 _ Hp). unfold bind at 1, wrap at 1.
  rewrite (gdrive_findFolder_ok part parentID w Hf).
  rewrite (bool_decide_eq_false_2 _ Hl). reflexivity.
Qed.

Lemma gdrive_createFolderParts_new part rest parentID w :
  part <> [] -> faults w = [] -> lookupID part parentID true w = [] ->
  exists w1,
    Gdrive.createFolderParts (part :: rest) parentID w
    = Gdrive.createFolderParts rest (FormatInt (nextID w)) w1 /\
    faults w1 = [] /\
    objects w1 = objects w ++ [folderObject (FormatInt (nextID w)) part parentID] /\
    calls w1 = calls w ++ [(FilesList part parentID true, None);
                           (FilesCreateFolder part parentID, None)].
Proof.
  intros Hp Hf Hl. cbn [Gdrive.createFolderParts].
  rewrite (bool_decide_eq_false_2 _ Hp). unfold bind at 1, wrap at 1.
  rewrite (gdrive_findFolder_ok part parentID w Hf).
  rewrite (bool_decide_eq_true_2 _ Hl). cbn [negb].
  unfold bind at 1, wrap at 1, bind at 1.
  rewrite (request_ok (FilesCreateFolder part parentID)
             (asked (FilesList part parentID true) w) eq_refl).
  unfold addObject at 1. unfold bind at 1, logPrintf at 1, modify at 1.
  eexists. split; [reflexivity |].
  split; [reflexivity |]. split; [reflexivity |].
  cbn. rewrite <- app_assoc. reflexivity.
Qed.

(** [createFolder] when no request fails: it succeeds, it adds folders
    with names of the path only, and afterwards the path leads to a
    folder. *)
Lemma gdrive_createFolderParts_creates parts :
  forall parentID w,
    faults w = [] ->
    exists w' new,
      Gdrive.createFolderParts parts parentID w = (Ok tt, w') /\
      faults w' = [] /\
      objects w' = objects w ++ new /\
      Forall (fun o => In (ObjName o) parts /\ IsFolder o = true) new /\
      (wellFormed w ->
       wellFormed w' /\ exists id, resolve w' parts parentID = Some id).
Proof.
  induction parts as [| part rest IH]; intros parentID w Hf.
  - exists w, []. split; [reflexivity |]. split; [exact Hf |].
    split; [symmetry; apply app_nil_r |]. split; [constructor |].
    intros Hwf. split; [exact Hwf | exists parentID; reflexivity].
  - destruct (decide (part = [])) as [Hp | Hp].
    { rewrite (gdrive_createFolderParts_skip part rest parentID w Hp).
      destruct (IH parentID w Hf) as (w' & new & H1 & H2 & H3 & H4 & H5).
      exists w', new. repeat (split; [assumption |]). split.
      - eapply Forall_impl; [exact H4 |]. intros o [Ho Hd]. split; [right; exact Ho | exact Hd].
      - intros Hwf. destruct (H5 Hwf) as (H6 & id & H7). split; [exact H6 |].
        exists id. cbn [resolve]. rewrite (bool_decide_eq_true_2 _ Hp). exact H7. }
    destruct (decide (lookupID part parentID true w = [])) as [Hl | Hl].
    + destruct (gdrive_createFolderParts_new part rest parentID w Hp Hf Hl)
        as (w1 & -> & Hf1 & Ho1 & _).
      destruct (IH (FormatInt (nextID w)) w1 Hf1) as (w' & new & H1 & H2 & H3 & H4 & H5).
      exists w', (folderObject (FormatInt (nextID w)) part parentID :: new).
      split; [exact H1 |]. split; [exact H2 |]. split.
      { rewrite H3, Ho1, <- app_assoc. reflexivity. }
      split.
      { constructor; [split; [left; reflexivity | reflexivity] |].
        eapply Forall_impl; [exact H4 |]. intros o [Ho Hd]. split; [right; exact Ho | exact Hd]. }
      intros Hwf.
      assert (Hwf1 : wellFormed w1).
      { unfold wellFormed. rewrite Ho1. apply Forall_app. split; [exact Hwf |].
        constructor; [apply FormatInt_not_empty | constructor]. }
      destruct (H5 Hwf1) as (H6 & id & H7). split; [exact H6 |].
      exists id. cbn [resolve]. rewrite (bool_decide_eq_false_2 _ Hp).
      rewrite (lookupID_created part parentID w w' new (FormatInt (nextID w)) Hwf Hl)
        by (rewrite H3, Ho1; reflexivity).
      rewrite (bool_decide_eq_false_2 _ (FormatInt_not_empty _)). exact H7.
    + rewrite (gdrive_createFolderParts_found part rest parentID w Hp Hf Hl).
      destruct (IH (lookupID part parentID true w) (asked (FilesList part parentID true) w)
                  eq_refl) as (w' & new & H1 & H2 & H3 & H4 & H5).
      exists w', new. repeat (split; [assumption |]). split.
      { eapply Forall_impl; [exact H4 |]. intros o [Ho Hd]. split; [right; exact Ho | exact Hd]. }
      intros Hwf. destruct (H5 Hwf) as (H6 & id & H7). split; [exact H6 |].
      exists id. cbn [resolve]. rewrite (bool_decide_eq_false_2 _ Hp).
      rewrite (lookupID_grows part parentID true w w' new H3 Hl).
      rewrite (bool_decide_eq_false_2 _ Hl). exact H7.
Qed.

(** [createFolder] on a path that already leads to a folder only reads. *)
Lemma gdrive_createFolderParts_existing parts :
  forall parentID w id,
    faults w = [] -> resolve w parts parentID = Some id ->
    exists w', Gdrive.createFolderParts parts parentID w = (Ok tt, w') /\ onlyRead w w'.
Proof.
  induction parts as [| part rest IH]; intros parentID w id Hf Hr.
  - exists w. split; [reflexivity | apply onlyRead_refl; exact Hf].
  - cbn [resolve] in Hr. destruct (decide (part = [])) as [Hp | Hp].
    { rewrite (gdrive_createFolderParts_skip part rest parentID w Hp).
      rewrite (bool_decide_eq_true_2 _ Hp) in Hr. exact (IH _ _ _ Hf Hr). }
    rewrite (bool_decide_eq_false_2 _ Hp) in Hr.
    destruct (decide (lookupID part parentID true w = [])) as [Hl | Hl].
    { rewrite (bool_decide_eq_true_2 _ Hl) in Hr. discriminate Hr. }
    rewrite (bool_decide_eq_false_2 _ Hl) in Hr.
    rewrite (gdrive_createFolderParts_found part rest parentID w Hp Hf Hl).
    destruct (IH (lookupID part parentID true w) (asked (FilesList part parentID true) w)
                id eq_refl) as (w' & H1 & H2).
    { rewrite (resolve_same_objects w (asked _ w)); [exact Hr | reflexivity]. }
    exists w'. split; [exact H1 |].
    eapply onlyRead_asked; [| exact H2]. reflexivity.
Qed.

(** X14. When no request fails and every object of the store has an
    identifier, [createFolder] succeeds, and creating the same path again
    succeeds by lookups alone: the second call sends no request that
    changes the store and leaves the objects as they are. *)
Theorem gdrive_createFolder_again_creates_nothing :
  forall (c : Gdrive.Client) (folderPath : list ascii) (w : World),
    faults w = [] -> wellFormed w ->
    exists w1 w2,
      Gdrive.createFolder c folderPath w = (Ok tt, w1) /\
      Gdrive.createFolder c folderPath w1 = (Ok tt, w2) /\
      objects w2 = objects w1 /\
      mutatingCalls w1 w2 = [].
Proof.
  intros c folderPath w Hf Hwf. unfold Gdrive.createFolder.
  destruct (gdrive_createFolderParts_creates (Split folderPath slash) (Gdrive.rootID c) w Hf)
    as (w1 & new & H1 & H2 & _ & _ & H5).
  destruct (H5 Hwf) as (_ & id & Hr).
  destruct (gdrive_createFolderParts_existing (Split folderPath slash) (Gdrive.rootID c)
              w1 id H2 Hr) as (w2 & H6 & Ho & _ & _ & _ & new2 & Hc & Hm).
  exists w1, w2. repeat (split; [assumption |]).
  apply (mutatingCalls_reads w1 w2 new2 Hc).
  eapply Forall_impl; [exact Hm |]. intros x [Hx _]. exact Hx.
Qed.

(** The theorem for [docs/2024] on an empty store. *)
Lemma gdrive_createFolder_again_creates_nothing_witness :
  exists w1 w2,
    Gdrive.createFolder gdriveClient (str "docs/2024") emptyWorld = (Ok tt, w1) /\
    Gdrive.createFolder gdriveClient (str "docs/2024") w1 = (Ok tt, w2) /\
    objects w2 = objects w1 /\
    mutatingCalls w1 w2 = [].
Proof.
  apply (gdrive_createFolder_again_creates_nothing gdriveClient (str "docs/2024")
           emptyWorld eq_refl ltac:(constructor)).
Defined.

(** ** A destination path of the Google Drive client *)

Lemma Split_noSlash sg : noSlash sg -> Split sg slash = [sg].
Proof.
  induction 1 as [| c sg Hc _ IH]; [reflexivity |].
  cbn [Split]. apply Ascii.eqb_neq in Hc. rewrite Hc, IH. reflexivity.
Qed.

Lemma Split_Join segs :
  segs <> [] -> Forall noSlash segs -> Split (Join segs slash) slash = segs.
Proof.
  intros Hne H. induction H as [| e1 segs H1 Hs IH]; [contradiction |].
  destruct segs as [| e2 segs].
  - cbn [Join]. apply Split_noSlash. exact H1.
  - rewrite Join_cons_cons, (Split_noSlash_then e1 _ H1), IH by discriminate.
    reflexivity.
Qed.

Lemma Join_app a b :
  a <> [] -> b <> [] ->
  Join a slash ++ slash :: Join b slash = Join (a ++ b) slash.
Proof.
  intros Ha Hb. induction a as [| e1 a IH]; [contradiction |].
  destruct a as [| e2 a].
  - cbn [Join app]. destruct b as [| f b]; [contradiction |]. reflexivity.
  - rewrite Join_cons_cons.
    change ((e1 :: e2 :: a) ++ b) with (e1 :: e2 :: (a ++ b)).
    rewrite Join_cons_cons, <- app_assoc. cbn [app]. f_equal. f_equal.
    apply IH. discriminate.
Qed.

Lemma Clean_Join segs : cleanNames segs -> Clean (Join segs slash) = Join segs slash.
Proof.
  intros Hc. destruct (Join_names_head segs Hc) as (c & rest & Hj & Hcs).
  destruct Hc as [Hne Hnames]. unfold Clean.
  rewrite Hj. rewrite <- Hj.
  apply Ascii.eqb_neq in Hcs. rewrite Hcs.
  rewrite (Split_Join segs Hne (isName_noSlash segs Hnames)).
  rewrite (fold_cleanStep_names false segs Hnames), app_nil_r, rev_involutive.
  destruct segs; [contradiction | reflexivity].
Qed.

Lemma dropWhile_head f c (l : list ascii) : f c = false -> dropWhile f (c :: l) = c :: l.
Proof. intros H. cbn [dropWhile]. rewrite H. reflexivity. Qed.

Lemma Join_names_last segs :
  cleanNames segs -> exists pre c, Join segs slash = pre ++ [c] /\ c <> slash.
Proof.
  intros [Hne H]. destruct segs as [| e segs] using rev_ind; [contradiction |].
  clear IHsegs. apply Forall_app in H as [_ H].
  inversion H as [| ? ? (Hx & _ & _ & Hns) _]; subst.
  destruct e as [| c e] using rev_ind; [contradiction |]. clear IHe.
  assert (Hc : c <> slash).
  { unfold noSlash in Hns. apply Forall_app in Hns as [_ Hns].
    inversion Hns; assumption. }
  destruct segs as [| s0 segs].
  - exists e, c. split; [reflexivity | exact Hc].
  - rewrite Join_snoc by discriminate.
    exists (Join (s0 :: segs) slash ++ slash :: e), c.
    split; [| exact Hc]. rewrite <- app_assoc. reflexivity.
Qed.

Lemma Trim_Join segs : cleanNames segs -> Trim (Join segs slash) slash = Join segs slash.
Proof.
  intros Hc. unfold Trim.
  destruct (Join_names_head segs Hc) as (c & rest & Hj & Hcs).
  destruct (Join_names_last segs Hc) as (pre & d & Hl & Hds).
  assert (E : forall a, a <> slash -> Ascii.eqb slash a = false).
  { intros a Ha. apply Ascii.eqb_neq. congruence. }
  rewrite Hj, (dropWhile_head _ c rest (E c Hcs)), <- Hj, Hl.
  rewrite rev_app_distr. cbn [rev app].
  rewrite (dropWhile_head _ d (rev pre) (E d Hds)).
  cbn [rev]. rewrite rev_involutive. reflexivity.
Qed.

Lemma gdrive_getFolderIDParts_not_found part rest parentID w :
  part <> [] -> faults w = [] -> lookupID part parentID true w = [] ->
  Gdrive.getFolderIDParts (part :: rest) parentID w
  = (Fail (ErrorNew "folder not found"), asked (FilesList part parentID true) w).
Proof.
  intros Hp Hf Hl. cbn [Gdrive.getFolderIDParts].
  rewrite (bool_decide_eq_false_2 _ Hp). unfold bind at 1.
  rewrite (gdrive_findFolder_ok part parentID w Hf).
  rewrite (bool_decide_eq_true_2 _ Hl). reflexivity.
Qed.

(** X15. The Google Drive client with a destination path: [createFolder]
    creates the directory of a file from the root folder, while
    [getFolderID] looks for it below the destination path.  When the first
    folder of the destination path is not in the root folder and is not a
    name of the directory, and no request fails, the upload of a file in a
    subdirectory fails with "folder not found" after the folders were
    created: the store gains folders only. *)
Theorem gdrive_destination_path_fails_below_the_root :
  forall (tree : Node) (sourcePath : list ascii) (c : Gdrive.Client)
         (localPath : list ascii) (d0 : list ascii) (dsegs init : list (list ascii))
         (x data : list ascii) (w : World),
    Config.GoogleDriveConfig.DestinationPath (Gdrive.config c) = Join (d0 :: dsegs) slash ->
    cleanNames (d0 :: dsegs) -> cleanNames init -> isName x ->
    readFile sourcePath tree localPath = Ok data ->
    faults w = [] ->
    lookupID d0 (Gdrive.rootID c) true w = [] ->
    ~ In d0 init ->
    exists w' new,
      Gdrive.uploadFile tree sourcePath c localPath (Join (init ++ [x]) slash) w
      = (Fail (Errorf "failed to get parent folder ID" (ErrorNew "folder not found")), w') /\
      objects w' = objects w ++ new /\
      Forall (fun o => IsFolder o = true) new.
Proof.
  intros tree sourcePath c localPath d0 dsegs init x data w
         Hdest Hd Hi Hx Hread Hf Hl Hnot.
  pose proof Hi as [Hine Hinames]. pose proof Hd as [_ Hdnames].
  unfold Gdrive.uploadFile. rewrite Hread.
  rewrite (Dir_Join init x Hinames Hx).
  assert (Hp : pathOf init = Join init slash) by (destruct init; [contradiction | reflexivity]).
  rewrite Hp. rewrite (bool_decide_eq_false_2 _ (proj1 (Join_names_not_stop init Hi))).
  cbn [negb]. unfold bind at 1. unfold bind at 1, wrap at 1.
  unfold Gdrive.createFolder.
  rewrite (Split_Join init Hine (isName_noSlash init Hinames)).
  destruct (gdrive_createFolderParts_creates init (Gdrive.rootID c) w Hf)
    as (w1 & new & -> & Hf1 & Ho1 & Hnew & _).
  unfold wrap at 1, Gdrive.getFolderID. rewrite Hdest.
  assert (Hne : Join (d0 :: dsegs) slash <> []).
  { destruct (Join_names_head _ Hd) as (a & r & -> & _). discriminate. }
  rewrite (bool_decide_eq_false_2 _ Hne). cbn [negb].
  assert (Hall : cleanNames ((d0 :: dsegs) ++ init)).
  { split; [discriminate |]. apply Forall_app. split; assumption. }
  assert (HJ : Join2 (Join (d0 :: dsegs) slash) (Join init slash)
               = Join ((d0 :: dsegs) ++ init) slash).
  { unfold Join2.
    destruct (Join (d0 :: dsegs) slash) as [| a r] eqn:Ea; [contradiction |].
    destruct (Join init slash) as [| b r'] eqn:Eb.
    { destruct (Join_names_head _ Hi) as (? & ? & E & _). congruence. }
    rewrite <- Ea, <- Eb, (Join_app (d0 :: dsegs) init) by (discriminate || assumption).
    apply Clean_Join. exact Hall. }
  rewrite HJ, (Trim_Join _ Hall).
  rewrite (Split_Join _ (proj1 Hall) (isName_noSlash _ (proj2 Hall))).
  cbn [app].
  assert (Hd0 : d0 <> []).
  { inversion Hdnames as [| ? ? (H0 & _) _]; subst. exact H0. }
  rewrite (gdrive_getFolderIDParts_not_found d0 (dsegs ++ init) (Gdrive.rootID c) w1 Hd0 Hf1).
  - eexists. exists new. split; [reflexivity |]. split; [exact Ho1 |].
    eapply Forall_impl; [exact Hnew |]. intros o [_ Ho]. exact Ho.
  - apply (lookupID_other_names d0 (Gdrive.rootID c) true w w1 new Ho1); [| exact Hl].
    eapply Forall_impl; [exact Hnew |]. intros o [Ho _] E. rewrite E in Ho.
    exact (Hnot Ho).
Qed.

(** The theorem for the destination [backup] and the file [docs/a.txt] on
    an empty store. *)
Lemma gdrive_destination_path_fails_below_the_root_witness :
  exists w' new,
    Gdrive.uploadFile docsTree (str "src") (driveClientTo (str "backup"))
      (str "src/docs/a.txt") (str "docs/a.txt") emptyWorld
    = (Fail (Errorf "failed to get parent folder ID" (ErrorNew "folder not found")), w') /\
    objects w' = objects emptyWorld ++ new /\
    Forall (fun o => IsFolder o = true) new.
Proof.
  apply (gdrive_destination_path_fails_below_the_root docsTree (str "src")
           (driveClientTo (str "backup")) (str "src/docs/a.txt")
           (str "backup") [] [str "docs"] (str "a.txt") (str "hi") emptyWorld
           eq_refl
           ltac:(split; [discriminate | repeat constructor; discriminate])
           ltac:(split; [discriminate | repeat constructor; discriminate])
           ltac:(repeat constructor; discriminate)
           ltac:(vm_compute; reflexivity) eq_refl eq_refl
           ltac:(intros [H | []]; discriminate H)).
Defined.

(** ** A file at the top of the tree, in the pCloud client *)

Lemma pcloud_apiRequest_ok c w : faults w = [] -> Pcloud.apiRequest c w = (Ok 0, asked c w).
Proof. intros H. unfold Pcloud.apiRequest. rewrite (request_ok c w H). reflexivity. Qed.

Lemma pcloud_findFolder_ok name parentFolderID w :
  faults w = [] ->
  Pcloud.findFolder name parentFolderID w
  = (Ok (lookupID name parentFolderID true w), asked (ListFolder parentFolderID) w).
Proof.
  intros H. unfold Pcloud.findFolder, bind, wrap.
  rewrite (pcloud_apiRequest_ok _ w H). reflexivity.
Qed.

Lemma LogVerbose_calls f sa ia w :
  exists w', LogVerbose f sa ia w = (Ok tt, w') /\
             objects w' = objects w /\ nextID w' = nextID w /\
             calls w' = calls w /\ faults w' = faults w.
Proof.
  unfold LogVerbose. destruct (verboseMode w); eexists; repeat split; reflexivity.
Qed.

Lemma storeUpload_calls folderid name data w :
  exists w', Pcloud.storeUpload folderid name data w = (Ok tt, w') /\
             calls w' = calls w /\ faults w' = faults w.
Proof.
  unfold Pcloud.storeUpload, bind, gets.
  destruct (negb (bool_decide (lookupID name folderid false w = [])));
    eexists; repeat split; reflexivity.
Qed.

(** X16. The pCloud client without a destination path takes the
    directory of a file at the top of the tree, ["."], for a folder name:
    when the root folder has no folder of that name and no request fails,
    [uploadFile] asks the store to create a folder named ["."] in the root
    folder and uploads the file into that folder, not into the root
    folder. *)
Theorem pcloud_top_level_file_goes_into_a_dot_folder :
  forall (tree : Node) (sourcePath : list ascii) (c : Pcloud.Client)
         (localPath x data : list ascii) (w : World),
    Config.PCloudConfig.DestinationPath (Pcloud.config c) = [] ->
    isName x ->
    readFile sourcePath tree localPath = Ok data ->
    faults w = [] -> wellFormed w ->
    lookupID dot (Pcloud.rootID c) true w = [] ->
    exists w',
      Pcloud.uploadFile tree sourcePath c localPath x w = (Ok tt, w') /\
      calls w' = calls w ++
        [(ListFolder (Pcloud.rootID c), None);
         (CreateFolderReq dot (Pcloud.rootID c), None);
         (ListFolder (Pcloud.rootID c), None);
         (UploadFileReq (FormatInt (nextID w)) x data, None)].
Proof.
  intros tree sourcePath c localPath x data w Hdest Hx Hread Hf Hwf Hl.
  unfold Pcloud.uploadFile. rewrite Hread, Hdest.
  rewrite (bool_decide_eq_true_2 ([] = [])) by reflexivity. cbn [negb].
  pose proof (Dir_Join [] x ltac:(constructor) Hx) as HDir.
  pose proof (Base_Join [] x ltac:(constructor) Hx) as HBase.
  cbn [app Join pathOf] in HDir, HBase. rewrite HDir, HBase.
  unfold Pcloud.createFolder, Pcloud.getFolderIDDirect.
  set (root := Pcloud.rootID c).
  set (newID := FormatInt (nextID w)).
  (* createFolder "." *)
  change (Split dot slash) with [dot].
  assert (Hdotne : dot <> []) by discriminate.
  set (w1 := asked (ListFolder root) w).
  set (w2 := asked (CreateFolderReq dot root) w1).
  destruct (LogVerbose_calls "Created folder: %s" [dot] []
              (snd (addObject dot root true [] w2)))
    as (w3 & HL & Ho3 & Hn3 & Hc3 & Hf3).
  assert (Hcreate : Pcloud.createFolderParts [dot] root w = (Ok tt, w3)).
  { cbn [Pcloud.createFolderParts].
    rewrite (bool_decide_eq_false_2 _ Hdotne). unfold bind at 1, wrap at 1.
    rewrite (pcloud_findFolder_ok dot root w Hf). fold w1.
    rewrite (bool_decide_eq_true_2 _ Hl). cbn [negb].
    unfold bind at 1, wrap at 1.
    rewrite (pcloud_apiRequest_ok (CreateFolderReq dot root) w1 eq_refl). fold w2.
    change (negb (0 =? 0)) with false. cbv iota.
    unfold bind at 1. unfold addObject at 1. unfold bind at 1.
    unfold addObject in HL. cbn [snd] in HL. rewrite HL. reflexivity. }
  unfold bind at 1. unfold wrap at 1. rewrite Hcreate.
  (* getFolderIDDirect "." *)
  assert (Ho3' : objects w3 = (objects w ++ [folderObject newID dot root]) ++ []).
  { rewrite app_nil_r, Ho3. reflexivity. }
  assert (Hfind : lookupID dot root true w3 = newID).
  { exact (lookupID_created dot root w w3 [] newID Hwf Hl Ho3'). }
  assert (Hf3' : faults w3 = []) by (rewrite Hf3; reflexivity).
  unfold bind at 1. unfold wrap at 1.
  change (Split (Trim dot slash) slash) with [dot].
  cbn [Pcloud.getFolderIDParts].
  rewrite (bool_decide_eq_false_2 _ Hdotne). unfold bind at 1.
  rewrite (pcloud_findFolder_ok dot root w3 Hf3'), Hfind.
  rewrite (bool_decide_eq_false_2 _ (FormatInt_not_empty (nextID w))).
  unfold ret at 1.
  (* the upload *)
  set (w4 := asked (ListFolder root) w3).
  unfold bind at 1. unfold wrap at 1.
  rewrite (pcloud_apiRequest_ok (UploadFileReq newID x data) w4 eq_refl).
  change (negb (0 =? 0)) with false. cbv iota.
  destruct (storeUpload_calls newID x data (asked (UploadFileReq newID x data) w4))
    as (w5 & HS & Hc5 & _).
  unfold bind at 1. rewrite HS.
  eexists. split; [reflexivity |].
  cbn [logPrintf modify calls]. rewrite Hc5. unfold w4. cbn [asked calls].
  rewrite Hc3. unfold w2, w1. cbn [asked calls addObject setObjects snd].
  rewrite <- !app_assoc. reflexivity.
Qed.

(** The theorem for [a.txt] on an empty store. *)
Lemma pcloud_top_level_file_goes_into_a_dot_folder_witness :
  exists w',
    Pcloud.uploadFile (oneFileTree 0) (str "src") pcloudClient
      (str "src/a.txt") (str "a.txt") emptyWorld = (Ok tt, w') /\
    calls w' =
      [(ListFolder (str "0"), None); (CreateFolderReq (str ".") (str "0"), None);
       (ListFolder (str "0"), None);
       (UploadFileReq (str "1") (str "a.txt") (str "hi"), None)].
Proof.
  apply (pcloud_top_level_file_goes_into_a_dot_folder (oneFileTree 0) (str "src")
           pcloudClient (str "src/a.txt") (str "a.txt") (str "hi") emptyWorld
           eq_refl ltac:(repeat constructor; discriminate)
           ltac:(vm_compute; reflexivity) eq_refl ltac:(constructor) eq_refl).
Defined.

(** ** The passes of [performSync] *)







(** ** Loading and validating the configuration *)

(** X18. [Load] on a configuration file that parses always succeeds, and
    the three numbers of its result are never zero: a zero (or absent)
    [max_concurrency], [retry_attempts] or [chunk_size_bytes] is replaced
    by the default, so that [retry_attempts] cannot be set to 0 in the
    file although [Validate] accepts 0.  The result passes [Validate]
    exactly when none of the three numbers of the file is negative. *)
Theorem loaded_configuration_has_no_zero :
  forall (c0 : Config.Config) (getenv : ConfigFile.Env),
    exists cfg,
      ConfigFile.Load (ConfigFile.Parsed c0) getenv = Ok cfg /\
      Config.GeneralConfig.MaxConcurrency (Config.General cfg) <> 0 /\
      Config.GeneralConfig.RetryAttempts (Config.General cfg) <> 0 /\
      Config.GeneralConfig.ChunkSizeBytes (Config.General cfg) <> 0 /\
      (ConfigFile.Validate cfg = Ok tt <->
       0 <= Config.GeneralConfig.MaxConcurrency (Config.General c0) /\
       0 <= Config.GeneralConfig.RetryAttempts (Config.General c0) /\
       0 <= Config.GeneralConfig.ChunkSizeBytes (Config.General c0)).
Proof.
  intros c0 getenv. eexists. split; [reflexivity |].
  unfold ConfigFile.Validate.
  cbn [ConfigFile.applyEnvOverrides ConfigFile.applyDefaults Config.General
       Config.GeneralConfig.MaxConcurrency Config.GeneralConfig.RetryAttempts
       Config.GeneralConfig.ChunkSizeBytes ConfigFile.DefaultConfig].
  destruct (Z.eqb_spec (Config.GeneralConfig.MaxConcurrency (Config.General c0)) 0) as [Em | Em];
  destruct (Z.eqb_spec (Config.GeneralConfig.RetryAttempts (Config.General c0)) 0) as [Er | Er];
  destruct (Z.eqb_spec (Config.GeneralConfig.ChunkSizeBytes (Config.General c0)) 0) as [Ec | Ec];
    (split; [lia |]); (split; [lia |]); (split; [lia |]);
    repeat match goal with
           | |- context [?a <=? ?b] => destruct (Z.leb_spec a b)
           | |- context [?a <? ?b] => destruct (Z.ltb_spec a b)
           end;
    split; intros Hv; try discriminate Hv; try reflexivity; try lia.
Qed.

(** ** Polling a watched path *)

Section WalkCalls.
Context {St : Type}.
Variable walkFn : list ascii -> option Os.FileInfo -> option error -> M St unit.

(** Every error of the walk is an error the function returned on a call
    the walk makes: with the [FileInfo] of the node, or with an error. *)
Variable E : error -> Prop.
Hypothesis E_fn : forall path info err s e s',
    (info = None -> err <> None) ->
    walkFn path info err s = (Fail e, s') -> E e.

Lemma walk_fail_called n :
  forall path s e s', walk walkFn path n s = (Fail e, s') -> E e.
Proof.
  induction n as [name data modTime readable | name
                  | name size modTime listable children IH] using Node_tree_ind;
    intros path s e s' H; simpl in H.
  - eapply E_fn; [| exact H]. discriminate.
  - eapply E_fn; [| exact H]. intros _. discriminate.
  - unfold bind in H.
    destruct (walkFn path _ _ s) as [[u | e1] s1] eqn:E1.
    + destruct listable; [| discriminate H].
      eapply walkNames_fail; [exact IH | exact H].
    + injection H as <- _. eapply E_fn; [| exact E1]. discriminate.
Qed.

Lemma Walk_fail_called root tree s e s' :
  Walk walkFn root tree s = (Fail e, s') -> E e /\ e <> SkipDir.
Proof.
  unfold Walk. intros H.
  destruct (walk walkFn root tree s) as [[u | e1] s1] eqn:E1; [discriminate H |].
  destruct (error_eqb e1 SkipDir) eqn:Eq; [discriminate H |].
  injection H as <- _. split.
  - eapply walk_fail_called; exact E1.
  - intros ->. simpl in Eq. discriminate Eq.
Qed.
End WalkCalls.

Lemma recordFn_fails_with_SkipDir ignorePatterns basePath path info err s e s' :
  (info = None -> err <> None) ->
  Poll.recordFn ignorePatterns basePath path info err s = (Fail e, s') -> e = SkipDir.
Proof.
  intros Hcall. unfold Poll.recordFn.
  destruct err as [e0 |]; [discriminate |].
  destruct info as [info |]; [| exfalso; exact (Hcall eq_refl eq_refl)].
  destruct (Utils.ShouldIgnore _ _); [| discriminate].
  destruct (IsDir info); [| discriminate].
  intros H. injection H as <- _. reflexivity.
Qed.

Lemma scan_succeeds ignorePatterns tree basePath :
  fst (Poll.scan ignorePatterns tree basePath) = Ok tt.
Proof.
  unfold Poll.scan.
  destruct (Walk _ basePath tree ∅) as [[[] | e] s] eqn:E; [reflexivity |].
  exfalso.
  destruct (Walk_fail_called (Poll.recordFn ignorePatterns basePath) (fun e => e = SkipDir)
              (recordFn_fails_with_SkipDir ignorePatterns basePath)
              basePath tree ∅ e s E) as [H1 H2].
  exact (H2 H1).
Qed.

Lemma updateStates_is_current (fileStates currentStates : Poll.FileStates) :
  Poll.updateStates fileStates currentStates = currentStates.
Proof.
  unfold Poll.updateStates, Poll.FileStates in *. apply map_eq. intros k.
  apply option_eq. intros v.
  rewrite map_lookup_filter_Some, lookup_union_Some_raw. cbn. split.
  - intros [[H | [H1 H2]] [y Hy]]; [exact H | congruence].
  - intros H. split; [left; exact H | eauto].
Qed.

Lemma checkForChanges_unfold ignorePatterns clock tree basePath order1 order2 fileStates p :
  Poll.checkForChanges ignorePatterns clock tree basePath order1 order2 fileStates p
  = (snd (Poll.scan ignorePatterns tree basePath),
     {| Poll.watcher :=
          fold_left (Poll.checkPrevious clock fileStates
                       (snd (Poll.scan ignorePatterns tree basePath)))
            order2
            (fold_left (Poll.checkCurrent clock fileStates
                          (snd (Poll.scan ignorePatterns tree basePath)))
               order1 (Poll.watcher p));
        Poll.errors := Poll.errors p |}).
Proof.
  unfold Poll.checkForChanges.
  pose proof (scan_succeeds ignorePatterns tree basePath) as H.
  destruct (Poll.scan ignorePatterns tree basePath) as [[[] | e] cur];
    [| discriminate H].
  cbn [snd]. rewrite updateStates_is_current. reflexivity.
Qed.

(** X19. A poll never reports a failed scan: the function of the walk
    swallows every error, so the scan of [checkForChanges] succeeds on
    every tree and nothing is sent on the channel of errors.  After the
    call the tracked states are exactly the states the scan found. *)
Theorem poll_never_reports_a_scan_error :
  forall (ignorePatterns : list (list ascii)) (clock : list ascii -> Z * Z)
         (tree : Node) (basePath : list ascii) (order1 order2 : list (list ascii))
         (fileStates : Poll.FileStates) (p : Poll.Poller),
    let r := Poll.checkForChanges ignorePatterns clock tree basePath
               order1 order2 fileStates p in
    fst (Poll.scan ignorePatterns tree basePath) = Ok tt /\
    Poll.errors (snd r) = Poll.errors p /\
    fst r = snd (Poll.scan ignorePatterns tree basePath).
Proof.
  intros ignorePatterns clock tree basePath order1 order2 fileStates p r.
  unfold r. rewrite checkForChanges_unfold.
  split; [apply scan_succeeds |]. split; reflexivity.
Qed.

Lemma fold_left_fixed {A B} (f : A -> B -> A) (l : list B) (a : A) :
  (forall b, In b l -> f a b = a) -> fold_left f l a = a.
Proof.
  induction l as [| b l IH]; intros H; [reflexivity |].
  cbn [fold_left]. rewrite (H b (or_introl eq_refl)).
  apply IH. intros b' Hb'. apply H. right. exact Hb'.
Qed.

Lemma checkCurrent_same_stamp clock fileStates currentStates fw path :
  option_Forall2 sameStamp (currentStates !! path) (fileStates !! path) ->
  Poll.checkCurrent clock fileStates currentStates fw path = fw.
Proof.
  unfold Poll.checkCurrent. intros H.
  destruct H as [c o [Ht Hs] |]; [| reflexivity].
  rewrite Ht, Hs, !Z.eqb_refl. reflexivity.
Qed.

Lemma checkPrevious_same_stamp clock fileStates currentStates fw path :
  option_Forall2 sameStamp (currentStates !! path) (fileStates !! path) ->
  Poll.checkPrevious clock fileStates currentStates fw path = fw.
Proof.
  unfold Poll.checkPrevious. intros H.
  destruct H as [c o _ |]; reflexivity.
Qed.

(** X20. A poll compares modification times and sizes only: when the scan
    finds the paths that are tracked, each with the modification time and
    the size that are tracked, no event is sent and the watcher is left as
    it was, whatever else changed (the bytes of a file, for one). *)
Theorem poll_compares_times_and_sizes_only :
  forall (ignorePatterns : list (list ascii)) (clock : list ascii -> Z * Z)
         (tree : Node) (basePath : list ascii) (order1 order2 : list (list ascii))
         (fileStates : Poll.FileStates) (p : Poll.Poller),
    sameStamps (snd (Poll.scan ignorePatterns tree basePath)) fileStates ->
    snd (Poll.checkForChanges ignorePatterns clock tree basePath
           order1 order2 fileStates p) = p.
Proof.
  intros ignorePatterns clock tree basePath order1 order2 fileStates p Hsame.
  rewrite checkForChanges_unfold. cbn [snd].
  rewrite (fold_left_fixed _ order1)
    by (intros q _; apply checkCurrent_same_stamp, Hsame).
  rewrite (fold_left_fixed _ order2)
    by (intros q _; apply checkPrevious_same_stamp, Hsame).
  destruct p. reflexivity.
Qed.

Lemma sameStamps_refl a : sameStamps a a.
Proof.
  intros path. destruct (a !! path); constructor. split; reflexivity.
Qed.

(** The theorem for a file whose bytes were replaced by as many other
    bytes, with the modification time kept. *)
Lemma poll_compares_times_and_sizes_only_witness :
  snd (Poll.checkForChanges [] (clockAt 9) (rewrittenFileTree 0) (str "src")
         [str "src"; str "src/a.txt"] [str "src/a.txt"; str "src"]
         (snd (Poll.scan [] (oneFileTree 0) (str "src"))) newPoller)
  = newPoller.
Proof.
  apply (poll_compares_times_and_sizes_only [] (clockAt 9) (rewrittenFileTree 0)
           (str "src") [str "src"; str "src/a.txt"] [str "src/a.txt"; str "src"]
           (snd (Poll.scan [] (oneFileTree 0) (str "src"))) newPoller).
  replace (snd (Poll.scan [] (rewrittenFileTree 0) (str "src")))
    with (snd (Poll.scan [] (oneFileTree 0) (str "src")))
    by (vm_compute; reflexivity).
  apply sameStamps_refl.
Defined.

Lemma sendEvent_events now e fw :
  Watcher.events (Watcher.sendEvent now e fw) = Watcher.events fw \/
  Watcher.events (Watcher.sendEvent now e fw) = Watcher.events fw ++ [e].
Proof.
  unfold Watcher.sendEvent. destruct (Watcher.debounced now e fw); [left; reflexivity |].
  destruct (_ <? _)%nat; [right | left]; reflexivity.
Qed.

Lemma fold_left_keeps {A B} (P : A -> Prop) (f : A -> B -> A) (l : list B) :
  (forall a b, P a -> P (f a b)) -> forall a, P a -> P (fold_left f l a).
Proof.
  intros Hf. induction l as [| b l IH]; intros a Ha; [exact Ha |].
  cbn [fold_left]. apply IH, Hf, Ha.
Qed.

Lemma send_keeps_names clock (Q : list ascii -> Prop) old path op fw :
  Q path ->
  Forall (fun e => In e old \/ Q (Watcher.Name e)) (Watcher.events fw) ->
  Forall (fun e => In e old \/ Q (Watcher.Name e))
         (Watcher.events (Poll.send clock path op fw)).
Proof.
  intros Hq H. unfold Poll.send.
  destruct (sendEvent_events (snd (clock path))
              {| Watcher.Name := path; Watcher.Op := op;
                 Watcher.Time := fst (clock path) |} fw) as [-> | ->].
  - exact H.
  - apply Forall_app. split; [exact H |].
    constructor; [right; exact Hq | constructor].
Qed.

Lemma scan_records_watched_paths ignorePatterns tree basePath path :
  is_Some (snd (Poll.scan ignorePatterns tree basePath) !! path) ->
  watched ignorePatterns basePath path.
Proof.
  unfold Poll.scan. intros Hsome.
  set (R := fun s s' : Poll.FileStates =>
              forall q, is_Some (s' !! q) ->
                        is_Some (s !! q) \/ watched ignorePatterns basePath q).
  assert (Hfn : forall p info err s,
             R s (snd (Poll.recordFn ignorePatterns basePath p info err s))).
  { intros p info err s q Hq. unfold Poll.recordFn in Hq.
    destruct err as [e |]; [left; exact Hq |].
    destruct info as [info |]; [| left; exact Hq].
    destruct (Utils.ShouldIgnore (Poll.relPathOf basePath p) ignorePatterns) eqn:Hi.
    - destruct (IsDir info); left; exact Hq.
    - cbn [modify snd] in Hq. unfold Poll.FileStates in *.
      apply lookup_insert_is_Some in Hq as [<- | [_ Hq]];
        [right; exact Hi | left; exact Hq]. }
  assert (Hrefl : forall s, R s s) by (intros s q Hq; left; exact Hq).
  assert (Htrans : forall s1 s2 s3, R s1 s2 -> R s2 s3 -> R s1 s3).
  { intros s1 s2 s3 H12 H23 q Hq.
    destruct (H23 q Hq) as [Hq2 | Hw]; [exact (H12 q Hq2) | right; exact Hw]. }
  destruct (Walk_rel (Poll.recordFn ignorePatterns basePath) R Hrefl Htrans Hfn
              basePath tree ∅ path Hsome) as [Hq | Hw]; [| exact Hw].
  exfalso. unfold Poll.FileStates in *. rewrite lookup_empty in Hq.
  destruct Hq as [x Hx]. discriminate Hx.
Qed.

(** X21. A poll sends events for watched paths only: when no tracked path
    is ignored by the patterns of the configuration, every event on the
    channel after the call was there before or names a path that the
    patterns do not ignore, and again no tracked path is ignored. *)
Theorem poll_sends_events_for_watched_paths_only :
  forall (ignorePatterns : list (list ascii)) (clock : list ascii -> Z * Z)
         (tree : Node) (basePath : list ascii) (order1 order2 : list (list ascii))
         (fileStates : Poll.FileStates) (p : Poll.Poller),
    (forall path, is_Some (fileStates !! path) -> watched ignorePatterns basePath path) ->
    let r := Poll.checkForChanges ignorePatterns clock tree basePath
               order1 order2 fileStates p in
    (forall path, is_Some (fst r !! path) -> watched ignorePatterns basePath path) /\
    Forall (fun e => In e (Watcher.events (Poll.watcher p)) \/
                     watched ignorePatterns basePath (Watcher.Name e))
           (Watcher.events (Poll.watcher (snd r))).
Proof.
  intros ignorePatterns clock tree basePath order1 order2 fileStates p Hprev r.
  unfold r. rewrite checkForChanges_unfold. cbn [fst snd Poll.watcher].
  split; [intros path; apply scan_records_watched_paths |].
  set (cur := snd (Poll.scan ignorePatterns tree basePath)).
  set (P := fun fw => Forall (fun e => In e (Watcher.events (Poll.watcher p)) \/
                                       watched ignorePatterns basePath (Watcher.Name e))
                             (Watcher.events fw)).
  apply (fold_left_keeps P).
  { intros fw path Hfw. unfold Poll.checkPrevious.
    destruct (fileStates !! path) as [o |] eqn:Eo; [| exact Hfw].
    destruct (cur !! path); [exact Hfw |].
    apply send_keeps_names; [| exact Hfw].
    apply Hprev. rewrite Eo. eauto. }
  apply (fold_left_keeps P).
  { intros fw path Hfw. unfold Poll.checkCurrent.
    destruct (cur !! path) as [c |] eqn:Ec; [| exact Hfw].
    assert (Hw : watched ignorePatterns basePath path).
    { apply (scan_records_watched_paths ignorePatterns tree basePath).
      fold cur. rewrite Ec. eauto. }
    destruct (fileStates !! path) as [o |].
    - destruct (_ || _); [| exact Hfw]. apply send_keeps_names; assumption.
    - apply send_keeps_names; assumption. }
  unfold P. apply List.Forall_forall. intros e He. left. exact He.
Qed.

(** The theorem for the pattern [*.tmp] and a tree with [notes.tmp] and
    [notes.txt], nothing being tracked yet. *)
Lemma poll_sends_events_for_watched_paths_only_witness :
  Forall (fun e => In e [] \/ watched [str "*.tmp"] (str "src") (Watcher.Name e))
    (Watcher.events
       (Poll.watcher
          (snd (Poll.checkForChanges [str "*.tmp"] (clockAt 9) tmpAndTextTree (str "src")
                  [str "src"; str "src/notes.tmp"; str "src/notes.txt"] []
                  ∅ newPoller)))).
Proof.
  apply (proj2 (poll_sends_events_for_watched_paths_only [str "*.tmp"] (clockAt 9)
                  tmpAndTextTree (str "src")
                  [str "src"; str "src/notes.tmp"; str "src/notes.txt"] []
                  ∅ newPoller
                  ltac:(intros path [x Hx]; unfold Poll.FileStates in Hx;
                        rewrite lookup_empty in Hx; discriminate Hx))).
Defined.

Lemma fold_left_one {A B} (f : A -> B -> A) (b : B) (l : list B) (a : A) :
  NoDup l -> In b l ->
  (forall a' b', b' <> b -> f a' b' = a') ->
  fold_left f l a = f a b.
Proof.
  intros Hnd Hin Hf. revert a. induction l as [| b0 l IH]; intros a; [destruct Hin |].
  inversion Hnd as [| ? ? Hnot Hnd']; subst. cbn [fold_left].
  destruct Hin as [-> | Hin].
  - apply fold_left_fixed. intros b' Hb'. apply Hf. intros ->.
    apply Hnot. apply list_elem_of_In. exact Hb'.
  - rewrite Hf; [apply IH; assumption |].
    intros ->. apply Hnot. apply list_elem_of_In. exact Hin.
Qed.

(** X22. A poll after a change of one path sends one event for it, with
    the operation of the change.  When the scan and the tracked states
    agree on every other path, and the loops visit every key once, the
    watcher after the call is the watcher after one [sendEvent]: of
    [Create] for a path that is new, of [Write] for a path whose
    modification time or size differs, of [Remove] for a path that is
    gone; and it is unchanged when the path has not changed either. *)
Theorem poll_reports_the_change_of_one_path :
  forall (ignorePatterns : list (list ascii)) (clock : list ascii -> Z * Z)
         (tree : Node) (basePath : list ascii) (order1 order2 : list (list ascii))
         (fileStates : Poll.FileStates) (p : Poll.Poller) (path : list ascii),
    let cur := snd (Poll.scan ignorePatterns tree basePath) in
    (forall q, q <> path -> option_Forall2 sameStamp (cur !! q) (fileStates !! q)) ->
    NoDup order1 -> NoDup order2 ->
    (is_Some (cur !! path) -> In path order1) ->
    (is_Some (fileStates !! path) -> In path order2) ->
    Poll.watcher (snd (Poll.checkForChanges ignorePatterns clock tree basePath
                         order1 order2 fileStates p))
    = match cur !! path, fileStates !! path with
      | Some c, Some o =>
          if negb (Os.ModTime c =? Os.ModTime o) || negb (Os.Size c =? Os.Size o)
          then Poll.send clock path Watcher.Write (Poll.watcher p)
          else Poll.watcher p
      | Some _, None => Poll.send clock path Watcher.Create (Poll.watcher p)
      | None, Some _ => Poll.send clock path Watcher.Remove (Poll.watcher p)
      | None, None => Poll.watcher p
      end.
Proof.
  intros ignorePatterns clock tree basePath order1 order2 fileStates p path cur
         Hother Hnd1 Hnd2 Hin1 Hin2.
  rewrite checkForChanges_unfold. cbn [snd Poll.watcher]. fold cur.
  assert (H1 : forall fw,
             fold_left (Poll.checkCurrent clock fileStates cur) order1 fw
             = Poll.checkCurrent clock fileStates cur fw path).
  { intros fw. destruct (cur !! path) as [c |] eqn:Ec.
    - apply fold_left_one; [exact Hnd1 | apply Hin1; eauto |].
      intros fw' q Hq. apply checkCurrent_same_stamp, Hother, Hq.
    - transitivity fw.
      + apply fold_left_fixed. intros q _.
        destruct (decide (q = path)) as [-> | Hq].
        * unfold Poll.checkCurrent. rewrite Ec. reflexivity.
        * apply checkCurrent_same_stamp, Hother, Hq.
      + unfold Poll.checkCurrent. rewrite Ec. reflexivity. }
  assert (H2 : forall fw,
             fold_left (Poll.checkPrevious clock fileStates cur) order2 fw
             = Poll.checkPrevious clock fileStates cur fw path).
  { intros fw. destruct (fileStates !! path) as [o |] eqn:Eo.
    - apply fold_left_one; [exact Hnd2 | apply Hin2; eauto |].
      intros fw' q Hq. apply checkPrevious_same_stamp, Hother, Hq.
    - transitivity fw.
      + apply fold_left_fixed. intros q _.
        destruct (decide (q = path)) as [-> | Hq].
        * unfold Poll.checkPrevious. rewrite Eo. reflexivity.
        * apply checkPrevious_same_stamp, Hother, Hq.
      + unfold Poll.checkPrevious. rewrite Eo. reflexivity. }
  rewrite H1, H2. unfold Poll.checkPrevious, Poll.checkCurrent.
  destruct (cur !! path) as [c |], (fileStates !! path) as [o |]; reflexivity.
Qed.

(** The theorem for a file whose modification time changed from 0 to 5:
    one [Write] event at the reading 9 of the clock. *)
Lemma poll_reports_the_change_of_one_path_witness :
  Watcher.events
    (Poll.watcher
       (snd (Poll.checkForChanges [] (clockAt 9) (oneFileTree 5) (str "src")
               [str "src"; str "src/a.txt"] [str "src/a.txt"; str "src"]
               (snd (Poll.scan [] (oneFileTree 0) (str "src"))) newPoller)))
  = [writeAt (str "src/a.txt") 9].
Proof.
  rewrite (poll_reports_the_change_of_one_path [] (clockAt 9) (oneFileTree 5) (str "src")
             [str "src"; str "src/a.txt"] [str "src/a.txt"; str "src"]
             (snd (Poll.scan [] (oneFileTree 0) (str "src"))) newPoller
             (str "src/a.txt")).
  - vm_compute. reflexivity.
  - intros q Hq.
    replace (snd (Poll.scan [] (oneFileTree 5) (str "src")))
      with (<[str "src/a.txt" := {| Os.Name := str "a.txt"; Os.Size := 2;
                                    Os.ModTime := 5; Os.IsDir := false |}]>
              (<[str "src" := {| Os.Name := str "src"; Os.Size := 4096;
                                 Os.ModTime := 0; Os.IsDir := true |}]>
                 (∅ : Poll.FileStates)))
      by (vm_compute; reflexivity).
    replace (snd (Poll.scan [] (oneFileTree 0) (str "src")))
      with (<[str "src/a.txt" := {| Os.Name := str "a.txt"; Os.Size := 2;
                                    Os.ModTime := 0; Os.IsDir := false |}]>
              (<[str "src" := {| Os.Name := str "src"; Os.Size := 4096;
                                 Os.ModTime := 0; Os.IsDir := true |}]>
                 (∅ : Poll.FileStates)))
      by (vm_compute; reflexivity).
    unfold Poll.FileStates. rewrite !(lookup_insert_ne _ (str "src/a.txt") q) by congruence.
    destruct (decide (q = str "src")) as [-> | Hs].
    + rewrite !lookup_insert_eq. constructor. split; reflexivity.
    + rewrite !lookup_insert_ne by congruence. rewrite lookup_empty. constructor.
  - repeat constructor; rewrite ?list_elem_of_In; cbn; intuition discriminate.
  - repeat constructor; rewrite ?list_elem_of_In; cbn; intuition discriminate.
  - intros _. right. left. reflexivity.
  - intros _. left. reflexivity.
Defined.

(** ** What a pass leaves in the store *)

Lemma grows_refl w : grows w w.
Proof. exists []. symmetry. apply app_nil_r. Qed.

Lemma grows_trans w1 w2 w3 : grows w1 w2 -> grows w2 w3 -> grows w1 w3.
Proof.
  intros [n1 H1] [n2 H2]. exists (n1 ++ n2). rewrite H2, H1, app_assoc. reflexivity.
Qed.

Lemma growing_ret {A} (a : A) : growing (ret a).
Proof. intros w. apply grows_refl. Qed.

Lemma growing_fail {A} e : growing (@fail World A e).
Proof. intros w. apply grows_refl. Qed.

Lemma growing_gets {A} (f : World -> A) : growing (gets f).
Proof. intros w. apply grows_refl. Qed.

Lemma growing_bind {A B} (m : M World A) (k : A -> M World B) :
  growing m -> (forall a, growing (k a)) -> growing (bind m k).
Proof.
  intros Hm Hk w. unfold bind. specialize (Hm w).
  destruct (m w) as [[a | e] w1]; cbn [snd] in *; [| exact Hm].
  eapply grows_trans; [exact Hm | apply Hk].
Qed.

Lemma growing_wrap {A} msg (m : M World A) : growing m -> growing (wrap msg m).
Proof.
  intros Hm w. unfold wrap. specialize (Hm w).
  destruct (m w) as [[a | e] w1]; exact Hm.
Qed.

Lemma grows_same_objects w w' : objects w' = objects w -> grows w w'.
Proof. intros H. exists []. rewrite H. symmetry. apply app_nil_r. Qed.

Lemma growing_request c : growing (request c).
Proof.
  intros w. unfold request.
  destruct (faults w) as [| [k |] rest]; apply grows_same_objects; reflexivity.
Qed.

Lemma growing_logPrintf f sa ia : growing (logPrintf f sa ia).
Proof. intros w. apply grows_same_objects. reflexivity. Qed.

Lemma growing_LogVerbose f sa ia : growing (LogVerbose f sa ia).
Proof.
  intros w. unfold LogVerbose.
  destruct (verboseMode w); apply grows_same_objects; reflexivity.
Qed.

Lemma growing_addObject name parent isFolder data :
  growing (addObject name parent isFolder data).
Proof.
  intros w. unfold addObject, grows. cbn [snd setObjects objects].
  eexists. rewrite map_app. reflexivity.
Qed.

Lemma growing_setData id name data : growing (setData id name data).
Proof.
  intros w. unfold setData, modify, grows. cbn [snd setObjects objects].
  exists []. rewrite app_nil_r, map_map. apply map_ext_in. intros o _.
  destruct (bool_decide (ID o = id)) eqn:E; [| reflexivity].
  apply bool_decide_eq_true in E. unfold skeleton. cbn. rewrite E. reflexivity.
Qed.

Lemma growing_apiRequest c : growing (Pcloud.apiRequest c).
Proof.
  intros w. unfold Pcloud.apiRequest. pose proof (growing_request c w) as H.
  destruct (request c w) as [[u | e] w1]; cbn [snd] in *; [exact H |].
  destruct e as [| p | k | m | m cause]; try exact H.
  destruct k; exact H.
Qed.

Create HintDb growing.
#[local] Hint Resolve growing_ret growing_fail growing_gets growing_wrap growing_request
  growing_logPrintf growing_LogVerbose growing_addObject growing_setData
  growing_apiRequest : growing.

Ltac growing_step :=
  repeat first
    [ apply growing_bind; [| intros ?]
    | apply growing_wrap
    | match goal with
      | |- growing (if ?b then _ else _) => destruct b
      | |- growing (match ?x with Ok _ => _ | Fail _ => _ end) => destruct x
      end
    | solve [auto with growing] ].

Lemma gdrive_createFolderParts_growing parts :
  forall parentID, growing (Gdrive.createFolderParts parts parentID).
Proof.
  induction parts as [| part rest IH]; intros parentID;
    cbn [Gdrive.createFolderParts]; [apply growing_ret |].
  unfold Gdrive.findFolder. growing_step; apply IH.
Qed.

Lemma gdrive_getFolderIDParts_growing parts :
  forall parentID, growing (Gdrive.getFolderIDParts parts parentID).
Proof.
  induction parts as [| part rest IH]; intros parentID;
    cbn [Gdrive.getFolderIDParts]; [apply growing_ret |].
  unfold Gdrive.findFolder. growing_step; apply IH.
Qed.

Lemma gdrive_uploadFile_growing tree sourcePath c localPath remotePath :
  growing (Gdrive.uploadFile tree sourcePath c localPath remotePath).
Proof.
  unfold Gdrive.uploadFile, Gdrive.createFolder, Gdrive.getFolderID, Gdrive.findFile.
  growing_step;
    first [apply gdrive_createFolderParts_growing | apply gdrive_getFolderIDParts_growing].
Qed.

Lemma gdrive_syncFn_growing tree sourcePath c path info err :
  growing (Gdrive.syncFn tree sourcePath c path info err).
Proof.
  unfold Gdrive.syncFn.
  destruct err; [apply growing_fail |].
  destruct info as [info |]; [| apply growing_fail].
  destruct (Rel sourcePath path); [| apply growing_fail].
  growing_step.
  - apply gdrive_createFolderParts_growing.
  - apply gdrive_uploadFile_growing.
Qed.

Lemma pcloud_findFolder_growing name parentFolderID :
  growing (Pcloud.findFolder name parentFolderID).
Proof. unfold Pcloud.findFolder. growing_step. Qed.

Lemma pcloud_createFolderParts_growing parts :
  forall parentFolderID, growing (Pcloud.createFolderParts parts parentFolderID).
Proof.
  induction parts as [| part rest IH]; intros parentFolderID;
    cbn [Pcloud.createFolderParts]; [apply growing_ret |].
  growing_step; first [apply pcloud_findFolder_growing | apply IH].
Qed.

Lemma pcloud_getFolderIDParts_growing parts :
  forall parentFolderID, growing (Pcloud.getFolderIDParts parts parentFolderID).
Proof.
  induction parts as [| part rest IH]; intros parentFolderID;
    cbn [Pcloud.getFolderIDParts]; [apply growing_ret |].
  growing_step; first [apply pcloud_findFolder_growing | apply IH].
Qed.

Lemma pcloud_uploadFile_growing tree sourcePath c localPath remotePath :
  growing (Pcloud.uploadFile tree sourcePath c localPath remotePath).
Proof.
  unfold Pcloud.uploadFile, Pcloud.createFolder, Pcloud.getFolderIDDirect,
    Pcloud.storeUpload.
  growing_step;
    first [apply pcloud_createFolderParts_growing | apply pcloud_getFolderIDParts_growing].
Qed.

Lemma pcloud_syncFn_growing tree sourcePath c path info err :
  growing (Pcloud.syncFn tree sourcePath c path info err).
Proof.
  unfold Pcloud.syncFn.
  destruct err; [apply growing_fail |].
  destruct info as [info |]; [| apply growing_fail].
  destruct (Rel sourcePath path); [| apply growing_fail].
  growing_step.
  - apply pcloud_createFolderParts_growing.
  - apply pcloud_uploadFile_growing.
Qed.

(** X23. A pass of either client never takes an object out of the store,
    whatever the local tree is and whichever requests fail: after [Sync]
    the store holds the objects it held before, in their order, each with
    its identifier, its folder and its kind, and possibly new objects
    after them.  A file or folder that is gone locally stays in the
    store. *)
Theorem pass_never_removes_a_remote_object :
  forall (tree : Node) (sourcePath : list ascii)
         (gc : Gdrive.Client) (pc : Pcloud.Client) (w : World),
    grows w (snd (Gdrive.Sync tree sourcePath gc w)) /\
    grows w (snd (Pcloud.Sync tree sourcePath pc w)).
Proof.
  intros tree sourcePath gc pc w. split.
  - unfold Gdrive.Sync. apply growing_bind; [apply growing_logPrintf |].
    intros _ w1.
    apply (Walk_rel (Gdrive.syncFn tree sourcePath gc) grows grows_refl grows_trans).
    intros path info err s. apply gdrive_syncFn_growing.
  - unfold Pcloud.Sync. apply growing_bind; [apply growing_LogVerbose |].
    intros _ w1.
    apply (Walk_rel (Pcloud.syncFn tree sourcePath pc) grows grows_refl grows_trans).
    intros path info err s. apply pcloud_syncFn_growing.
Qed.

(** ** Uploading a file again, in the Google Drive client *)







